(** * aasvg-porffor.js: ASCII-art diagrams to SVG

    A shallow embedding of [src/aasvg-porffor.js] and the properties its
    specification states about it.

    - JavaScript strings are sequences of UTF-16 code units ([list N]);
      a "character" as returned by [charAt] is a string of length 0 or 1.
    - JavaScript numbers are modelled by [Z]: the program computes
      non-negative integers only, by additions and multiplications that are
      exact on doubles below 2^53.
    - Strings and arrays are unbounded: the limits an engine puts on their
      length, and on memory, are outside the model.  The one bound the
      language itself sets on [render], the length of the array [used]
      (below 2^32), is modelled apart, by [push] and [allocate_used], and
      the totality of [render] is stated within it.
    - Code that can raise (a property read on [undefined]) or loop ([while])
      lives in the [outcome] monad: [Ok v], [Throw] or [Timeout].  A [while]
      loop is given the number of iterations its own bound allows, and
      reports [Timeout] if that is not enough.
    - The string accumulator [svg] of [render] is kept as the sequence of the
      pieces appended to it; the returned string is their concatenation. *)

From Stdlib Require Import ZArith Lia String Ascii DecimalString DecimalZ
  DecimalPos.
From stdpp Require Import base tactics list numbers option.

Local Open Scope Z_scope.

(* ================================================================= *)
(** ** JavaScript values used by the program *)

Abbreviation jsstring := (list N).

(** A string literal of the source, as code units. *)
Fixpoint js (s : string) : jsstring :=
  match s with
  | EmptyString => []
  | String a r => N_of_ascii a :: js r
  end.

(** Tab, newline and the double quote, as one-unit strings. *)
Definition TAB : jsstring := [9%N].
Definition LF : jsstring := [10%N].
Definition DQ : jsstring := [34%N].

(** [s.length] *)
Definition strlen (s : jsstring) : Z := Z.of_nat (length s).

(** [a === b] on strings. *)
Definition str_eq (a b : jsstring) : bool := bool_decide (a = b).
Infix "===" := str_eq (at level 70, no associativity).

(** [s.charAt(i)]: the one-unit string at [i], the empty string out of range. *)
Definition charAt (s : jsstring) (i : Z) : jsstring :=
  if (0 <=? i) && (i <? strlen s) then take 1 (drop (Z.to_nat i) s) else [].

(** [s.substring(start)]: [start] is clamped to [0 .. s.length]. *)
Definition substring (s : jsstring) (start : Z) : jsstring :=
  drop (Z.to_nat start) s.

(** [s.split('\n')]: never empty, the empty string gives one empty line. *)
Fixpoint split_lines (s : jsstring) : list jsstring :=
  match s with
  | [] => [[]]
  | c :: r =>
      if N.eqb c 10 then [] :: split_lines r
      else match split_lines r with
           | l :: ls => (c :: l) :: ls
           | [] => [[c]]
           end
  end.

(** ECMAScript WhiteSpace and LineTerminator code units, as stripped by
    [String.prototype.trim]. *)
Definition isWhiteSpace (c : N) : bool :=
  ((9 <=? c) && (c <=? 13) || (c =? 32) || (c =? 160) || (c =? 5760)
   || (8192 <=? c) && (c <=? 8202) || (c =? 8232) || (c =? 8233)
   || (c =? 8239) || (c =? 8287) || (c =? 12288) || (c =? 65279))%N.

Fixpoint trimStart (s : jsstring) : jsstring :=
  match s with
  | c :: r => if isWhiteSpace c then trimStart r else s
  | [] => []
  end.

(** [s.trim()] *)
Definition trim (s : jsstring) : jsstring :=
  rev (trimStart (rev (trimStart s))).

(** Number to string, for the integers the program prints. *)
Definition numToString (z : Z) : jsstring :=
  js (NilZero.string_of_int (Z.to_int z)).

(** [arr.length] and [arr[i]] ([None] is [undefined]). *)
Definition arrlen {A} (arr : list A) : Z := Z.of_nat (length arr).

Definition arrget {A} (arr : list A) (i : Z) : option A :=
  if i <? 0 then None else arr !! Z.to_nat i.

(** An array that is written by index: a slot is a value or a hole.
    [arr[i] = v] replaces slot [i], and beyond the end JavaScript grows the
    array, leaving holes. *)
Definition slotget {A} (arr : list (option A)) (i : Z) : option A :=
  mjoin (arrget arr i).

Definition slotset {A} (arr : list (option A)) (i : Z) (v : A)
  : list (option A) :=
  if i <? 0 then arr
  else if i <? arrlen arr then <[Z.to_nat i := Some v]> arr
  else arr ++ replicate (Z.to_nat (i - arrlen arr)) None ++ [Some v].

(** [!v] for a slot holding a boolean: [undefined] is falsy. *)
Definition not_slot (v : option bool) : bool :=
  match v with Some b => negb b | None => true end.

(* ================================================================= *)
(** ** Outcomes and loops *)

Inductive outcome (A : Type) : Type :=
| Ok (a : A)
| Throw      (* an exception: a property of undefined was read (TypeError),
                or an array grown beyond its bound (RangeError) *)
| Timeout.   (* a while loop used up its iteration bound *)
Arguments Ok {A} a.
Arguments Throw {A}.
Arguments Timeout {A}.

#[global] Instance outcome_ret : MRet outcome := @Ok.
#[global] Instance outcome_bind : MBind outcome := fun A B f m =>
  match m with
  | Ok a => f a
  | Throw => Throw
  | Timeout => Timeout
  end.

(** Reading a property of a value that may be [undefined]. *)
Definition defined {A} (v : option A) : outcome A :=
  match v with Some a => Ok a | None => Throw end.

(** [for (let i = lo; i < hi; i++) body], the body not assigning [i]. *)
Definition for_range {S} (lo hi : Z) (body : Z -> S -> S) (s : S) : S :=
  foldl (fun s i => body i s) s (seqZ lo (hi - lo)).

Fixpoint foldM {A S} (body : A -> S -> outcome S) (l : list A) (s : S)
  : outcome S :=
  match l with
  | [] => Ok s
  | i :: l' => s' ← body i s; foldM body l' s'
  end.

Definition for_rangeM {S} (lo hi : Z) (body : Z -> S -> outcome S) (s : S)
  : outcome S :=
  foldM body (seqZ lo (hi - lo)) s.

(** The same loop with a [break] in its body. *)
Inductive ctl (S : Type) : Type := Next (s : S) | Break (s : S).
Arguments Next {S} s.
Arguments Break {S} s.

Fixpoint fold_break {A S} (body : A -> S -> ctl S) (l : list A) (s : S) : S :=
  match l with
  | [] => s
  | i :: l' =>
      match body i s with
      | Next s' => fold_break body l' s'
      | Break s' => s'
      end
  end.

Definition for_break {S} (lo hi : Z) (body : Z -> S -> ctl S) (s : S) : S :=
  fold_break body (seqZ lo (hi - lo)) s.

(** [while (cond) body], given an iteration bound; [Timeout] when the bound
    is reached with the condition still true. *)
Fixpoint while {S} (fuel : nat) (cond : S -> outcome bool)
    (body : S -> outcome S) (s : S) : outcome S :=
  b ← cond s;
  if b : bool then
    match fuel with
    | O => Timeout
    | Datatypes.S fuel' => s' ← body s; while fuel' cond body s'
    end
  else Ok s.

(* ================================================================= *)
(** ** The program *)

Definition escapeHTMLEntities (str : jsstring) : jsstring :=
  for_range 0 (strlen str) (fun i result =>
    let c := charAt str i in
    if c === js "&" then result ++ js "&amp;"
    else if c === js "<" then result ++ js "&lt;"
    else if c === js ">" then result ++ js "&gt;"
    else if c === DQ then result ++ js "&quot;"
    else result ++ c) [].

Definition removeLeadingSpace (str : jsstring) : outcome jsstring :=
  let lineArray := split_lines str in
  let len := arrlen lineArray in
  minimum ← for_rangeM 0 len (fun i minimum =>
    line ← defined (arrget lineArray i);
    if negb (trim line === []) then
      let spaceCount :=
        for_break 0 (strlen line) (fun j spaceCount =>
          let c := charAt line j in
          if (c === js " ") || (c === TAB) then Next (spaceCount + 1)
          else Break spaceCount) 0 in
      Ok (if spaceCount <? minimum then spaceCount else minimum)
    else Ok minimum) 999999;
  if (minimum =? 0) || (minimum =? 999999) then Ok str
  else
    for_rangeM 0 len (fun i result =>
      line ← defined (arrget lineArray i);
      Ok (result ++ substring line minimum ++ LF)) [].

(** Grid accessors. *)
Definition gridGet (lines : list jsstring) (x y : Z) : outcome jsstring :=
  if (y <? 0) || (y >=? arrlen lines) then Ok (js " ")
  else
    line ← defined (arrget lines y);
    if (x <? 0) || (x >=? strlen line) then Ok (js " ")
    else Ok (charAt line x).

Definition gridWidth (lines : list jsstring) : outcome Z :=
  for_rangeM 0 (arrlen lines) (fun i w =>
    line ← defined (arrget lines i);
    Ok (if strlen line >? w then strlen line else w)) 0.

Definition gridHeight (lines : list jsstring) : Z :=
  let h := arrlen lines in
  if (h >? 0) && bool_decide (arrget lines (h - 1) = Some []) then h - 1
  else h.

(** Character classification. *)
Definition isVertex (c : jsstring) : bool :=
  (c === js "+") || (c === js ".") || (c === js "'") || (c === js "`")
  || (c === js ",").
Definition isSolidHLine (c : jsstring) : bool :=
  (c === js "-") || (c === js "+").
Definition isSolidVLine (c : jsstring) : bool :=
  (c === js "|") || (c === js "+").
Definition isArrowHead (c : jsstring) : bool :=
  (c === js ">") || (c === js "<") || (c === js "^") || (c === js "v")
  || (c === js "V").
Definition isPoint (c : jsstring) : bool :=
  (c === js "o") || (c === js "*").

(** The pieces [render] appends to [svg], each with the numbers the source
    computes for it. *)
Inductive piece : Type :=
| SvgOpen (svgWidth svgHeight : Z)
| Line (x1 y1 x2 y2 : Z)
| Polygon (tipX tipY backX upY dnY angle cx cy : Z)
| CircleFilled (cx cy : Z)
| CircleHollow (cx cy : Z)
| TextOpen
| Text (px py : Z) (escaped : jsstring)
| TextClose
| SvgClose.

(** The text of a piece: the string expressions of the source. *)
Definition piece_text (p : piece) : jsstring :=
  match p with
  | SvgOpen svgWidth svgHeight =>
      js "<svg xmlns=" ++ DQ ++ js "http://www.w3.org/2000/svg" ++ DQ
      ++ js " version=" ++ DQ ++ js "1.1" ++ DQ
      ++ js " width=" ++ DQ ++ numToString svgWidth ++ DQ
      ++ js " height=" ++ DQ ++ numToString svgHeight ++ DQ
      ++ js " viewBox=" ++ DQ ++ js "0 0 " ++ numToString svgWidth
      ++ js " " ++ numToString svgHeight ++ DQ
      ++ js " class=" ++ DQ ++ js "diagram" ++ DQ
      ++ js " text-anchor=" ++ DQ ++ js "middle" ++ DQ
      ++ js " font-family=" ++ DQ ++ js "monospace" ++ DQ
      ++ js " font-size=" ++ DQ ++ js "13px" ++ DQ
      ++ js " stroke-linecap=" ++ DQ ++ js "round" ++ DQ ++ js ">" ++ LF
  | Line x1 y1 x2 y2 =>
      js "<line x1=" ++ DQ ++ numToString x1 ++ DQ
      ++ js " y1=" ++ DQ ++ numToString y1 ++ DQ
      ++ js " x2=" ++ DQ ++ numToString x2 ++ DQ
      ++ js " y2=" ++ DQ ++ numToString y2 ++ DQ
      ++ js " fill=" ++ DQ ++ js "none" ++ DQ
      ++ js " stroke=" ++ DQ ++ js "black" ++ DQ ++ js "/>" ++ LF
  | Polygon tipX tipY backX upY dnY angle cx cy =>
      js "<polygon points=" ++ DQ ++ numToString tipX ++ js ","
      ++ numToString tipY ++ js " " ++ numToString backX ++ js ","
      ++ numToString upY ++ js " " ++ numToString backX ++ js ","
      ++ numToString dnY ++ DQ
      ++ js " fill=" ++ DQ ++ js "black" ++ DQ
      ++ js " transform=" ++ DQ ++ js "rotate(" ++ numToString angle
      ++ js "," ++ numToString cx ++ js "," ++ numToString cy ++ js ")"
      ++ DQ ++ js "/>" ++ LF
  | CircleFilled cx cy =>
      js "<circle cx=" ++ DQ ++ numToString cx ++ DQ
      ++ js " cy=" ++ DQ ++ numToString cy ++ DQ
      ++ js " r=" ++ DQ ++ js "6" ++ DQ
      ++ js " fill=" ++ DQ ++ js "black" ++ DQ ++ js "/>" ++ LF
  | CircleHollow cx cy =>
      js "<circle cx=" ++ DQ ++ numToString cx ++ DQ
      ++ js " cy=" ++ DQ ++ numToString cy ++ DQ
      ++ js " r=" ++ DQ ++ js "6" ++ DQ
      ++ js " fill=" ++ DQ ++ js "white" ++ DQ
      ++ js " stroke=" ++ DQ ++ js "black" ++ DQ ++ js "/>" ++ LF
  | TextOpen => js "<g class=" ++ DQ ++ js "text" ++ DQ ++ js ">" ++ LF
  | Text px py escaped =>
      js "<text x=" ++ DQ ++ numToString px ++ DQ
      ++ js " y=" ++ DQ ++ numToString py ++ DQ ++ js ">"
      ++ escaped ++ js "</text>" ++ LF
  | TextClose => js "</g>" ++ LF
  | SvgClose => js "</svg>"
  end.

Definition flatten (svg : list piece) : jsstring :=
  concat (piece_text <$> svg).

Definition SCALE : Z := 8.
Definition ASPECT : Z := 2.

Abbreviation mask := (list (option bool)).

Section Passes.
Variable lines : list jsstring.
Variables width height : Z.

(** Draw horizontal lines. *)
Definition drawHorizontalLines (st : mask * list piece)
  : outcome (mask * list piece) :=
  for_rangeM 0 height (fun y '(used, svg) =>
    '(_, used, svg) ←
      while (Z.to_nat width)
        (fun '(x, _, _) => Ok (x <? width))
        (fun '(x, used, svg) =>
          c ← gridGet lines x y;
          if isSolidHLine c then
            let startX := x in
            '(x, used) ←
              while (Z.to_nat width)
                (fun '(x, _) =>
                  if x <? width then
                    c ← gridGet lines x y; Ok (isSolidHLine c)
                  else Ok false)
                (fun '(x, used) =>
                  Ok (x + 1, slotset used (y * width + x) true))
                (x, used);
            if x - startX >=? 2 then
              let x1 := (startX + 1) * SCALE in
              let x2 := x * SCALE in
              let cy := (y + 1) * SCALE * ASPECT in
              Ok (x, used, svg ++ [Line x1 cy x2 cy])
            else Ok (x, used, svg)
          else Ok (x + 1, used, svg))
        (0, used, svg);
    Ok (used, svg)) st.

(** Draw vertical lines. *)
Definition drawVerticalLines (st : mask * list piece)
  : outcome (mask * list piece) :=
  for_rangeM 0 width (fun x '(used, svg) =>
    '(_, used, svg) ←
      while (Z.to_nat height)
        (fun '(y, _, _) => Ok (y <? height))
        (fun '(y, used, svg) =>
          c ← gridGet lines x y;
          if isSolidVLine c then
            let startY := y in
            '(y, used) ←
              while (Z.to_nat height)
                (fun '(y, _) =>
                  if y <? height then
                    c ← gridGet lines x y; Ok (isSolidVLine c)
                  else Ok false)
                (fun '(y, used) =>
                  Ok (y + 1, slotset used (y * width + x) true))
                (y, used);
            if y - startY >=? 2 then
              let cx := (x + 1) * SCALE in
              let y1 := (startY + 1) * SCALE * ASPECT in
              let y2 := y * SCALE * ASPECT in
              Ok (y, used, svg ++ [Line cx y1 cx y2])
            else Ok (y, used, svg)
          else Ok (y + 1, used, svg))
        (0, used, svg);
    Ok (used, svg)) st.

(** Draw arrow heads. *)
Definition drawArrowHeads (st : mask * list piece)
  : outcome (mask * list piece) :=
  for_rangeM 0 height (fun y st =>
    for_rangeM 0 width (fun x '(used, svg) =>
      c ← gridGet lines x y;
      if isArrowHead c then
        let cx := (x + 1) * SCALE in
        let cy := (y + 1) * SCALE * ASPECT in
        let angle :=
          if c === js ">" then 0
          else if (c === js "v") || (c === js "V") then 90
          else if c === js "<" then 180
          else if c === js "^" then 270
          else 0 in
        let tipX := cx + 8 in
        let tipY := cy in
        let backX := cx - 4 in
        let upY := cy - 3 in
        let dnY := cy + 3 in
        Ok (slotset used (y * width + x) true,
            svg ++ [Polygon tipX tipY backX upY dnY angle cx cy])
      else Ok (used, svg)) st) st.

(** Draw points (circles). *)
Definition drawPoints (st : mask * list piece)
  : outcome (mask * list piece) :=
  for_rangeM 0 height (fun y st =>
    for_rangeM 0 width (fun x '(used, svg) =>
      c ← gridGet lines x y;
      if isPoint c then
        let cx := (x + 1) * SCALE in
        let cy := (y + 1) * SCALE * ASPECT in
        let svg :=
          if c === js "*" then svg ++ [CircleFilled cx cy]
          else svg ++ [CircleHollow cx cy] in
        Ok (slotset used (y * width + x) true, svg)
      else Ok (used, svg)) st) st.

(** Draw remaining text. *)
Definition drawText (used : mask) (svg : list piece)
  : outcome (list piece) :=
  for_rangeM 0 height (fun y svg =>
    for_rangeM 0 width (fun x svg =>
      if not_slot (slotget used (y * width + x)) then
        c ← gridGet lines x y;
        if negb (c === js " ") && negb (isVertex c) then
          let px := (x + 1) * SCALE in
          let py := 4 + (y + 1) * SCALE * ASPECT in
          Ok (svg ++ [Text px py (escapeHTMLEntities c)])
        else Ok svg
      else Ok svg) svg) svg.
End Passes.

(** [render], up to the final concatenation of the pieces. *)
Definition render_pieces (diagramString : jsstring) : outcome (list piece) :=
  processed ← removeLeadingSpace diagramString;
  let lines := split_lines processed in
  width ← gridWidth lines;
  let height := gridHeight lines in
  let svgWidth := (width + 1) * SCALE in
  let svgHeight := (height + 1) * SCALE * ASPECT in
  let svg := [SvgOpen svgWidth svgHeight] in
  let usedSize := height * width in
  let used := for_range 0 usedSize (fun _ used => used ++ [Some false]) [] in
  '(used, svg) ← drawHorizontalLines lines width height (used, svg);
  '(used, svg) ← drawVerticalLines lines width height (used, svg);
  '(used, svg) ← drawArrowHeads lines width height (used, svg);
  '(used, svg) ← drawPoints lines width height (used, svg);
  let svg := svg ++ [TextOpen] in
  svg ← drawText lines width height used svg;
  let svg := svg ++ [TextClose] in
  let svg := svg ++ [SvgClose] in
  Ok svg.

Definition render (diagramString : jsstring) : outcome jsstring :=
  svg ← render_pieces diagramString;
  Ok (flatten svg).

(** [arr.push(v)]: the language bounds the length of an array by 2^32 - 1,
    and the push that would exceed it raises a [RangeError]. *)
Definition push {A} (arr : list (option A)) (v : A)
  : outcome (list (option A)) :=
  if arrlen arr <? 2 ^ 32 - 1 then Ok (arr ++ [Some v]) else Throw.

(** The loop of [render] that fills [used], within that bound. *)
Definition allocate_used (usedSize : Z) : outcome mask :=
  for_rangeM 0 usedSize (fun _ used => push used false) [].

(* ================================================================= *)
(** ** The runtime wrapper

    [writeString] and [readString] of the wrapper pass strings through the
    linear memory of the WebAssembly instance: a string is stored as its
    length, a 32-bit little-endian integer, followed by one byte per code
    unit.  The module variable [memory] is [null] until [init] has run;
    afterwards [memory.buffer] is a sequence of bytes.  A view ([DataView],
    [Uint8Array]) is a window of the buffer: its offset and its length. *)

Module Wrapper.

Inductive result (A : Type) : Type :=
| Returns (a : A)
| RangeError    (* an offset or a length outside the buffer *)
| TypeError.    (* [memory] is [null] *)
Arguments Returns {A} a.
Arguments RangeError {A}.
Arguments TypeError {A}.

Abbreviation buffer := (list N).

Record view : Type := View { byteOffset : Z; byteLength : Z }.

(** A computation on [memory]: [None] is [null], [Some buf] a memory whose
    buffer holds the bytes [buf]. *)
Definition io (A : Type) : Type :=
  option buffer -> result A * option buffer.

#[global] Instance io_ret : MRet io := fun A a memory => (Returns a, memory).
#[global] Instance io_bind : MBind io := fun A B f m memory =>
  match m memory with
  | (Returns a, memory') => f a memory'
  | (RangeError, memory') => (RangeError, memory')
  | (TypeError, memory') => (TypeError, memory')
  end.

(** An operation on [memory.buffer]. *)
Definition on_buffer {A} (f : buffer -> result A * buffer) : io A :=
  fun memory =>
    match memory with
    | Some buf => let '(r, buf') := f buf in (r, Some buf')
    | None => (TypeError, None)
    end.

Fixpoint io_fold {A S} (body : A -> S -> io S) (l : list A) (s : S)
  : io S :=
  match l with
  | [] => mret s
  | i :: l' => s' ← body i s; io_fold body l' s'
  end.

(** [for (let i = lo; i < hi; i++) body] *)
Definition for_io {S} (lo hi : Z) (body : Z -> S -> io S) (s : S) : io S :=
  io_fold body (seqZ lo (hi - lo)) s.

(** The four bytes of an unsigned 32-bit integer, least significant first,
    and the integer four bytes stand for. *)
Definition le32 (v : Z) : list N :=
  (fun k => Z.to_N (((v `mod` 2 ^ 32) / 256 ^ k) `mod` 256)) <$> [0; 1; 2; 3].

Definition of_le32 (bytes : list N) : Z :=
  foldr (fun b v => Z.of_N b + 256 * v) 0 bytes.

(** [new DataView(memory.buffer)] *)
Definition newDataView : io view :=
  on_buffer (fun buf => (Returns (View 0 (arrlen buf)), buf)).

(** [new Uint8Array(memory.buffer, byteOffset, length)] *)
Definition newUint8Array (byteOffset length : Z) : io view :=
  on_buffer (fun buf =>
    if (byteOffset <? 0) || (length <? 0)
       || (byteOffset + length >? arrlen buf)
    then (RangeError, buf)
    else (Returns (View byteOffset length), buf)).

(** [dv.setUint32(byteOffset, value, true)] *)
Definition setUint32 (dv : view) (byteOffset value : Z) : io unit :=
  on_buffer (fun buf =>
    if (byteOffset <? 0) || (byteOffset + 4 >? dv.(Wrapper.byteLength))
    then (RangeError, buf)
    else (Returns tt,
          list_inserts (Z.to_nat (dv.(Wrapper.byteOffset) + byteOffset))
            (le32 value) buf)).

(** [dv.getUint32(byteOffset, true)] *)
Definition getUint32 (dv : view) (byteOffset : Z) : io Z :=
  on_buffer (fun buf =>
    if (byteOffset <? 0) || (byteOffset + 4 >? dv.(Wrapper.byteLength))
    then (RangeError, buf)
    else (Returns
            (of_le32
               (take 4 (drop (Z.to_nat (dv.(Wrapper.byteOffset) + byteOffset))
                          buf))),
          buf)).

(** [arr[i] = v] on a [Uint8Array]: the value is stored modulo 256
    ([NaN] as 0), and nothing is stored outside the view. *)
Definition setElement (arr : view) (i : Z) (v : option N) : io unit :=
  on_buffer (fun buf =>
    (Returns tt,
     if (0 <=? i) && (i <? arr.(Wrapper.byteLength))
     then <[Z.to_nat (arr.(Wrapper.byteOffset) + i) :=
              from_option (fun c => c `mod` 256)%N 0%N v]> buf
     else buf)).

(** [arr[i]] on a [Uint8Array]: [undefined] outside the view. *)
Definition getElement (arr : view) (i : Z) : io (option N) :=
  on_buffer (fun buf =>
    (Returns
       (if (0 <=? i) && (i <? arr.(Wrapper.byteLength))
        then buf !! Z.to_nat (arr.(Wrapper.byteOffset) + i)
        else None),
     buf)).

(** [str.charCodeAt(i)]: [NaN] ([None]) out of range. *)
Definition charCodeAt (str : jsstring) (i : Z) : option N := arrget str i.

(** [String.fromCharCode(v)]: one code unit, the value modulo 65536
    ([undefined] as 0). *)
Definition fromCharCode (v : option N) : jsstring :=
  [from_option (fun b => b `mod` 65536)%N 0%N v].

Definition writeString (str : jsstring) (ptr : Z) : io Z :=
  dv ← newDataView;
  setUint32 dv ptr (strlen str);;
  arr ← newUint8Array (ptr + 4) (strlen str);
  for_io 0 (strlen str) (fun i _ => setElement arr i (charCodeAt str i)) tt;;
  mret ptr.

Definition readString (ptr : Z) : io jsstring :=
  dv ← newDataView;
  length ← getUint32 dv ptr;
  arr ← newUint8Array (ptr + 4) length;
  for_io 0 length (fun i result =>
    b ← getElement arr i; mret (result ++ fromCharCode b)) [].

End Wrapper.

(* ================================================================= *)
(** ** Vocabulary of the specification *)

(** Escaping, as the specification words it: each code unit is replaced by
    its entity when it is one of the four, and kept otherwise. *)
Definition escape_unit (c : N) : jsstring :=
  if (c =? 38)%N then js "&amp;"
  else if (c =? 60)%N then js "&lt;"
  else if (c =? 62)%N then js "&gt;"
  else if (c =? 34)%N then js "&quot;"
  else [c].

Definition escape_spec (s : jsstring) : jsstring :=
  concat (escape_unit <$> s).

(** Dedenting, as the specification words it.  A line is blank when it
    holds white space only; the indent of a line is its number of leading
    spaces and tabs; [min_indent] is the least indent of a non-blank line,
    [None] when every line is blank. *)
Definition isBlank (line : jsstring) : bool := forallb isWhiteSpace line.

Definition isIndentUnit (c : N) : bool := ((c =? 32) || (c =? 9))%N.

Fixpoint indent (line : jsstring) : Z :=
  match line with
  | c :: r => if isIndentUnit c then 1 + indent r else 0
  | [] => 0
  end.

Fixpoint min_indent (lines : list jsstring) : option Z :=
  match lines with
  | [] => None
  | line :: rest =>
      if isBlank line then min_indent rest
      else match min_indent rest with
           | Some m => Some (Z.min (indent line) m)
           | None => Some (indent line)
           end
  end.

Definition strip_lines (m : Z) (lines : list jsstring) : jsstring :=
  concat ((fun line => drop (Z.to_nat m) line ++ LF) <$> lines).

Definition dedent_spec (str : jsstring) : jsstring :=
  match min_indent (split_lines str) with
  | None => str
  | Some m => if m =? 0 then str else strip_lines m (split_lines str)
  end.

(** What the source computes instead: its running minimum starts from the
    constant 999999, which also stands for "no non-blank line". *)
Definition minimum_of (lines : list jsstring) : Z :=
  match min_indent lines with
  | Some m => Z.min m 999999
  | None => 999999
  end.

Definition dedent (str : jsstring) : jsstring :=
  let m := minimum_of (split_lines str) in
  if (m =? 0) || (m =? 999999) then str
  else strip_lines m (split_lines str).

(** A line of a split string holds no newline. *)
Definition noLF (line : jsstring) : Prop := Forall (fun c => c <> 10%N) line.

(** A one-line diagram indented by [n] spaces, and the one indented by as
    many spaces as the constant of [removeLeadingSpace]. *)
Definition indented (n : nat) : jsstring := replicate n 32%N ++ js "a".

Definition sentinel_input : jsstring := indented (Z.to_nat 999999).

(** The grid: the character at column [x] of row [y], a blank outside;
    its width is the length of the longest line. *)
Definition cellAt (lines : list jsstring) (x y : Z) : jsstring :=
  match arrget lines y with
  | Some line => if (x <? 0) || (x >=? strlen line) then js " " else charAt line x
  | None => js " "
  end.

Definition max_width (lines : list jsstring) : Z :=
  foldr (fun line w => Z.max (strlen line) w) 0 lines.

(* ================================================================= *)
(** ** Vocabulary of the proofs *)

(** The two line passes are one scan, along rows or along columns: [count]
    scan lines of [extent] cells each, [get k i] the cell [i] of scan line
    [k], [index k i] its slot in the mask. *)
Definition scanLines (get : Z -> Z -> outcome jsstring)
    (isSolid : jsstring -> bool) (index : Z -> Z -> Z)
    (mk : Z -> Z -> Z -> piece) (count extent : Z)
    (st : mask * list piece) : outcome (mask * list piece) :=
  for_rangeM 0 count (fun k '(used, svg) =>
    '(_, used, svg) ←
      while (Z.to_nat extent)
        (fun '(i, _, _) => Ok (i <? extent))
        (fun '(i, used, svg) =>
          c ← get k i;
          if isSolid c then
            let start := i in
            '(i, used) ←
              while (Z.to_nat extent)
                (fun '(i, _) =>
                  if i <? extent then c ← get k i; Ok (isSolid c)
                  else Ok false)
                (fun '(i, used) => Ok (i + 1, slotset used (index k i) true))
                (i, used);
            if i - start >=? 2 then Ok (i, used, svg ++ [mk start i k])
            else Ok (i, used, svg)
          else Ok (i + 1, used, svg))
        (0, used, svg);
    Ok (used, svg)) st.

(** The arrow head and point passes are one scan over the cells. *)
Definition scanCells (get : Z -> Z -> outcome jsstring)
    (isMark : jsstring -> bool) (index : Z -> Z -> Z)
    (emit : list piece -> Z -> Z -> jsstring -> list piece)
    (count extent : Z) (st : mask * list piece)
  : outcome (mask * list piece) :=
  for_rangeM 0 count (fun k st =>
    for_rangeM 0 extent (fun i '(used, svg) =>
      c ← get k i;
      if isMark c then Ok (slotset used (index k i) true, emit svg k i c)
      else Ok (used, svg)) st) st.

(** The text pass, as a scan over the cells. *)
Definition scanText (get : Z -> Z -> outcome jsstring)
    (index : Z -> Z -> Z) (keep : jsstring -> bool)
    (mk : Z -> Z -> jsstring -> piece) (count extent : Z)
    (used : mask) (svg : list piece) : outcome (list piece) :=
  for_rangeM 0 count (fun k svg =>
    for_rangeM 0 extent (fun i svg =>
      if not_slot (slotget used (index k i)) then
        c ← get k i;
        if keep c then Ok (svg ++ [mk k i c]) else Ok svg
      else Ok svg) svg) svg.

(** [before i k i' k']: cell [i'] of scan line [k'] is visited before cell
    [i] of scan line [k]. *)
Definition before (i k i' k' : Z) : bool :=
  (k' <? k) || ((k' =? k) && (i' <? i)).

(** A run of a line pass: cells [a .. b-1] of scan line [k]. *)
Abbreviation run := (Z * Z * Z)%type.

Definition run_lt (r1 r2 : run) : Prop :=
  let '(a1, b1, k1) := r1 in
  let '(a2, b2, k2) := r2 in
  k1 < k2 \/ (k1 = k2 /\ b1 <= a2).

Definition run_before (i k : Z) (r : run) : Prop :=
  let '(a1, b1, k1) := r in
  k1 < k \/ (k1 = k /\ b1 <= i).

Definition run_piece (mk : Z -> Z -> Z -> piece) (r : run) : piece :=
  let '(a, b, k) := r in mk a b k.

Section ScanVocabulary.
Variable cell : Z -> Z -> jsstring.
Variable index : Z -> Z -> Z.
Variables count extent : Z.

Definition inRange (k i : Z) : Prop := 0 <= k < count /\ 0 <= i < extent.

(** The mask holds [P k i] at the slot of every cell. *)
Definition Marked (P : Z -> Z -> bool) (used : mask) : Prop :=
  arrlen used = count * extent
  /\ forall k i, inRange k i -> slotget used (index k i) = Some (P k i).

Definition markUpto (f : jsstring -> bool) (i k : Z) (P : Z -> Z -> bool)
  : Z -> Z -> bool :=
  fun k' i' => P k' i' || (f (cell k' i') && before i k i' k').

Definition run_ok (isSolid : jsstring -> bool) (r : run) : Prop :=
  let '(a, b, k) := r in
  0 <= a /\ a + 2 <= b <= extent /\ 0 <= k < count
  /\ forall i, a <= i < b -> isSolid (cell k i) = true.

(** The runs emitted so far when the scan stands at cell [i] of line [k]. *)
Definition Runs (isSolid : jsstring -> bool) (i k : Z) (runs : list run)
  : Prop :=
  Forall (run_ok isSolid) runs
  /\ Forall (run_before i k) runs
  /\ ForallOrdPairs run_lt runs.

(** The pieces a cell scan has appended when it stands at cell [i] of
    line [k]. *)
Definition cellsUpto (f : Z -> Z -> list piece) (i k : Z) : list piece :=
  (k' ← seqZ 0 k; i' ← seqZ 0 extent; f k' i') ++ (i' ← seqZ 0 i; f k i').
End ScanVocabulary.

(** The pieces of [render] in grid coordinates: the line of a horizontal
    run (columns [a .. b-1] of row [y]) and of a vertical run (rows
    [a .. b-1] of column [x]), and the arrow head, point and text of the
    cell at row [y], column [x]. *)
Definition hline : run -> piece :=
  run_piece (fun a b y =>
    Line ((a + 1) * SCALE) ((y + 1) * SCALE * ASPECT)
         (b * SCALE) ((y + 1) * SCALE * ASPECT)).

Definition vline : run -> piece :=
  run_piece (fun a b x =>
    Line ((x + 1) * SCALE) ((a + 1) * SCALE * ASPECT)
         ((x + 1) * SCALE) (b * SCALE * ASPECT)).

Definition angleOf (c : jsstring) : Z :=
  if c === js ">" then 0
  else if (c === js "v") || (c === js "V") then 90
  else if c === js "<" then 180
  else if c === js "^" then 270
  else 0.

Definition arrowAt (y x : Z) (c : jsstring) : piece :=
  Polygon ((x + 1) * SCALE + 8) ((y + 1) * SCALE * ASPECT)
          ((x + 1) * SCALE - 4) ((y + 1) * SCALE * ASPECT - 3)
          ((y + 1) * SCALE * ASPECT + 3) (angleOf c)
          ((x + 1) * SCALE) ((y + 1) * SCALE * ASPECT).

Definition pointAt (y x : Z) (c : jsstring) : piece :=
  if c === js "*" then CircleFilled ((x + 1) * SCALE) ((y + 1) * SCALE * ASPECT)
  else CircleHollow ((x + 1) * SCALE) ((y + 1) * SCALE * ASPECT).

Definition textAt (y x : Z) (c : jsstring) : piece :=
  Text ((x + 1) * SCALE) (4 + (y + 1) * SCALE * ASPECT) (escapeHTMLEntities c).

(** A cell is consumed by a shape when it holds a line character, an arrow
    head or a point; it is left as text when it is none of these, not a
    blank and not a vertex. *)
Definition isShape (c : jsstring) : bool :=
  isSolidHLine c || isSolidVLine c || isArrowHead c || isPoint c.

Definition isText (c : jsstring) : bool :=
  negb (isShape c) && (negb (c === js " ") && negb (isVertex c)).

Definition arrows (lines : list jsstring) (width height : Z) : list piece :=
  cellsUpto width (fun y x =>
    if isArrowHead (cellAt lines x y) then [arrowAt y x (cellAt lines x y)]
    else []) 0 height.

Definition points (lines : list jsstring) (width height : Z) : list piece :=
  cellsUpto width (fun y x =>
    if isPoint (cellAt lines x y) then [pointAt y x (cellAt lines x y)]
    else []) 0 height.

Definition texts (lines : list jsstring) (width height : Z) : list piece :=
  cellsUpto width (fun y x =>
    if isText (cellAt lines x y) then [textAt y x (cellAt lines x y)]
    else []) 0 height.

(** The grid of an input: its lines after dedenting, and their extent. *)
Definition gridLines (s : jsstring) : list jsstring := split_lines (dedent s).
Definition gridW (s : jsstring) : Z := max_width (gridLines s).
Definition gridH (s : jsstring) : Z := gridHeight (gridLines s).

(** Horizontal and vertical runs of the grid of [s]. *)
Definition HRuns (s : jsstring) (runs : list run) : Prop :=
  Runs (fun y x => cellAt (gridLines s) x y) (gridH s) (gridW s)
       isSolidHLine 0 (gridH s) runs.

Definition VRuns (s : jsstring) (runs : list run) : Prop :=
  Runs (fun x y => cellAt (gridLines s) x y) (gridW s) (gridH s)
       isSolidVLine 0 (gridW s) runs.

(** The pieces of the output for given runs. *)
Definition assemble (s : jsstring) (hruns vruns : list run) : list piece :=
  [SvgOpen ((gridW s + 1) * SCALE) ((gridH s + 1) * SCALE * ASPECT)]
  ++ (hline <$> hruns) ++ (vline <$> vruns)
  ++ arrows (gridLines s) (gridW s) (gridH s)
  ++ points (gridLines s) (gridW s) (gridH s)
  ++ [TextOpen]
  ++ texts (gridLines s) (gridW s) (gridH s)
  ++ [TextClose; SvgClose].

(** The pixel centre of the cell at column [x] of row [y], and the centre a
    polygon is rotated about or a circle is drawn at. *)
Definition center (x y : Z) : Z * Z :=
  ((x + 1) * SCALE, (y + 1) * SCALE * ASPECT).



(** The expected output for the empty diagram and for the diagram of a
    filled point, an arrow and a hollow point. *)
Definition empty_output : jsstring :=
    js "<svg xmlns=" ++ DQ ++ js "http://www.w3.org/2000/svg" ++ DQ ++
    js " version=" ++ DQ ++ js "1.1" ++ DQ ++ js " width=" ++ DQ ++
    js "8" ++ DQ ++ js " height=" ++ DQ ++ js "16" ++ DQ ++
    js " viewBox=" ++ DQ ++ js "0 0 8 16" ++ DQ ++ js " class=" ++ DQ ++
    js "diagram" ++ DQ ++ js " text-anchor=" ++ DQ ++ js "middle" ++ DQ ++
    js " font-family=" ++ DQ ++ js "monospace" ++ DQ ++ js " font-size=" ++
    DQ ++ js "13px" ++ DQ ++ js " stroke-linecap=" ++ DQ ++ js "round" ++
    DQ ++ js ">" ++ LF ++ js "<g class=" ++ DQ ++ js "text" ++ DQ ++
    js ">" ++ LF ++ js "</g>" ++ LF ++ js "</svg>".

Definition arrow_output : jsstring :=
    js "<svg xmlns=" ++ DQ ++ js "http://www.w3.org/2000/svg" ++ DQ ++
    js " version=" ++ DQ ++ js "1.1" ++ DQ ++ js " width=" ++ DQ ++
    js "56" ++ DQ ++ js " height=" ++ DQ ++ js "32" ++ DQ ++
    js " viewBox=" ++ DQ ++ js "0 0 56 32" ++ DQ ++ js " class=" ++ DQ ++
    js "diagram" ++ DQ ++ js " text-anchor=" ++ DQ ++ js "middle" ++ DQ ++
    js " font-family=" ++ DQ ++ js "monospace" ++ DQ ++ js " font-size=" ++
    DQ ++ js "13px" ++ DQ ++ js " stroke-linecap=" ++ DQ ++ js "round" ++
    DQ ++ js ">" ++ LF ++ js "<polygon points=" ++ DQ ++
    js "40,16 28,13 28,19" ++ DQ ++ js " fill=" ++ DQ ++ js "black" ++ DQ ++
    js " transform=" ++ DQ ++ js "rotate(0,32,16)" ++ DQ ++ js "/>" ++ LF ++
    js "<circle cx=" ++ DQ ++ js "8" ++ DQ ++ js " cy=" ++ DQ ++ js "16" ++
    DQ ++ js " r=" ++ DQ ++ js "6" ++ DQ ++ js " fill=" ++ DQ ++
    js "black" ++ DQ ++ js "/>" ++ LF ++ js "<circle cx=" ++ DQ ++
    js "48" ++ DQ ++ js " cy=" ++ DQ ++ js "16" ++ DQ ++ js " r=" ++ DQ ++
    js "6" ++ DQ ++ js " fill=" ++ DQ ++ js "white" ++ DQ ++
    js " stroke=" ++ DQ ++ js "black" ++ DQ ++ js "/>" ++ LF ++
    js "<g class=" ++ DQ ++ js "text" ++ DQ ++ js ">" ++ LF ++ js "</g>" ++
    LF ++ js "</svg>".

(** A piece covers the cells it is drawn for: a line the cells whose centre
    lies on it, a polygon or circle the cell it is centred at, a text the
    cell whose glyph it is. *)
Definition covers (p : piece) (x y : Z) : bool :=
  match p with
  | Line x1 y1 x2 y2 =>
      (x1 <=? (center x y).1) && ((center x y).1 <=? x2)
      && (y1 <=? (center x y).2) && ((center x y).2 <=? y2)
  | Polygon _ _ _ _ _ _ cx cy =>
      (cx =? (center x y).1) && (cy =? (center x y).2)
  | CircleFilled cx cy | CircleHollow cx cy =>
      (cx =? (center x y).1) && (cy =? (center x y).2)
  | Text px py _ => (px =? (center x y).1) && (py =? 4 + (center x y).2)
  | _ => false
  end.

Definition isHorizontal (p : piece) : bool :=
  match p with Line x1 y1 x2 y2 => (y1 =? y2) && (x1 <? x2) | _ => false end.

Definition isVertical (p : piece) : bool :=
  match p with Line x1 y1 x2 y2 => (x1 =? x2) && (y1 <? y2) | _ => false end.

(** Two pieces that cover a common cell only as a horizontal line crossing
    a vertical one at a [+]. *)
Definition only_crossing (lines : list jsstring) (p q : piece) : Prop :=
  forall x y, covers p x y = true -> covers q x y = true ->
    isHorizontal p = true /\ isVertical q = true
    /\ cellAt lines x y = js "+".

(** A corner: a horizontal and a vertical run sharing their [+]. *)
Definition corner_input : jsstring := js "+-" ++ LF ++ js "|".

(* ================================================================= *)
(** ** Well-formed XML

    The part of XML 1.0 that SVG documents of this shape use: elements with
    attributes, character data and references to the predefined entities.
    [xmlChar] is production [2] (Char) on code units, a surrogate never
    being a character on its own.  Character data is kept free of [>] as
    well as of [<] and [&], which rules out the sequence the production
    (CharData) forbids. *)

Definition xmlChar (c : N) : bool :=
  ((c =? 9) || (c =? 10) || (c =? 13) || (32 <=? c) && (c <=? 55295)
   || (57344 <=? c) && (c <=? 65533))%N.

Definition nameStartChar (c : N) : bool :=
  ((65 <=? c) && (c <=? 90) || (97 <=? c) && (c <=? 122) || (c =? 58)
   || (c =? 95))%N.

Definition nameChar (c : N) : bool :=
  (nameStartChar c || (48 <=? c) && (c <=? 57) || (c =? 45) || (c =? 46))%N.

Definition isName (s : jsstring) : bool :=
  match s with
  | c :: r => nameStartChar c && forallb nameChar r
  | [] => false
  end.

Definition attValueChar (c : N) : bool :=
  (xmlChar c && negb (c =? 60) && negb (c =? 38) && negb (c =? 34))%N.

Definition charDataChar (c : N) : bool :=
  (xmlChar c && negb (c =? 60) && negb (c =? 38) && negb (c =? 62))%N.

Definition isEntity (name : jsstring) : bool :=
  (name === js "amp") || (name === js "lt") || (name === js "gt")
  || (name === js "quot") || (name === js "apos").

Abbreviation attributes := (list (jsstring * jsstring)).

#[local] Set Warnings "-register-all".
Inductive xml : Type :=
| XText (s : jsstring)
| XRef (name : jsstring)
| XEmpty (name : jsstring) (attrs : attributes)
| XElem (name : jsstring) (attrs : attributes) (children : list xml).

Definition attrs_text (attrs : attributes) : jsstring :=
  concat ((fun a : jsstring * jsstring =>
             js " " ++ a.1 ++ js "=" ++ DQ ++ a.2 ++ DQ) <$> attrs).

Fixpoint xml_text (t : xml) : jsstring :=
  match t with
  | XText s => s
  | XRef name => js "&" ++ name ++ js ";"
  | XEmpty name attrs => js "<" ++ name ++ attrs_text attrs ++ js "/>"
  | XElem name attrs children =>
      js "<" ++ name ++ attrs_text attrs ++ js ">"
      ++ (fix all (ts : list xml) : jsstring :=
            match ts with
            | [] => []
            | t :: ts => xml_text t ++ all ts
            end) children
      ++ js "</" ++ name ++ js ">"
  end.

Definition xmls_text (ts : list xml) : jsstring := concat (xml_text <$> ts).

Fixpoint distinct (names : list jsstring) : bool :=
  match names with
  | [] => true
  | n :: r => negb (existsb (str_eq n) r) && distinct r
  end.

Definition attrs_wf (attrs : attributes) : bool :=
  forallb (fun a : jsstring * jsstring =>
             isName a.1 && forallb attValueChar a.2) attrs
  && distinct attrs.*1.

Fixpoint xml_wf (t : xml) : bool :=
  match t with
  | XText s => forallb charDataChar s
  | XRef name => isEntity name
  | XEmpty name attrs => isName name && attrs_wf attrs
  | XElem name attrs children =>
      isName name && attrs_wf attrs
      && (fix all (ts : list xml) : bool :=
            match ts with
            | [] => true
            | t :: ts => xml_wf t && all ts
            end) children
  end.

Definition xmls_wf (ts : list xml) : bool := forallb xml_wf ts.

(** A syntactically valid SVG document: the text of a well-formed [svg]
    element in the SVG namespace. *)
Definition valid_svg (out : jsstring) : Prop :=
  exists attrs children,
    out = xml_text (XElem (js "svg") attrs children)
    /\ xml_wf (XElem (js "svg") attrs children) = true
    /\ (js "xmlns", js "http://www.w3.org/2000/svg") ∈ attrs.

(** Well-formed content: the text of a sequence of well-formed nodes. *)
Definition xml_content (t : jsstring) : Prop :=
  exists ts, t = xmls_text ts /\ xmls_wf ts = true.

(** The output as a document: the element of each piece, and the
    attributes of the root. *)
Definition num_attr (name : string) (z : Z) : jsstring * jsstring :=
  (js name, numToString z).

Definition lit_attr (name value : string) : jsstring * jsstring :=
  (js name, js value).

Definition line_xml (x1 y1 x2 y2 : Z) : xml :=
  XEmpty (js "line")
    [num_attr "x1" x1; num_attr "y1" y1; num_attr "x2" x2; num_attr "y2" y2;
     lit_attr "fill" "none"; lit_attr "stroke" "black"].

Definition polygon_xml (tipX tipY backX upY dnY angle cx cy : Z) : xml :=
  XEmpty (js "polygon")
    [(js "points",
      numToString tipX ++ js "," ++ numToString tipY ++ js " "
      ++ numToString backX ++ js "," ++ numToString upY ++ js " "
      ++ numToString backX ++ js "," ++ numToString dnY);
     lit_attr "fill" "black";
     (js "transform",
      js "rotate(" ++ numToString angle ++ js "," ++ numToString cx
      ++ js "," ++ numToString cy ++ js ")")].

Definition circle_xml (cx cy : Z) (filled : bool) : xml :=
  XEmpty (js "circle")
    ([num_attr "cx" cx; num_attr "cy" cy; lit_attr "r" "6"]
     ++ if filled then [lit_attr "fill" "black"]
        else [lit_attr "fill" "white"; lit_attr "stroke" "black"]).

Definition unit_xml (c : N) : xml :=
  if (c =? 38)%N then XRef (js "amp")
  else if (c =? 60)%N then XRef (js "lt")
  else if (c =? 62)%N then XRef (js "gt")
  else if (c =? 34)%N then XRef (js "quot")
  else XText [c].

Definition text_xml (px py : Z) (c : N) : xml :=
  XElem (js "text") [num_attr "x" px; num_attr "y" py] [unit_xml c].

Definition svg_attrs (svgWidth svgHeight : Z) : attributes :=
  [lit_attr "xmlns" "http://www.w3.org/2000/svg"; lit_attr "version" "1.1";
   num_attr "width" svgWidth; num_attr "height" svgHeight;
   (js "viewBox",
    js "0 0 " ++ numToString svgWidth ++ js " " ++ numToString svgHeight);
   lit_attr "class" "diagram"; lit_attr "text-anchor" "middle";
   lit_attr "font-family" "monospace"; lit_attr "font-size" "13px";
   lit_attr "stroke-linecap" "round"].

(** The characters of a printed number: digits and the sign. *)
Definition numChar (c : N) : bool :=
  ((48 <=? c) && (c <=? 57) || (c =? 45))%N.

Definition isShapePiece (p : piece) : bool :=
  match p with
  | Line _ _ _ _ | Polygon _ _ _ _ _ _ _ _ | CircleFilled _ _
  | CircleHollow _ _ => true
  | _ => false
  end.

(** A diagram holding the control character U+0001. *)
Definition control_input : jsstring := [1%N].

(** A diagram of [n] columns and [n] rows: a line of [n] dashes, then [n]
    newlines. *)
Definition wide (n : nat) : jsstring := replicate n 45%N ++ replicate n 10%N.

(** [render] after the dedent step, from the lines of the diagram. *)
Definition render_lines (lines : list jsstring) : outcome (list piece) :=
  width ← gridWidth lines;
  let height := gridHeight lines in
  let svgWidth := (width + 1) * SCALE in
  let svgHeight := (height + 1) * SCALE * ASPECT in
  let svg := [SvgOpen svgWidth svgHeight] in
  let usedSize := height * width in
  let used := for_range 0 usedSize (fun _ used => used ++ [Some false]) [] in
  '(used, svg) ← drawHorizontalLines lines width height (used, svg);
  '(used, svg) ← drawVerticalLines lines width height (used, svg);
  '(used, svg) ← drawArrowHeads lines width height (used, svg);
  '(used, svg) ← drawPoints lines width height (used, svg);
  let svg := svg ++ [TextOpen] in
  svg ← drawText lines width height used svg;
  let svg := svg ++ [TextClose] in
  let svg := svg ++ [SvgClose] in
  Ok svg.

(* ================================================================= *)
(** ** Vocabulary of further properties *)

(** A code unit the escaping keeps, and a string of such. *)
Definition isPlain (c : N) : bool :=
  (negb (c =? 38) && negb (c =? 60) && negb (c =? 62) && negb (c =? 34))%N.

Definition plain (s : jsstring) : bool := forallb isPlain s.

(** A diagram moved to the right: [k] spaces in front of every line. *)
Definition shift (k : nat) (s : jsstring) : jsstring :=
  replicate k 32%N
  ++ (c ← s; if (c =? 10)%N then 10%N :: replicate k 32%N else [c]).

(** The number of newlines of a string. *)
Definition newlines (s : jsstring) : Z :=
  Z.of_nat (length (filter (fun c => c = 10%N) s)).

Section RunVocabulary.
Variable cell : Z -> Z -> jsstring.
Variables count extent : Z.

(** A maximal run of a scan line, two cells long or more: [isSolid] holds
    on the cells [a .. b-1] of scan line [k], and on neither neighbour
    inside the scan line. *)
Definition maximal (isSolid : jsstring -> bool) (r : run) : Prop :=
  let '(a, b, k) := r in
  0 <= k < count /\ 0 <= a /\ a + 2 <= b <= extent
  /\ (forall i, a <= i < b -> isSolid (cell k i) = true)
  /\ (a = 0 \/ isSolid (cell k (a - 1)) = false)
  /\ (b = extent \/ isSolid (cell k b) = false).

(** The scan stands between two runs: not inside one. *)
Definition boundary (isSolid : jsstring -> bool) (i k : Z) : Prop :=
  i = 0 \/ i = extent \/ isSolid (cell k (i - 1)) = false
  \/ isSolid (cell k i) = false.

(** The runs emitted when the scan stands at cell [i] of line [k]: the
    maximal runs that end before. *)
Definition Emitted (isSolid : jsstring -> bool) (i k : Z) (runs : list run)
  : Prop :=
  forall r, r ∈ runs <-> maximal isSolid r /\ run_before i k r.
End RunVocabulary.

(** The maximal horizontal and vertical runs of the grid of [s]. *)
Definition HMax (s : jsstring) (r : run) : Prop :=
  maximal (fun y x => cellAt (gridLines s) x y) (gridH s) (gridW s)
    isSolidHLine r.

Definition VMax (s : jsstring) (r : run) : Prop :=
  maximal (fun x y => cellAt (gridLines s) x y) (gridW s) (gridH s)
    isSolidVLine r.

(** A horizontal run of the grid: two cells or more of [-] and [+] in row
    [y], from column [a] to column [b - 1], with no such cell next to it on
    either side; a vertical run likewise, of [|] and [+] in column [x]. *)
Definition hrun (lines : list jsstring) (a b y : Z) : Prop :=
  a + 2 <= b
  /\ (forall x, a <= x < b -> isSolidHLine (cellAt lines x y) = true)
  /\ isSolidHLine (cellAt lines (a - 1) y) = false
  /\ isSolidHLine (cellAt lines b y) = false.

Definition vrun (lines : list jsstring) (a b x : Z) : Prop :=
  a + 2 <= b
  /\ (forall y, a <= y < b -> isSolidVLine (cellAt lines x y) = true)
  /\ isSolidVLine (cellAt lines x (a - 1)) = false
  /\ isSolidVLine (cellAt lines x b) = false.

(** The kinds of elements. *)
Definition isPolygon (p : piece) : bool :=
  match p with Polygon _ _ _ _ _ _ _ _ => true | _ => false end.

Definition isCircle (p : piece) : bool :=
  match p with CircleFilled _ _ | CircleHollow _ _ => true | _ => false end.

Definition isTextPiece (p : piece) : bool :=
  match p with Text _ _ _ => true | _ => false end.

(** An element inside a picture of [W] by [H] pixels: the end points of a
    line, the square of side 16 around the centre of an arrow head (which
    holds the triangle, however it is rotated), the square around a circle
    of radius 6, the anchor of a text. *)
Definition inside (W H : Z) (p : piece) : Prop :=
  match p with
  | Line x1 y1 x2 y2 => 0 < x1 <= x2 /\ x2 < W /\ 0 < y1 <= y2 /\ y2 < H
  | Polygon tipX tipY backX upY dnY _ cx cy =>
      0 <= cx - 8 /\ cx + 8 <= W /\ 0 <= cy - 8 /\ cy + 8 <= H
      /\ cx - 8 <= backX <= tipX /\ tipX <= cx + 8
      /\ cy - 8 <= upY <= tipY /\ tipY <= dnY <= cy + 8
  | CircleFilled cx cy | CircleHollow cx cy =>
      0 <= cx - 6 /\ cx + 6 <= W /\ 0 <= cy - 6 /\ cy + 6 <= H
  | Text px py _ => 0 < px < W /\ 0 < py < H
  | _ => True
  end.

(** The group of the output an element belongs to, in the order of the
    groups. *)
Definition group (p : piece) : Z :=
  match p with
  | SvgOpen _ _ => 0
  | Line _ y1 _ y2 => if y1 =? y2 then 1 else 2
  | Polygon _ _ _ _ _ _ _ _ => 3
  | CircleFilled _ _ | CircleHollow _ _ => 4
  | TextOpen => 5
  | Text _ _ _ => 6
  | TextClose => 7
  | SvgClose => 8
  end.

(** The characters of a diagram that draws nothing: blank, newline and the
    vertices other than [+]. *)
Definition isQuiet (c : N) : bool :=
  ((c =? 32) || (c =? 10) || (c =? 46) || (c =? 39) || (c =? 96)
   || (c =? 44))%N.

(** The bytes of a string in memory: each code unit modulo 256. *)
Definition bytes_of (str : jsstring) : list N :=
  (fun c => c `mod` 256)%N <$> str.

(** The buffer after a string has been stored at [ptr]: its length in
    four bytes, then its bytes. *)
Definition stored (str : jsstring) (ptr : Z) (buf : list N) : list N :=
  take (Z.to_nat ptr) buf ++ Wrapper.le32 (strlen str) ++ bytes_of str
  ++ drop (Z.to_nat (ptr + 4 + strlen str)) buf.

(** The string [readString] finds at [ptr]: as many bytes as the four
    bytes at [ptr] say, each as a code unit. *)
Definition length_at (ptr : Z) (buf : list N) : Z :=
  Wrapper.of_le32 (take 4 (drop (Z.to_nat ptr) buf)).

Definition string_at (ptr : Z) (buf : list N) : jsstring :=
  (fun b => b `mod` 65536)%N
  <$> take (Z.to_nat (length_at ptr buf)) (drop (Z.to_nat (ptr + 4)) buf).

(* ================================================================= *)
(** * Properties *)

(** ** Loops over the indices of a string or an array *)

Lemma arrget_lookup {A} (l : list A) (i : nat) :
  arrget l (Z.of_nat i) = l !! i.
Proof.
  unfold arrget. destruct (Z.ltb_spec (Z.of_nat i) 0); [lia|].
  by rewrite Nat2Z.id.
Qed.

Lemma charAt_lookup (s : jsstring) (i : nat) (c : N) :
  s !! i = Some c -> charAt s (Z.of_nat i) = [c].
Proof.
  intros H. unfold charAt, strlen.
  pose proof (lookup_lt_Some _ _ _ H).
  destruct (Z.leb_spec 0 (Z.of_nat i)); [|lia].
  destruct (Z.ltb_spec (Z.of_nat i) (Z.of_nat (length s))); [|lia].
  simpl. rewrite Nat2Z.id. by rewrite (drop_S _ _ _ H).
Qed.

Lemma charAt_out (s : jsstring) (i : Z) :
  i < 0 \/ strlen s <= i -> charAt s i = [].
Proof.
  intros H. unfold charAt.
  destruct (Z.leb_spec 0 i); destruct (Z.ltb_spec i (strlen s)); simpl;
    try done; lia.
Qed.

Lemma indices_charAt (s : jsstring) :
  charAt s <$> seqZ 0 (strlen s) = (fun c => [c]) <$> s.
Proof.
  apply list_eq. intros i. rewrite !list_lookup_fmap. unfold strlen.
  destruct (s !! i) as [c|] eqn:E; simpl.
  - pose proof (lookup_lt_Some _ _ _ E).
    rewrite lookup_seqZ_lt by lia. rewrite Z.add_0_l. simpl. f_equal.
    by apply charAt_lookup.
  - apply lookup_ge_None in E. rewrite lookup_seqZ_ge by lia. done.
Qed.

Lemma indices_arrget {A} (l : list A) :
  arrget l <$> seqZ 0 (arrlen l) = Some <$> l.
Proof.
  apply list_eq. intros i. rewrite !list_lookup_fmap. unfold arrlen.
  destruct (l !! i) as [c|] eqn:E; simpl.
  - pose proof (lookup_lt_Some _ _ _ E).
    rewrite lookup_seqZ_lt by lia. rewrite Z.add_0_l. simpl. f_equal.
    by rewrite arrget_lookup.
  - apply lookup_ge_None in E. rewrite lookup_seqZ_ge by lia. done.
Qed.

Lemma for_range_charAt {S} (str : jsstring) (f : jsstring -> S -> S) (s : S) :
  for_range 0 (strlen str) (fun i s => f (charAt str i) s) s
  = foldl (fun s c => f [c] s) s str.
Proof.
  unfold for_range. rewrite Z.sub_0_r.
  rewrite <- (foldl_fmap (fun s c => f c s) s (seqZ 0 (strlen str)) (charAt str)).
  rewrite indices_charAt. by rewrite foldl_fmap.
Qed.

Lemma foldM_fmap {A B S} (g : A -> B) (body : B -> S -> outcome S)
    (l : list A) (s : S) :
  foldM body (g <$> l) s = foldM (fun a => body (g a)) l s.
Proof.
  revert s. induction l as [|a l IH]; intros s; simpl; [done|].
  destruct (body (g a) s); simpl; auto.
Qed.

Lemma foldM_app {A S} (body : A -> S -> outcome S) (l k : list A) (s : S) :
  foldM body (l ++ k) s = (s' ← foldM body l s; foldM body k s').
Proof.
  revert s. induction l as [|a l IH]; intros s; simpl; [done|].
  destruct (body a s); simpl; auto.
Qed.

Lemma foldM_pure {A S} (body : A -> S -> outcome S) (f : A -> S -> S)
    (l : list A) (s : S) :
  (forall a s, a ∈ l -> body a s = Ok (f a s)) ->
  foldM body l s = Ok (foldl (fun s a => f a s) s l).
Proof.
  revert s. induction l as [|a l IH]; intros s H; simpl; [done|].
  rewrite H by apply list_elem_of_here. simpl.
  apply IH. intros. apply H. by apply list_elem_of_further.
Qed.

Lemma for_rangeM_arrget {A S} (l : list A)
    (body : option A -> S -> outcome S) (s : S) :
  for_rangeM 0 (arrlen l) (fun i s => body (arrget l i) s) s
  = foldM (fun a s => body (Some a) s) l s.
Proof.
  unfold for_rangeM. rewrite Z.sub_0_r.
  rewrite <- (foldM_fmap (arrget l) body).
  rewrite indices_arrget. by rewrite foldM_fmap.
Qed.

(** ** Escaping *)

Lemma unit_eq (c d : N) : ([c] === [d]) = (c =? d)%N.
Proof.
  unfold str_eq. destruct (N.eqb_spec c d) as [->|Hne].
  - by rewrite bool_decide_eq_true_2.
  - rewrite bool_decide_eq_false_2; congruence.
Qed.

Lemma escape_step (c : N) (result : jsstring) :
  (if [c] === js "&" then result ++ js "&amp;"
   else if [c] === js "<" then result ++ js "&lt;"
   else if [c] === js ">" then result ++ js "&gt;"
   else if [c] === DQ then result ++ js "&quot;"
   else result ++ [c]) = result ++ escape_unit c.
Proof.
  change (js "&") with [38%N]. change (js "<") with [60%N].
  change (js ">") with [62%N]. unfold DQ. rewrite !unit_eq.
  unfold escape_unit. by repeat destruct (_ =? _)%N.
Qed.

Lemma foldl_ext_eq {A B} (f g : A -> B -> A) (a : A) (l : list B) :
  (forall a b, f a b = g a b) -> foldl f a l = foldl g a l.
Proof.
  intros H. revert a. induction l as [|b l IH]; intros a; simpl; [done|].
  by rewrite H, IH.
Qed.

Lemma escape_foldl (str acc : jsstring) :
  foldl (fun result c => result ++ escape_unit c) acc str
  = acc ++ escape_spec str.
Proof.
  unfold escape_spec. revert acc.
  induction str as [|c str IH]; intros acc; simpl.
  - by rewrite app_nil_r.
  - rewrite IH. by rewrite <- app_assoc.
Qed.

Lemma escape_one (c : N) : escapeHTMLEntities [c] = escape_unit c.
Proof.
  unfold escapeHTMLEntities.
  change (for_range 0 (strlen [c]) ?f []) with (f 0 []).
  change (charAt [c] 0) with [c]. cbv beta zeta. apply escape_step.
Qed.

(** C6: [escapeHTMLEntities] replaces each of the four characters by its
    entity and keeps every other code unit, in order. *)
Theorem escapeHTMLEntities_spec (str : jsstring) :
  escapeHTMLEntities str = escape_spec str.
Proof.
  unfold escapeHTMLEntities.
  rewrite (for_range_charAt str (fun c result =>
    if c === js "&" then result ++ js "&amp;"
    else if c === js "<" then result ++ js "&lt;"
    else if c === js ">" then result ++ js "&gt;"
    else if c === DQ then result ++ js "&quot;"
    else result ++ c) []).
  rewrite (foldl_ext_eq _ (fun result c => result ++ escape_unit c)).
  - apply (escape_foldl str []).
  - intros result c. apply escape_step.
Qed.

(** ** Dedenting *)

Lemma trimStart_nil (s : jsstring) :
  trimStart s = [] <-> forallb isWhiteSpace s = true.
Proof.
  induction s as [|c s IH]; simpl; [done|].
  destruct (isWhiteSpace c); simpl; [done|]. split; discriminate.
Qed.

Lemma trimStart_head (s : jsstring) (c : N) (r : jsstring) :
  trimStart s = c :: r -> isWhiteSpace c = false.
Proof.
  induction s as [|d s IH]; simpl; [done|].
  destruct (isWhiteSpace d) eqn:E; [done|]. by intros [= <- _].
Qed.

Lemma forallb_rev {A} (f : A -> bool) (l : list A) :
  forallb f (rev l) = forallb f l.
Proof.
  induction l as [|a l IH]; simpl; [done|].
  rewrite forallb_app, IH. simpl. rewrite andb_true_r. apply andb_comm.
Qed.

Lemma trim_blank (line : jsstring) :
  (trim line === []) = isBlank line.
Proof.
  unfold str_eq, trim, isBlank.
  destruct (forallb isWhiteSpace line) eqn:E.
  - apply trimStart_nil in E. rewrite E. done.
  - apply bool_decide_eq_false_2. intros H.
    assert (H1 : trimStart (rev (trimStart line)) = []).
    { rewrite <- (rev_involutive (trimStart _)). by rewrite H. }
    apply trimStart_nil in H1. rewrite forallb_rev in H1.
    destruct (trimStart line) as [|c r] eqn:E2.
    + apply trimStart_nil in E2. congruence.
    + apply trimStart_head in E2. simpl in H1. by rewrite E2 in H1.
Qed.

Lemma fold_break_fmap {A B S} (g : A -> B) (body : B -> S -> ctl S)
    (l : list A) (s : S) :
  fold_break body (g <$> l) s = fold_break (fun a => body (g a)) l s.
Proof.
  revert s. induction l as [|a l IH]; intros s; simpl; [done|].
  destruct (body (g a) s); auto.
Qed.

Lemma for_break_charAt {S} (str : jsstring) (f : jsstring -> S -> ctl S)
    (s : S) :
  for_break 0 (strlen str) (fun i s => f (charAt str i) s) s
  = fold_break (fun c s => f [c] s) str s.
Proof.
  unfold for_break. rewrite Z.sub_0_r.
  rewrite <- (fold_break_fmap (charAt str) f).
  rewrite indices_charAt. by rewrite fold_break_fmap.
Qed.

Lemma spaceCount_indent (line : jsstring) :
  for_break 0 (strlen line) (fun j spaceCount =>
    if (charAt line j === js " ") || (charAt line j === TAB)
    then Next (spaceCount + 1)
    else Break spaceCount) 0 = indent line.
Proof.
  etrans; [apply (for_break_charAt line (fun c spaceCount =>
    if (c === js " ") || (c === TAB) then Next (spaceCount + 1)
    else Break spaceCount) 0)|].
  rewrite <- (Z.add_0_l (indent line)). generalize 0 as acc.
  induction line as [|c line IH]; intros acc; cbn [fold_break indent].
  - lia.
  - change (js " ") with [32%N]. unfold TAB. rewrite !unit_eq.
    fold (isIndentUnit c). destruct (isIndentUnit c); [|lia].
    rewrite IH. lia.
Qed.

Lemma minimum_loop (lines : list jsstring) (start : Z) :
  foldl (fun minimum line =>
           if negb (isBlank line)
           then if indent line <? minimum then indent line else minimum
           else minimum) start lines
  = match min_indent lines with
    | Some m => Z.min m start
    | None => start
    end.
Proof.
  revert start. induction lines as [|line rest IH]; intros start; simpl.
  - done.
  - rewrite IH. destruct (isBlank line); simpl; [done|].
    destruct (Z.ltb_spec (indent line) start);
      destruct (min_indent rest); lia.
Qed.

Lemma strip_loop (m : Z) (lines : list jsstring) (acc : jsstring) :
  foldl (fun result line => result ++ substring line m ++ LF) acc lines
  = acc ++ strip_lines m lines.
Proof.
  unfold strip_lines, substring. revert acc.
  induction lines as [|line rest IH]; intros acc; simpl.
  - by rewrite app_nil_r.
  - rewrite IH. by rewrite <- !app_assoc.
Qed.

Lemma minimum_run (lines : list jsstring) :
  for_rangeM 0 (arrlen lines) (fun i minimum =>
    line ← defined (arrget lines i);
    if negb (trim line === []) then
      Ok (if for_break 0 (strlen line) (fun j spaceCount =>
                if (charAt line j === js " ") || (charAt line j === TAB)
                then Next (spaceCount + 1)
                else Break spaceCount) 0 <? minimum
          then for_break 0 (strlen line) (fun j spaceCount =>
                if (charAt line j === js " ") || (charAt line j === TAB)
                then Next (spaceCount + 1)
                else Break spaceCount) 0
          else minimum)
    else Ok minimum) 999999 = Ok (minimum_of lines).
Proof.
  etrans; [apply (for_rangeM_arrget lines (fun v minimum =>
    line ← defined v;
    if negb (trim line === []) then
      Ok (if for_break 0 (strlen line) (fun j spaceCount =>
                if (charAt line j === js " ") || (charAt line j === TAB)
                then Next (spaceCount + 1)
                else Break spaceCount) 0 <? minimum
          then for_break 0 (strlen line) (fun j spaceCount =>
                if (charAt line j === js " ") || (charAt line j === TAB)
                then Next (spaceCount + 1)
                else Break spaceCount) 0
          else minimum)
    else Ok minimum) 999999)|].
  rewrite (foldM_pure _ (fun line minimum =>
    if negb (isBlank line)
    then if indent line <? minimum then indent line else minimum
    else minimum)).
  - by rewrite minimum_loop.
  - intros line minimum _. simpl. rewrite trim_blank.
    destruct (isBlank line); simpl; [done|].
    by rewrite spaceCount_indent.
Qed.

Lemma strip_run (m : Z) (lines : list jsstring) :
  for_rangeM 0 (arrlen lines) (fun i result =>
    line ← defined (arrget lines i);
    Ok (result ++ substring line m ++ LF)) [] = Ok (strip_lines m lines).
Proof.
  etrans; [apply (for_rangeM_arrget lines (fun v result =>
    line ← defined v; Ok (result ++ substring line m ++ LF)) [])|].
  rewrite (foldM_pure _ (fun line result => result ++ substring line m ++ LF))
    by done.
  by rewrite strip_loop.
Qed.

(** The dedent step never raises, and computes [dedent]. *)
Lemma removeLeadingSpace_run (str : jsstring) :
  removeLeadingSpace str = Ok (dedent str).
Proof.
  unfold removeLeadingSpace, dedent. cbv zeta.
  rewrite minimum_run. simpl.
  destruct (_ || _); [done|]. apply strip_run.
Qed.

(** ** Lines *)

Lemma split_lines_cons_inv (s : jsstring) :
  exists l ls, split_lines s = l :: ls.
Proof.
  destruct s as [|c r]; simpl; [by eauto|].
  destruct (N.eqb c 10); [by eauto|].
  destruct (split_lines r); eauto.
Qed.

Lemma split_lines_noLF (s : jsstring) : Forall noLF (split_lines s).
Proof.
  induction s as [|c r IH]; simpl.
  - repeat constructor.
  - destruct (N.eqb_spec c 10).
    + constructor; [constructor|done].
    + destruct (split_lines r) as [|l ls].
      * repeat constructor. done.
      * inversion IH; subst. constructor; [|done]. by constructor.
Qed.

Lemma split_lines_line (line rest : jsstring) :
  noLF line -> split_lines (line ++ LF ++ rest) = line :: split_lines rest.
Proof.
  intros H. unfold LF. simpl.
  induction H as [|c line Hc _ IH]; simpl; [done|].
  destruct (N.eqb_spec c 10); [done|]. by rewrite IH.
Qed.

Lemma split_lines_last (line : jsstring) :
  noLF line -> split_lines line = [line].
Proof.
  induction 1 as [|c line Hc _ IH]; simpl; [done|].
  destruct (N.eqb_spec c 10); [done|]. by rewrite IH.
Qed.

Lemma split_lines_terminated (f : jsstring -> jsstring)
    (lines : list jsstring) :
  Forall (fun line => noLF (f line)) lines ->
  split_lines (concat ((fun line => f line ++ LF) <$> lines))
  = (f <$> lines) ++ [[]].
Proof.
  induction 1 as [|line lines H _ IH]; [done|].
  rewrite !fmap_cons, concat_cons, <- app_assoc.
  rewrite (split_lines_line _ _ H). by rewrite IH.
Qed.

Lemma noLF_drop (k : nat) (line : jsstring) : noLF line -> noLF (drop k line).
Proof. apply Forall_drop. Qed.

Lemma split_lines_strip (m : Z) (lines : list jsstring) :
  Forall noLF lines ->
  split_lines (strip_lines m lines) = (drop (Z.to_nat m) <$> lines) ++ [[]].
Proof.
  intros H. unfold strip_lines.
  apply (split_lines_terminated (drop (Z.to_nat m))).
  eapply List.Forall_impl; [|exact H]. intros line. apply noLF_drop.
Qed.

(** ** Indentation of stripped lines *)

Lemma indent_nonneg (line : jsstring) : 0 <= indent line.
Proof. induction line as [|c r IH]; simpl; [lia|]. destruct (isIndentUnit c); lia. Qed.

Lemma isIndentUnit_white (c : N) : isIndentUnit c = true -> isWhiteSpace c = true.
Proof.
  unfold isIndentUnit. intros H. apply orb_true_iff in H.
  destruct H as [H|H]; apply N.eqb_eq in H; by subst.
Qed.

Lemma isBlank_drop (k : nat) (line : jsstring) :
  isBlank line = true -> isBlank (drop k line) = true.
Proof.
  revert line. induction k as [|k IH]; intros line H; [done|].
  destruct line as [|c r]; [done|]. simpl in *.
  apply andb_true_iff in H. destruct H as [_ H]. apply IH, H.
Qed.

Lemma isBlank_drop_indent (k : nat) (line : jsstring) :
  Z.of_nat k <= indent line -> isBlank (drop k line) = isBlank line.
Proof.
  revert line. induction k as [|k IH]; intros line H; [done|].
  destruct line as [|c r]; [done|]. simpl in *.
  destruct (isIndentUnit c) eqn:E; [|lia].
  rewrite (isIndentUnit_white _ E). simpl. apply IH. lia.
Qed.

Lemma indent_drop (k : nat) (line : jsstring) :
  Z.of_nat k <= indent line -> indent (drop k line) = indent line - Z.of_nat k.
Proof.
  revert line. induction k as [|k IH]; intros line H.
  { rewrite drop_0. lia. }
  destruct line as [|c r]; [simpl in *; lia|]. simpl in *.
  destruct (isIndentUnit c) eqn:E; [|lia].
  rewrite IH by lia. lia.
Qed.

Lemma min_indent_drop (k : nat) (lines : list jsstring) :
  (forall m, min_indent lines = Some m -> Z.of_nat k <= m) ->
  min_indent (drop k <$> lines)
  = (fun m => m - Z.of_nat k) <$> min_indent lines.
Proof.
  induction lines as [|line rest IH]; intros H; [done|].
  rewrite fmap_cons. cbn [min_indent] in *.
  destruct (isBlank line) eqn:E.
  - rewrite (isBlank_drop _ _ E). by apply IH.
  - pose proof (indent_nonneg line).
    destruct (min_indent rest) as [mr|] eqn:Er.
    + specialize (H _ eq_refl).
      rewrite isBlank_drop_indent, E by lia.
      rewrite IH by (intros ? [= <-]; lia). simpl.
      rewrite indent_drop by lia. f_equal. lia.
    + specialize (H _ eq_refl).
      rewrite isBlank_drop_indent, E by lia.
      rewrite IH by done. simpl.
      rewrite indent_drop by lia. done.
Qed.

Lemma min_indent_app (l k : list jsstring) :
  min_indent (l ++ k)
  = match min_indent l, min_indent k with
    | Some a, Some b => Some (Z.min a b)
    | Some a, None => Some a
    | None, r => r
    end.
Proof.
  induction l as [|line rest IH]; simpl.
  - by destruct (min_indent k).
  - destruct (isBlank line); [done|]. rewrite IH.
    destruct (min_indent rest), (min_indent k); f_equal; lia.
Qed.

Lemma min_indent_nonneg (lines : list jsstring) (m : Z) :
  min_indent lines = Some m -> 0 <= m.
Proof.
  revert m. induction lines as [|line rest IH]; intros m; simpl; [done|].
  pose proof (indent_nonneg line).
  destruct (isBlank line); [by apply IH|].
  destruct (min_indent rest) as [mr|]; intros [= <-]; [|done].
  specialize (IH _ eq_refl). lia.
Qed.

Lemma dedent_fixed (str : jsstring) : dedent (dedent str) = dedent str.
Proof.
  destruct ((minimum_of (split_lines str) =? 0)
            || (minimum_of (split_lines str) =? 999999)) eqn:C.
  { assert (H : dedent str = str) by (unfold dedent; by rewrite C).
    by rewrite !H. }
  assert (H : dedent str
              = strip_lines (minimum_of (split_lines str)) (split_lines str))
    by (unfold dedent; by rewrite C).
  rewrite H. apply orb_false_iff in C. destruct C as [C0 C9].
  apply Z.eqb_neq in C0, C9. unfold minimum_of in *.
  destruct (min_indent (split_lines str)) as [m|] eqn:E; [|done].
  pose proof (min_indent_nonneg _ _ E).
  replace (Z.min m 999999) with m in * by lia.
  unfold dedent, minimum_of.
  rewrite split_lines_strip by apply split_lines_noLF.
  rewrite min_indent_app.
  rewrite min_indent_drop
    by (intros ? Hm; rewrite E in Hm; injection Hm as <-; lia).
  rewrite E. simpl.
  replace (m - Z.of_nat (Z.to_nat m)) with 0 by lia. done.
Qed.

(** C5: the dedent step is idempotent: it returns a string, and returns
    that string again when applied to it. *)
Theorem removeLeadingSpace_idempotent (s : jsstring) :
  exists r,
    removeLeadingSpace s = Ok r /\ removeLeadingSpace r = Ok r
    /\ (removeLeadingSpace s ≫= removeLeadingSpace) = removeLeadingSpace s.
Proof.
  exists (dedent s). rewrite !removeLeadingSpace_run. simpl.
  rewrite removeLeadingSpace_run. by rewrite dedent_fixed.
Qed.

(** Below the constant the source agrees with the specification. *)
Lemma removeLeadingSpace_below_sentinel (str : jsstring) :
  (forall m, min_indent (split_lines str) = Some m -> m < 999999) ->
  removeLeadingSpace str = Ok (dedent_spec str).
Proof.
  intros H. rewrite removeLeadingSpace_run. f_equal.
  unfold dedent, dedent_spec, minimum_of.
  destruct (min_indent (split_lines str)) as [m|] eqn:E; [|done].
  specialize (H _ eq_refl). pose proof (min_indent_nonneg _ _ E).
  replace (Z.min m 999999) with m by lia.
  destruct (Z.eqb_spec m 0); [done|].
  destruct (Z.eqb_spec m 999999); [lia|]. done.
Qed.

Lemma indented_noLF (n : nat) : noLF (indented n).
Proof.
  apply Forall_app. split.
  - apply Forall_replicate. done.
  - repeat constructor. done.
Qed.

Lemma indented_not_blank (n : nat) : isBlank (indented n) = false.
Proof.
  unfold isBlank, indented. rewrite forallb_app. apply andb_false_r.
Qed.

Lemma indented_indent (n : nat) : indent (indented n) = Z.of_nat n.
Proof.
  unfold indented. induction n as [|n IH]; [done|].
  cbn [replicate app indent]. change (isIndentUnit 32) with true.
  cbv iota. rewrite IH. lia.
Qed.

Lemma indented_min_indent (n : nat) :
  min_indent (split_lines (indented n)) = Some (Z.of_nat n).
Proof.
  rewrite split_lines_last by apply indented_noLF.
  cbn [min_indent]. by rewrite indented_not_blank, indented_indent.
Qed.

Lemma indented_dedent (n : nat) :
  999999 <= Z.of_nat n -> dedent (indented n) = indented n.
Proof.
  intros H. unfold dedent, minimum_of. rewrite indented_min_indent.
  replace (Z.min (Z.of_nat n) 999999) with 999999 by lia. done.
Qed.

Lemma indented_dedent_spec (n : nat) :
  0 < Z.of_nat n -> dedent_spec (indented n) = js "a" ++ LF.
Proof.
  intros H. unfold dedent_spec. rewrite indented_min_indent.
  destruct (Z.eqb_spec (Z.of_nat n) 0); [lia|].
  rewrite split_lines_last by apply indented_noLF.
  unfold strip_lines. rewrite Nat2Z.id. cbn [fmap list_fmap concat].
  unfold indented at 1.
  rewrite drop_app_length' by (by rewrite length_replicate).
  by rewrite app_nil_r.
Qed.

Lemma indented_changed (n : nat) :
  0 < Z.of_nat n -> indented n <> js "a" ++ LF.
Proof. destruct n as [|n]; [lia|]. discriminate. Qed.

Lemma removeLeadingSpace_indented (n : nat) :
  999999 <= Z.of_nat n ->
  removeLeadingSpace (indented n) = Ok (indented n)
  /\ dedent_spec (indented n) = js "a" ++ LF
  /\ indented n <> js "a" ++ LF.
Proof.
  intros H. split; [|split].
  - rewrite removeLeadingSpace_run. by rewrite indented_dedent.
  - apply indented_dedent_spec. lia.
  - apply indented_changed. lia.
Qed.

(** C4, at a line indented by 999999 spaces: the specification strips the
    indentation, the source returns the input unchanged. *)
Theorem removeLeadingSpace_sentinel :
  removeLeadingSpace sentinel_input = Ok sentinel_input
  /\ dedent_spec sentinel_input = js "a" ++ LF
  /\ sentinel_input <> js "a" ++ LF.
Proof.
  unfold sentinel_input. apply removeLeadingSpace_indented.
  rewrite Z2Nat.id; [apply Z.le_refl | discriminate].
Qed.

(** ** Rules for the loops *)

Lemma while_rule {St} (I : St -> Prop) (measure : St -> nat)
    (cond : St -> outcome bool) (body : St -> outcome St) :
  (forall s, I s -> exists b, cond s = Ok b /\
     (b = true -> exists s', body s = Ok s' /\ I s'
                             /\ (measure s' < measure s)%nat)) ->
  forall fuel s, I s -> (measure s <= fuel)%nat ->
  exists s', while fuel cond body s = Ok s' /\ I s' /\ cond s' = Ok false.
Proof.
  intros H fuel. induction fuel as [|fuel IH]; intros s Hs Hm;
    destruct (H s Hs) as (b & Hc & Hb); simpl; rewrite Hc; simpl;
    destruct b; try (by exists s).
  - destruct (Hb eq_refl) as (s' & _ & _ & Hlt). lia.
  - destruct (Hb eq_refl) as (s' & Hs' & HI & Hlt). rewrite Hs'. simpl.
    apply IH; [done|lia].
Qed.

Lemma foldM_rule {St} (I : Z -> St -> Prop) (body : Z -> St -> outcome St)
    (n : nat) (lo : Z) :
  (forall i s, lo <= i < lo + Z.of_nat n -> I i s ->
     exists s', body i s = Ok s' /\ I (i + 1) s') ->
  forall s, I lo s ->
  exists s', foldM body (seqZ lo (Z.of_nat n)) s = Ok s'
             /\ I (lo + Z.of_nat n) s'.
Proof.
  revert lo. induction n as [|n IH]; intros lo H s Hs.
  - exists s. simpl. by rewrite Z.add_0_r.
  - rewrite seqZ_cons by lia. simpl.
    destruct (H lo s ltac:(lia) Hs) as (s1 & Hb & H1). rewrite Hb. simpl.
    replace (Z.pred (Z.of_nat (S n))) with (Z.of_nat n) by lia.
    destruct (IH (Z.succ lo)) with (s := s1) as (s2 & Hf & H2).
    + intros i s' Hi. apply H. lia.
    + by replace (Z.succ lo) with (lo + 1) by lia.
    + exists s2. split; [done|].
      by replace (lo + Z.of_nat (S n)) with (Z.succ lo + Z.of_nat n) by lia.
Qed.

Lemma for_rangeM_rule {St} (I : Z -> St -> Prop) (hi : Z)
    (body : Z -> St -> outcome St) :
  0 <= hi ->
  (forall i s, 0 <= i < hi -> I i s ->
     exists s', body i s = Ok s' /\ I (i + 1) s') ->
  forall s, I 0 s -> exists s', for_rangeM 0 hi body s = Ok s' /\ I hi s'.
Proof.
  intros Hhi H s Hs. unfold for_rangeM.
  destruct (foldM_rule I body (Z.to_nat hi) 0) with (s := s) as (s' & Hf & H').
  - intros i s0 Hi. apply H. lia.
  - done.
  - exists s'. rewrite Z2Nat.id in * by lia.
    rewrite Z.sub_0_r. by rewrite Z.add_0_l in H'.
Qed.

Lemma while_post {St} (I Q : St -> Prop) (measure : St -> nat)
    (cond : St -> outcome bool) (body : St -> outcome St) :
  (forall s, I s -> exists b, cond s = Ok b /\
     (b = true -> exists s', body s = Ok s' /\ I s'
                             /\ (measure s' < measure s)%nat) /\
     (b = false -> Q s)) ->
  forall fuel s, I s -> (measure s <= fuel)%nat ->
  exists s', while fuel cond body s = Ok s' /\ Q s'.
Proof.
  intros H fuel s Hs Hm.
  destruct (while_rule (fun s => I s) measure cond body) with
    (fuel := fuel) (s := s) as (s' & Hw & Hs' & Hc); [|done|done|].
  - intros s0 H0. destruct (H s0 H0) as (b & Hc & Hb & _). eauto.
  - exists s'. split; [done|].
    destruct (H s' Hs') as (b & Hc' & _ & Hq). apply Hq. congruence.
Qed.

Lemma for_rangeM_post {St} (I : Z -> St -> Prop) (Q : St -> Prop) (hi : Z)
    (body : Z -> St -> outcome St) :
  0 <= hi ->
  (forall i s, 0 <= i < hi -> I i s ->
     exists s', body i s = Ok s' /\ I (i + 1) s') ->
  (forall s, I hi s -> Q s) ->
  forall s, I 0 s -> exists s', for_rangeM 0 hi body s = Ok s' /\ Q s'.
Proof.
  intros Hhi H HQ s Hs.
  destruct (for_rangeM_rule I hi body Hhi H s Hs) as (s' & Hf & H').
  eauto.
Qed.

Lemma bind_post {A B} (m : outcome A) (f : A -> outcome B)
    (Q : A -> Prop) (R : B -> Prop) :
  (exists a, m = Ok a /\ Q a) ->
  (forall a, Q a -> exists b, f a = Ok b /\ R b) ->
  exists b, (m ≫= f) = Ok b /\ R b.
Proof. intros (a & -> & Ha) H. simpl. by apply H. Qed.

Lemma FOP_snoc {A} (R : A -> A -> Prop) (l : list A) (x : A) :
  ForallOrdPairs R l -> Forall (fun a => R a x) l ->
  ForallOrdPairs R (l ++ [x]).
Proof.
  induction 1 as [|a l Ha _ IH]; intros Hx; simpl.
  - repeat constructor.
  - inversion Hx; subst. constructor; [|by apply IH].
    apply Forall_app. split; [done|]. by constructor.
Qed.

(** ** The mask *)

Lemma slotset_inside {A} (arr : list (option A)) (i : Z) (v : A) :
  0 <= i < arrlen arr -> slotset arr i v = <[Z.to_nat i := Some v]> arr.
Proof.
  intros H. unfold slotset.
  destruct (Z.ltb_spec i 0); [lia|].
  destruct (Z.ltb_spec i (arrlen arr)); [done|lia].
Qed.

Lemma arrlen_slotset {A} (arr : list (option A)) (i : Z) (v : A) :
  0 <= i < arrlen arr -> arrlen (slotset arr i v) = arrlen arr.
Proof.
  intros H. rewrite slotset_inside by done. unfold arrlen.
  by rewrite length_insert.
Qed.

Lemma slotget_slotset_eq {A} (arr : list (option A)) (i : Z) (v : A) :
  0 <= i < arrlen arr -> slotget (slotset arr i v) i = Some v.
Proof.
  intros H. rewrite slotset_inside by done. unfold slotget, arrget.
  destruct (Z.ltb_spec i 0); [lia|].
  rewrite list_lookup_insert_eq; [done|]. unfold arrlen in H. lia.
Qed.

Lemma slotget_slotset_ne {A} (arr : list (option A)) (i j : Z) (v : A) :
  0 <= i < arrlen arr -> 0 <= j -> i <> j ->
  slotget (slotset arr i v) j = slotget arr j.
Proof.
  intros H Hj Hne. rewrite slotset_inside by done. unfold slotget, arrget.
  destruct (Z.ltb_spec j 0); [lia|].
  rewrite list_lookup_insert_ne; [done|]. lia.
Qed.

Ltac zbool :=
  repeat match goal with
  | |- context [Z.ltb ?a ?b] => destruct (Z.ltb_spec a b)
  | |- context [Z.eqb ?a ?b] => destruct (Z.eqb_spec a b)
  | |- context [Z.leb ?a ?b] => destruct (Z.leb_spec a b)
  | |- context [Z.geb ?a ?b] => rewrite (Z.geb_leb a b)
  | |- context [Z.gtb ?a ?b] => rewrite (Z.gtb_ltb a b)
  end.

Section Scans.
Variable get : Z -> Z -> outcome jsstring.
Variable cell : Z -> Z -> jsstring.
Variable index : Z -> Z -> Z.
Variables count extent : Z.
Hypothesis get_cell : forall k i, get k i = Ok (cell k i).
Hypothesis count_nonneg : 0 <= count.
Hypothesis extent_nonneg : 0 <= extent.
Hypothesis index_range :
  forall k i, inRange count extent k i -> 0 <= index k i < count * extent.
Hypothesis index_inj :
  forall k i k' i', inRange count extent k i -> inRange count extent k' i' ->
    index k i = index k' i' -> k = k' /\ i = i'.

Lemma Marked_ext (P Q : Z -> Z -> bool) (used : mask) :
  (forall k i, inRange count extent k i -> P k i = Q k i) ->
  Marked index count extent P used -> Marked index count extent Q used.
Proof.
  intros H [Hlen HP]. split; [done|]. intros k i Hr.
  rewrite <- H by done. by apply HP.
Qed.

Lemma Marked_mark (f : jsstring -> bool) (i k : Z) (P : Z -> Z -> bool)
    (used : mask) :
  inRange count extent k i -> f (cell k i) = true ->
  Marked index count extent (markUpto cell f i k P) used ->
  Marked index count extent (markUpto cell f (i + 1) k P)
    (slotset used (index k i) true).
Proof.
  intros Hr Hf [Hlen HP]. pose proof (index_range _ _ Hr) as Hi.
  split; [by rewrite arrlen_slotset by lia|].
  intros k' i' Hr'. destruct (decide (index k i = index k' i')) as [E|E].
  - apply index_inj in E as [<- <-]; [|done..].
    rewrite slotget_slotset_eq by lia. f_equal.
    unfold markUpto, before. rewrite Hf.
    zbool; try lia; simpl; by rewrite ?orb_true_r.
  - pose proof (index_range _ _ Hr').
    rewrite slotget_slotset_ne by lia. rewrite HP by done. f_equal.
    unfold markUpto, before. f_equal. f_equal.
    destruct Hr, Hr'. zbool; try done; try lia.
    subst. replace i' with i in E by lia. done.
Qed.

Lemma Marked_skip (f : jsstring -> bool) (i k : Z) (P : Z -> Z -> bool)
    (used : mask) :
  f (cell k i) = false ->
  Marked index count extent (markUpto cell f i k P) used ->
  Marked index count extent (markUpto cell f (i + 1) k P) used.
Proof.
  intros Hf. apply Marked_ext. intros k' i' _.
  unfold markUpto, before. f_equal.
  zbool; try done; try lia.
  subst. replace i' with i by lia. rewrite Hf. done.
Qed.

Lemma Marked_next_line (f : jsstring -> bool) (k : Z) (P : Z -> Z -> bool)
    (used : mask) :
  Marked index count extent (markUpto cell f extent k P) used ->
  Marked index count extent (markUpto cell f 0 (k + 1) P) used.
Proof.
  apply Marked_ext. intros k' i' [_ Hi].
  unfold markUpto, before. f_equal. f_equal. zbool; try done; lia.
Qed.

Lemma Marked_start (f : jsstring -> bool) (P : Z -> Z -> bool) (used : mask) :
  Marked index count extent P used ->
  Marked index count extent (markUpto cell f 0 0 P) used.
Proof.
  apply Marked_ext. intros k' i' [Hk Hi].
  unfold markUpto, before.
  zbool; try lia; simpl; by rewrite ?andb_false_r, ?orb_false_r.
Qed.

Lemma Marked_done (f : jsstring -> bool) (P : Z -> Z -> bool) (used : mask) :
  Marked index count extent (markUpto cell f 0 count P) used ->
  Marked index count extent (fun k i => P k i || f (cell k i)) used.
Proof.
  apply Marked_ext. intros k' i' [Hk Hi].
  unfold markUpto, before.
  zbool; try lia; simpl; by rewrite ?andb_true_r.
Qed.

Lemma cellsUpto_step (f : Z -> Z -> list piece) (i k : Z) :
  0 <= i ->
  cellsUpto extent f (i + 1) k = cellsUpto extent f i k ++ f k i.
Proof.
  intros Hi. unfold cellsUpto.
  rewrite (seqZ_app 0 i 1) by lia. rewrite bind_app, app_assoc.
  f_equal. change (seqZ (0 + i) 1) with [0 + i]. rewrite bind_singleton.
  by rewrite Z.add_0_l.
Qed.

Lemma cellsUpto_next_line (f : Z -> Z -> list piece) (k : Z) :
  0 <= k ->
  cellsUpto extent f 0 (k + 1) = cellsUpto extent f extent k.
Proof.
  intros Hk. unfold cellsUpto.
  rewrite (seqZ_app 0 k 1) by lia. rewrite bind_app.
  change (seqZ (0 + k) 1) with [0 + k]. rewrite bind_singleton.
  rewrite Z.add_0_l. simpl. by rewrite app_nil_r.
Qed.

(** A cell scan marks the cells it selects and appends one piece for each,
    row by row. *)
Lemma scanCells_run (isMark : jsstring -> bool)
    (emit : list piece -> Z -> Z -> jsstring -> list piece)
    (mk : Z -> Z -> jsstring -> piece) (P : Z -> Z -> bool)
    (used : mask) (svg : list piece) :
  (forall svg k i c, emit svg k i c = svg ++ [mk k i c]) ->
  Marked index count extent P used ->
  exists used',
    scanCells get isMark index emit count extent (used, svg)
    = Ok (used', svg ++ cellsUpto extent (fun k i =>
            if isMark (cell k i) then [mk k i (cell k i)] else []) 0 count)
    /\ Marked index count extent (fun k i => P k i || isMark (cell k i)) used'.
Proof.
  intros Hemit HM. unfold scanCells.
  set (f := fun k i => if isMark (cell k i) then [mk k i (cell k i)] else []).
  destruct (for_rangeM_rule
    (fun k (st : mask * list piece) =>
       Marked index count extent (markUpto cell isMark 0 k P) st.1
       /\ st.2 = svg ++ cellsUpto extent f 0 k) count) with
    (body := fun k (st : mask * list piece) =>
       for_rangeM 0 extent (fun i '(used, svg) =>
         c ← get k i;
         if isMark c then Ok (slotset used (index k i) true, emit svg k i c)
         else Ok (used, svg)) st)
    (s := (used, svg)) as ([used' svg'] & Hrun & HM' & Hsvg); [done| | |].
  - intros k st Hk [HMk Hsk].
    destruct (for_rangeM_rule
      (fun i (st : mask * list piece) =>
         Marked index count extent (markUpto cell isMark i k P) st.1
         /\ st.2 = svg ++ cellsUpto extent f i k) extent) with
      (body := fun i '(used, svg) =>
         c ← get k i;
         if isMark c then Ok (slotset used (index k i) true, emit svg k i c)
         else Ok (used, svg))
      (s := st) as (st' & Hrun & HM' & Hsvg); [done| |done|].
    + intros i [u v] Hi [HMi Hsi]. simpl in *. rewrite get_cell. simpl.
      destruct (isMark (cell k i)) eqn:E; eexists; (split; [done|]); simpl.
      * split; [by apply Marked_mark|].
        rewrite Hemit, Hsi, cellsUpto_step by lia.
        unfold f at 3. rewrite E. by rewrite <- app_assoc.
      * split; [by apply Marked_skip|].
        rewrite Hsi, cellsUpto_step by lia.
        unfold f at 3. rewrite E. by rewrite app_nil_r.
    + exists st'. split; [done|]. split; [by apply Marked_next_line|].
      by rewrite cellsUpto_next_line by lia.
  - simpl. split; [by apply Marked_start|].
    unfold cellsUpto. simpl. by rewrite app_nil_r.
  - exists used'. simpl in *. rewrite Hrun, Hsvg. split; [done|].
    by apply Marked_done.
Qed.

(** The text pass appends one piece for every unmarked cell it keeps. *)
Lemma scanText_run (keep : jsstring -> bool)
    (mk : Z -> Z -> jsstring -> piece) (P : Z -> Z -> bool)
    (used : mask) (svg : list piece) :
  Marked index count extent P used ->
  scanText get index keep mk count extent used svg
  = Ok (svg ++ cellsUpto extent (fun k i =>
          if negb (P k i) && keep (cell k i) then [mk k i (cell k i)]
          else []) 0 count).
Proof.
  intros [_ HP]. unfold scanText.
  set (f := fun k i =>
    if negb (P k i) && keep (cell k i) then [mk k i (cell k i)] else []).
  destruct (for_rangeM_rule
    (fun k (v : list piece) => v = svg ++ cellsUpto extent f 0 k) count) with
    (body := fun k (svg : list piece) =>
       for_rangeM 0 extent (fun i svg =>
         if not_slot (slotget used (index k i)) then
           c ← get k i;
           if keep c then Ok (svg ++ [mk k i c]) else Ok svg
         else Ok svg) svg)
    (s := svg) as (svg' & Hrun & Hsvg); [done| | |].
  - intros k v Hk Hv.
    destruct (for_rangeM_rule
      (fun i (v : list piece) => v = svg ++ cellsUpto extent f i k) extent)
      with
      (body := fun i (svg : list piece) =>
         if not_slot (slotget used (index k i)) then
           c ← get k i;
           if keep c then Ok (svg ++ [mk k i c]) else Ok svg
         else Ok svg)
      (s := v) as (v' & Hrun & Hv'); [done| |done|].
    + intros i w Hi Hw. rewrite HP by done. rewrite get_cell. simpl.
      rewrite cellsUpto_step by lia. unfold f at 2.
      destruct (P k i); simpl.
      * eexists. split; [done|]. by rewrite app_nil_r.
      * destruct (keep (cell k i)); eexists; (split; [done|]).
        -- by rewrite Hw, <- app_assoc.
        -- by rewrite app_nil_r.
    + exists v'. split; [done|]. by rewrite cellsUpto_next_line by lia.
  - unfold cellsUpto. simpl. by rewrite app_nil_r.
  - by rewrite Hrun, Hsvg.
Qed.

Lemma Runs_mono (isSolid : jsstring -> bool) (i i' k : Z) (runs : list run) :
  i <= i' -> Runs cell count extent isSolid i k runs ->
  Runs cell count extent isSolid i' k runs.
Proof.
  intros Hi (Hok & Hb & Hs). split; [done|]. split; [|done].
  eapply List.Forall_impl; [|exact Hb].
  intros [[a b] k1]. unfold run_before. lia.
Qed.

Lemma Runs_next_line (isSolid : jsstring -> bool) (k : Z) (runs : list run) :
  Runs cell count extent isSolid extent k runs ->
  Runs cell count extent isSolid 0 (k + 1) runs.
Proof.
  intros (Hok & Hb & Hs). split; [done|]. split; [|done].
  eapply List.Forall_impl; [|exact Hb].
  intros [[a b] k1]. unfold run_before. lia.
Qed.

Lemma Runs_snoc (isSolid : jsstring -> bool) (i j k : Z) (runs : list run) :
  Runs cell count extent isSolid i k runs ->
  run_ok cell count extent isSolid (i, j, k) -> i <= j ->
  Runs cell count extent isSolid j k (runs ++ [(i, j, k)]).
Proof.
  intros (Hok & Hb & Hs) Hnew Hij. split; [|split].
  - apply Forall_app. split; [done|]. by constructor.
  - apply Forall_app. split.
    + eapply List.Forall_impl; [|exact Hb].
      intros [[a b] k1]. unfold run_before. lia.
    + constructor; [|done]. unfold run_before. lia.
  - apply FOP_snoc; [done|].
    eapply List.Forall_impl; [|exact Hb].
    intros [[a b] k1]. unfold run_before, run_lt. lia.
Qed.

(** A line scan marks every solid cell and appends one piece per emitted
    run; the runs are at least two cells long, solid throughout, and
    pairwise disjoint in scan order. *)
Lemma scanLines_run (isSolid : jsstring -> bool) (mk : Z -> Z -> Z -> piece)
    (P : Z -> Z -> bool) (used : mask) (svg : list piece) :
  Marked index count extent P used ->
  exists st',
    scanLines get isSolid index mk count extent (used, svg) = Ok st'
    /\ (Marked index count extent (fun k i => P k i || isSolid (cell k i))
          st'.1
        /\ exists runs, st'.2 = svg ++ (run_piece mk <$> runs)
                        /\ Runs cell count extent isSolid 0 count runs).
Proof.
  intros HM. unfold scanLines.
  apply (for_rangeM_post (fun k (st : mask * list piece) =>
    Marked index count extent (markUpto cell isSolid 0 k P) st.1
    /\ exists runs, st.2 = svg ++ (run_piece mk <$> runs)
                    /\ Runs cell count extent isSolid 0 k runs)); [done| | |].
  - (* one scan line *)
    intros k [used0 svg0] Hk [HM0 (runs0 & Hsvg0 & HR0)]. simpl in *.
    apply (bind_post _ _ (fun s : Z * mask * list piece =>
      Marked index count extent (markUpto cell isSolid extent k P) s.1.2
      /\ exists runs, s.2 = svg ++ (run_piece mk <$> runs)
                      /\ Runs cell count extent isSolid extent k runs)).
    + apply (while_post (fun s : Z * mask * list piece =>
        0 <= s.1.1 <= extent
        /\ Marked index count extent (markUpto cell isSolid s.1.1 k P) s.1.2
        /\ exists runs, s.2 = svg ++ (run_piece mk <$> runs)
                        /\ Runs cell count extent isSolid s.1.1 k runs)
        _ (fun s => Z.to_nat (extent - s.1.1))).
      * intros [[i u] v] (Hi & HMi & runs & Hv & HR). simpl in *.
        eexists. split; [done|]. split.
        -- (* the cell is inside the scan line *)
           intros Hlt. apply Z.ltb_lt in Hlt. rewrite get_cell. simpl.
           destruct (isSolid (cell k i)) eqn:E.
           ++ (* a run starts here *)
              apply (bind_post _ _ (fun s : Z * mask =>
                i < s.1 <= extent
                /\ Marked index count extent
                     (markUpto cell isSolid s.1 k P) s.2
                /\ forall j, i <= j < s.1 -> isSolid (cell k j) = true)).
              ** apply (while_post (fun s : Z * mask =>
                   i <= s.1 <= extent
                   /\ Marked index count extent
                        (markUpto cell isSolid s.1 k P) s.2
                   /\ forall j, i <= j < s.1 -> isSolid (cell k j) = true)
                   _ (fun s => Z.to_nat (extent - s.1))).
                 --- intros [j w] (Hj & HMj & Hsolid). simpl in *.
                     rewrite get_cell. simpl.
                     exists ((j <? extent) && isSolid (cell k j)).
                     split; [by destruct (j <? extent)|]. split.
                     +++ intros Hc. apply andb_true_iff in Hc as [Hc1 Hc2].
                         apply Z.ltb_lt in Hc1.
                         eexists. split; [done|]. simpl.
                         split; [|lia]. split; [lia|]. split.
                         *** apply Marked_mark; [|done..].
                             unfold inRange. lia.
                         *** intros j' Hj'.
                             destruct (decide (j' = j)) as [->|]; [done|].
                             apply Hsolid. lia.
                     +++ intros Hc. split; [|done].
                         destruct (decide (j = i)) as [->|]; [|lia].
                         rewrite E in Hc.
                         destruct (Z.ltb_spec i extent); [done|lia].
                 --- simpl. split; [lia|]. split; [done|]. intros; lia.
                 --- simpl. lia.
              ** intros [j w] (Hj & HMj & Hsolid). simpl in *.
                 assert (Hok : i + 2 <= j ->
                   run_ok cell count extent isSolid (i, j, k)).
                 { intros. unfold run_ok. repeat split; try lia. done. }
                 destruct (Z.geb_spec (j - i) 2); zbool;
                   eexists; (split; [done|]); simpl.
                 --- split; [|lia]. split; [lia|]. split; [done|].
                     exists (runs ++ [(i, j, k)]). split.
                     +++ rewrite Hv, fmap_app, app_assoc. done.
                     +++ apply Runs_snoc; [done| |lia]. apply Hok. lia.
                 --- split; [|lia]. split; [lia|]. split; [done|].
                     exists runs. split; [done|].
                     apply (Runs_mono _ i); [lia|done].
           ++ eexists. split; [done|]. simpl.
              split; [|lia]. split; [lia|]. split; [by apply Marked_skip|].
              exists runs. split; [done|]. apply (Runs_mono _ i); [lia|done].
        -- intros Hge. apply Z.ltb_ge in Hge.
           assert (i = extent) by lia. subst i. eauto.
      * simpl. split; [lia|]. split; [done|]. eauto.
      * simpl. lia.
    + intros [[i u] v] (HMi & runs & Hv & HR). simpl in *.
      eexists. split; [done|]. simpl.
      split; [by apply Marked_next_line|].
      exists runs. split; [done|]. by apply Runs_next_line.
  - intros [u v] (HMu & runs & Hv & HR). simpl in *.
    split; [by apply Marked_done|]. eauto.
  - simpl. split; [by apply Marked_start|].
    exists []. split; [by rewrite app_nil_r|].
    split; [constructor|]. split; constructor.
Qed.
End Scans.

(** ** The grid *)

Lemma arrget_Some {A} (l : list A) (i : Z) (a : A) :
  arrget l i = Some a -> 0 <= i < arrlen l.
Proof.
  unfold arrget, arrlen. destruct (Z.ltb_spec i 0) as [|Hi]; [done|].
  intros Hl. apply lookup_lt_Some in Hl. lia.
Qed.

Lemma arrget_None {A} (l : list A) (i : Z) :
  i < 0 \/ arrlen l <= i -> arrget l i = None.
Proof.
  unfold arrget, arrlen. intros Hi. destruct (Z.ltb_spec i 0); [done|].
  apply lookup_ge_None. lia.
Qed.

Lemma gridGet_run (lines : list jsstring) (x y : Z) :
  gridGet lines x y = Ok (cellAt lines x y).
Proof.
  unfold gridGet, cellAt.
  destruct (arrget lines y) as [line|] eqn:E.
  - apply arrget_Some in E as Hy.
    destruct (Z.ltb_spec y 0); [lia|]. rewrite Z.geb_leb.
    destruct (Z.leb_spec (arrlen lines) y); [lia|]. simpl.
    by destruct (_ || _).
  - destruct ((y <? 0) || (y >=? arrlen lines)) eqn:C; [done|].
    apply orb_false_iff in C as [C1 C2]. rewrite Z.geb_leb in C2.
    apply Z.ltb_ge in C1. apply Z.leb_gt in C2.
    unfold arrget in E. destruct (Z.ltb_spec y 0); [lia|].
    apply lookup_ge_None in E. unfold arrlen in C2. lia.
Qed.

Lemma max_width_nonneg (lines : list jsstring) : 0 <= max_width lines.
Proof. induction lines as [|line rest IH]; simpl; lia. Qed.

Lemma max_width_bound (lines : list jsstring) (line : jsstring) :
  line ∈ lines -> strlen line <= max_width lines.
Proof.
  induction 1 as [line rest|line line' rest _ IH]; simpl; lia.
Qed.

Lemma width_loop (lines : list jsstring) (w : Z) :
  0 <= w ->
  foldl (fun w line => if strlen line >? w then strlen line else w) w lines
  = Z.max w (max_width lines).
Proof.
  revert w. induction lines as [|line rest IH]; intros w Hw; simpl.
  - lia.
  - rewrite Z.gtb_ltb.
    destruct (Z.ltb_spec w (strlen line)); rewrite IH; lia.
Qed.

Lemma gridWidth_run (lines : list jsstring) :
  gridWidth lines = Ok (max_width lines).
Proof.
  unfold gridWidth.
  etrans; [apply (for_rangeM_arrget lines (fun v w =>
    line ← defined v; Ok (if strlen line >? w then strlen line else w)) 0)|].
  rewrite (foldM_pure _ (fun line w =>
    if strlen line >? w then strlen line else w)) by done.
  rewrite width_loop by done. f_equal.
  pose proof (max_width_nonneg lines). lia.
Qed.

Lemma gridHeight_bounds (lines : list jsstring) :
  0 <= gridHeight lines <= arrlen lines.
Proof.
  unfold gridHeight, arrlen. rewrite Z.gtb_ltb.
  destruct (Z.ltb_spec 0 (Z.of_nat (length lines))); simpl; [|lia].
  case_bool_decide; lia.
Qed.

Lemma push_loop {A B} (x : A) (l : list B) (acc : list A) :
  foldl (fun used _ => used ++ [x]) acc l = acc ++ replicate (length l) x.
Proof.
  revert acc. induction l as [|b l IH]; intros acc; simpl.
  - by rewrite app_nil_r.
  - rewrite IH, <- app_assoc. done.
Qed.

Lemma used_init (n : Z) :
  for_range 0 n (fun _ (used : mask) => used ++ [Some false]) []
  = replicate (Z.to_nat n) (Some false).
Proof.
  unfold for_range. rewrite push_loop, length_seqZ, Z.sub_0_r. done.
Qed.

Lemma index_rows_range (width height k i : Z) :
  inRange height width k i -> 0 <= k * width + i < height * width.
Proof.
  unfold inRange. intros [Hk Hi].
  assert (0 <= k * width) by nia.
  assert (k * width <= (height - 1) * width) by nia. lia.
Qed.

Lemma index_rows_inj (width height k i k' i' : Z) :
  inRange height width k i -> inRange height width k' i' ->
  k * width + i = k' * width + i' -> k = k' /\ i = i'.
Proof.
  unfold inRange. intros [Hk Hi] [Hk' Hi'] E.
  assert (k = k'); [|subst; lia].
  destruct (Z.lt_trichotomy k k') as [Hlt|[Heq|Hgt]]; [|done|].
  - assert ((k + 1) * width <= k' * width) by nia. lia.
  - assert ((k' + 1) * width <= k * width) by nia. lia.
Qed.

Lemma index_cols_range (width height k i : Z) :
  inRange width height k i -> 0 <= i * width + k < width * height.
Proof.
  intros [Hk Hi].
  pose proof (index_rows_range width height i k (conj Hi Hk)). lia.
Qed.

Lemma index_cols_inj (width height k i k' i' : Z) :
  inRange width height k i -> inRange width height k' i' ->
  i * width + k = i' * width + k' -> k = k' /\ i = i'.
Proof.
  intros [Hk Hi] [Hk' Hi'] E.
  destruct (index_rows_inj width height i k i' k' (conj Hi Hk)
              (conj Hi' Hk') E). done.
Qed.

Lemma Marked_init (width height : Z) :
  0 <= width -> 0 <= height ->
  Marked (fun k i => k * width + i) height width (fun _ _ => false)
    (replicate (Z.to_nat (height * width)) (Some false)).
Proof.
  intros Hw Hh. split.
  - unfold arrlen. rewrite length_replicate. nia.
  - intros k i Hr. pose proof (index_rows_range _ _ _ _ Hr).
    unfold slotget, arrget. destruct (Z.ltb_spec (k * width + i) 0); [lia|].
    rewrite lookup_replicate_2 by lia. done.
Qed.

Lemma Marked_flip (width height : Z) (P : Z -> Z -> bool) (used : mask) :
  Marked (fun k i => k * width + i) height width P used
  <-> Marked (fun k i => i * width + k) width height (fun k i => P i k) used.
Proof.
  unfold Marked, inRange.
  split; intros [Hlen H]; (split; [lia|]); intros k i Hr; apply H; lia.
Qed.

(** Each pass of [render] is an instance of a scan. *)
Lemma drawHorizontalLines_scan (lines : list jsstring) (width height : Z)
    (st : mask * list piece) :
  drawHorizontalLines lines width height st
  = scanLines (fun y x => gridGet lines x y) isSolidHLine
      (fun y x => y * width + x)
      (fun a b y => Line ((a + 1) * SCALE) ((y + 1) * SCALE * ASPECT)
                         (b * SCALE) ((y + 1) * SCALE * ASPECT))
      height width st.
Proof. reflexivity. Qed.

Lemma drawVerticalLines_scan (lines : list jsstring) (width height : Z)
    (st : mask * list piece) :
  drawVerticalLines lines width height st
  = scanLines (fun x y => gridGet lines x y) isSolidVLine
      (fun x y => y * width + x)
      (fun a b x => Line ((x + 1) * SCALE) ((a + 1) * SCALE * ASPECT)
                         ((x + 1) * SCALE) (b * SCALE * ASPECT))
      width height st.
Proof. reflexivity. Qed.

Lemma drawArrowHeads_scan (lines : list jsstring) (width height : Z)
    (st : mask * list piece) :
  drawArrowHeads lines width height st
  = scanCells (fun y x => gridGet lines x y) isArrowHead
      (fun y x => y * width + x)
      (fun svg y x c => svg ++ [arrowAt y x c]) height width st.
Proof. reflexivity. Qed.

Lemma drawPoints_scan (lines : list jsstring) (width height : Z)
    (st : mask * list piece) :
  drawPoints lines width height st
  = scanCells (fun y x => gridGet lines x y) isPoint
      (fun y x => y * width + x)
      (fun svg y x c =>
         if c === js "*"
         then svg ++ [CircleFilled ((x + 1) * SCALE) ((y + 1) * SCALE * ASPECT)]
         else svg ++ [CircleHollow ((x + 1) * SCALE) ((y + 1) * SCALE * ASPECT)])
      height width st.
Proof. reflexivity. Qed.

Lemma drawText_scan (lines : list jsstring) (width height : Z)
    (used : mask) (svg : list piece) :
  drawText lines width height used svg
  = scanText (fun y x => gridGet lines x y) (fun y x => y * width + x)
      (fun c => negb (c === js " ") && negb (isVertex c))
      textAt height width used svg.
Proof. reflexivity. Qed.

(** ** The output of [render], piece by piece *)

Lemma pointAt_emit (svg : list piece) (y x : Z) (c : jsstring) :
  (if c === js "*"
   then svg ++ [CircleFilled ((x + 1) * SCALE) ((y + 1) * SCALE * ASPECT)]
   else svg ++ [CircleHollow ((x + 1) * SCALE) ((y + 1) * SCALE * ASPECT)])
  = svg ++ [pointAt y x c].
Proof. unfold pointAt. by destruct (c === js "*"). Qed.

(** [render] never raises and never runs out of iterations; its pieces are
    the header, one line per emitted run, the arrow heads, the points and
    the text group. *)
Theorem render_pieces_run (s : jsstring) :
  exists hruns vruns,
    render_pieces s = Ok (assemble s hruns vruns)
    /\ HRuns s hruns /\ VRuns s vruns.
Proof.
  unfold render_pieces. rewrite removeLeadingSpace_run. simpl.
  rewrite gridWidth_run. simpl.
  fold (gridLines s). fold (gridW s). fold (gridH s).
  set (lines := gridLines s). set (w := gridW s). set (h := gridH s).
  assert (Hw : 0 <= w) by apply max_width_nonneg.
  assert (Hh : 0 <= h) by apply gridHeight_bounds.
  rewrite used_init.
  pose proof (Marked_init w h Hw Hh) as HM0.
  (* horizontal lines *)
  rewrite drawHorizontalLines_scan.
  destruct (scanLines_run (fun y x => gridGet lines x y)
    (fun y x => cellAt lines x y) (fun y x => y * w + x) h w
    (fun y x => gridGet_run lines x y) Hh Hw
    (index_rows_range w h) (index_rows_inj w h) isSolidHLine
    (fun a b y => Line ((a + 1) * SCALE) ((y + 1) * SCALE * ASPECT)
                       (b * SCALE) ((y + 1) * SCALE * ASPECT))
    _ _ [SvgOpen ((w + 1) * SCALE) ((h + 1) * SCALE * ASPECT)] HM0)
    as ([used1 svg1] & -> & HM1 & hruns & Hsvg1 & HR1).
  cbn [fst snd] in HM1, Hsvg1. subst svg1. cbn [mbind outcome_bind].
  fold hline.
  (* vertical lines *)
  rewrite drawVerticalLines_scan.
  apply Marked_flip in HM1.
  destruct (scanLines_run (fun x y => gridGet lines x y)
    (fun x y => cellAt lines x y) (fun x y => y * w + x) w h
    (fun x y => gridGet_run lines x y) Hw Hh
    (index_cols_range w h) (index_cols_inj w h) isSolidVLine
    (fun a b x => Line ((x + 1) * SCALE) ((a + 1) * SCALE * ASPECT)
                       ((x + 1) * SCALE) (b * SCALE * ASPECT))
    _ _ ([SvgOpen ((w + 1) * SCALE) ((h + 1) * SCALE * ASPECT)]
         ++ (hline <$> hruns)) HM1)
    as ([used2 svg2] & -> & HM2 & vruns & Hsvg2 & HR2).
  cbn [fst snd] in HM2, Hsvg2. subst svg2. cbn [mbind outcome_bind].
  fold vline.
  apply (Marked_flip w h (fun y x =>
    isSolidHLine (cellAt lines x y) || isSolidVLine (cellAt lines x y)))
    in HM2.
  (* arrow heads *)
  rewrite drawArrowHeads_scan.
  destruct (scanCells_run (fun y x => gridGet lines x y)
    (fun y x => cellAt lines x y) (fun y x => y * w + x) h w
    (fun y x => gridGet_run lines x y) Hh Hw
    (index_rows_range w h) (index_rows_inj w h) isArrowHead
    (fun svg y x c => svg ++ [arrowAt y x c]) arrowAt _ used2
    (([SvgOpen ((w + 1) * SCALE) ((h + 1) * SCALE * ASPECT)]
      ++ (hline <$> hruns)) ++ (vline <$> vruns))
    (fun _ _ _ _ => eq_refl) HM2) as (used3 & -> & HM3).
  cbn [mbind outcome_bind].
  (* points *)
  rewrite drawPoints_scan.
  match goal with |- context [scanCells _ _ _ ?emit _ _ (_, ?svg)] =>
    destruct (scanCells_run (fun y x => gridGet lines x y)
      (fun y x => cellAt lines x y) (fun y x => y * w + x) h w
      (fun y x => gridGet_run lines x y) Hh Hw
      (index_rows_range w h) (index_rows_inj w h) isPoint
      emit pointAt _ used3 svg pointAt_emit HM3) as (used4 & -> & HM4)
  end.
  cbn [mbind outcome_bind].
  (* text *)
  rewrite drawText_scan.
  rewrite (scanText_run (fun y x => gridGet lines x y)
    (fun y x => cellAt lines x y) (fun y x => y * w + x) h w
    (fun y x => gridGet_run lines x y) Hh Hw _ _ _ _ _ HM4).
  cbn [mbind outcome_bind].
  exists hruns, vruns. split; [|done].
  f_equal. unfold assemble. rewrite <- !app_assoc. done.
Qed.

Lemma elem_of_cells (extent count : Z) (f : Z -> Z -> list piece) (p : piece) :
  p ∈ cellsUpto extent f 0 count
  <-> exists k i, 0 <= k < count /\ 0 <= i < extent /\ p ∈ f k i.
Proof.
  unfold cellsUpto. change (seqZ 0 0 ≫= f count) with (@nil piece).
  rewrite app_nil_r, list_elem_of_bind. split.
  - intros (k & Hp & Hk). apply list_elem_of_bind in Hp as (i & Hp & Hi).
    apply elem_of_seqZ in Hk, Hi. exists k, i. repeat split; (done || lia).
  - intros (k & i & Hk & Hi & Hp). exists k. split.
    + apply list_elem_of_bind. exists i. split; [done|].
      apply elem_of_seqZ. lia.
    + apply elem_of_seqZ. lia.
Qed.

Lemma elem_of_cells_if (extent count : Z) (cls : Z -> Z -> bool)
    (mk : Z -> Z -> piece) (p : piece) :
  p ∈ cellsUpto extent (fun k i => if cls k i then [mk k i] else []) 0 count
  <-> exists k i, 0 <= k < count /\ 0 <= i < extent
                  /\ cls k i = true /\ p = mk k i.
Proof.
  rewrite elem_of_cells. split.
  - intros (k & i & Hk & Hi & Hp). exists k, i.
    destruct (cls k i); [|by apply elem_of_nil in Hp].
    apply list_elem_of_singleton in Hp. done.
  - intros (k & i & Hk & Hi & Hc & ->). exists k, i. rewrite Hc.
    split; [done|]. split; [done|]. by apply list_elem_of_singleton.
Qed.

(** ** Examples *)

(** C9: the empty diagram gives a grid of width 0 and height 0, and the
    header for an 8 by 16 picture followed by an empty text group. *)
Theorem render_empty :
  render [] = Ok empty_output
  /\ render_pieces [] = Ok [SvgOpen 8 16; TextOpen; TextClose; SvgClose]
  /\ gridW [] = 0 /\ gridH [] = 0.
Proof. repeat split; vm_compute; reflexivity. Qed.

(** C8: [* -> o] gives one filled circle, one polygon rotated by 0, one
    hollow circle, no line and no text. *)
Theorem render_arrow :
  render (js "* -> o") = Ok arrow_output
  /\ render_pieces (js "* -> o")
     = Ok [SvgOpen 56 32; Polygon 40 16 28 13 19 0 32 16;
           CircleFilled 8 16; CircleHollow 48 16;
           TextOpen; TextClose; SvgClose].
Proof. split; vm_compute; reflexivity. Qed.

(** The two boxes joined by an arrow: a line for every border segment and
    for the arrow shaft, one arrow head, no text. *)
Example render_boxes :
  render_pieces (js "+-----+     +-----+" ++ LF
                 ++ js "|     |---->|     |" ++ LF
                 ++ js "+-----+     +-----+")
  = Ok [SvgOpen 160 64;
        Line 8 16 56 16; Line 104 16 152 16; Line 64 32 88 32;
        Line 8 48 56 48; Line 104 48 152 48;
        Line 8 16 8 48; Line 56 16 56 48; Line 104 16 104 48;
        Line 152 16 152 48;
        Polygon 104 32 92 29 35 0 96 32;
        TextOpen; TextClose; SvgClose].
Proof. vm_compute. reflexivity. Qed.

(** ** Geometry *)


Lemma elem_of_body (hl vl ar pt tx : list piece) (p : piece) :
  p ∈ hl ++ vl ++ ar ++ pt ++ [TextOpen] ++ tx ++ [TextClose; SvgClose]
  <-> p ∈ hl \/ p ∈ vl \/ p ∈ ar \/ p ∈ pt \/ p = TextOpen \/ p ∈ tx
      \/ p = TextClose \/ p = SvgClose.
Proof.
  rewrite !elem_of_app, !elem_of_cons, !elem_of_nil. tauto.
Qed.





(** ** Which cells a piece covers *)

Ltac bool_to_Prop :=
  repeat first
    [ rewrite andb_true_iff | rewrite Z.leb_le | rewrite Z.eqb_eq
    | rewrite Z.ltb_lt ].

Lemma covers_hline (a b k x y : Z) :
  covers (hline (a, b, k)) x y = true <-> y = k /\ a <= x < b.
Proof.
  unfold covers, hline, run_piece, center, SCALE, ASPECT. cbn [fst snd].
  bool_to_Prop. lia.
Qed.

Lemma covers_vline (a b k x y : Z) :
  covers (vline (a, b, k)) x y = true <-> x = k /\ a <= y < b.
Proof.
  unfold covers, vline, run_piece, center, SCALE, ASPECT. cbn [fst snd].
  bool_to_Prop. lia.
Qed.

Lemma covers_arrowAt (y0 x0 : Z) (c : jsstring) (x y : Z) :
  covers (arrowAt y0 x0 c) x y = true <-> x = x0 /\ y = y0.
Proof.
  unfold covers, arrowAt, center, SCALE, ASPECT. cbn [fst snd].
  bool_to_Prop. lia.
Qed.

Lemma covers_pointAt (y0 x0 : Z) (c : jsstring) (x y : Z) :
  covers (pointAt y0 x0 c) x y = true <-> x = x0 /\ y = y0.
Proof.
  unfold pointAt. destruct (_ === _);
    unfold covers, center, SCALE, ASPECT; cbn [fst snd];
    bool_to_Prop; lia.
Qed.

Lemma covers_textAt (y0 x0 : Z) (c : jsstring) (x y : Z) :
  covers (textAt y0 x0 c) x y = true <-> x = x0 /\ y = y0.
Proof.
  unfold covers, textAt, center, SCALE, ASPECT. cbn [fst snd].
  bool_to_Prop. lia.
Qed.

Lemma isHorizontal_hline (a b k : Z) :
  a + 2 <= b -> isHorizontal (hline (a, b, k)) = true.
Proof.
  intros H. unfold isHorizontal, hline, run_piece, SCALE, ASPECT.
  bool_to_Prop. lia.
Qed.

Lemma isVertical_vline (a b k : Z) :
  a + 2 <= b -> isVertical (vline (a, b, k)) = true.
Proof.
  intros H. unfold isVertical, vline, run_piece, SCALE, ASPECT.
  bool_to_Prop. lia.
Qed.

(** ** Character classes *)

Ltac classes :=
  unfold isText, isShape, isSolidHLine, isSolidVLine, isArrowHead, isPoint,
    isVertex, str_eq in *;
  repeat (case_bool_decide; simplify_eq; simpl in *; try done).

Lemma solid_both (c : jsstring) :
  isSolidHLine c = true -> isSolidVLine c = true -> c = js "+".
Proof. classes. Qed.

Lemma solidH_class (c : jsstring) :
  isSolidHLine c = true ->
  isArrowHead c = false /\ isPoint c = false /\ isText c = false.
Proof. classes. Qed.

Lemma solidV_class (c : jsstring) :
  isSolidVLine c = true ->
  isArrowHead c = false /\ isPoint c = false /\ isText c = false.
Proof. classes. Qed.

Lemma arrow_class (c : jsstring) :
  isArrowHead c = true -> isPoint c = false /\ isText c = false.
Proof. classes. Qed.

Lemma point_class (c : jsstring) : isPoint c = true -> isText c = false.
Proof. classes. Qed.

(** ** Pieces that cover a common cell *)

Lemma FOP_app {A} (R : A -> A -> Prop) (l k : list A) :
  ForallOrdPairs R l -> ForallOrdPairs R k ->
  (forall a b, a ∈ l -> b ∈ k -> R a b) ->
  ForallOrdPairs R (l ++ k).
Proof.
  induction 1 as [|a l Ha _ IH]; intros Hk Hlk; simpl; [done|].
  constructor.
  - apply Forall_app. split; [done|].
    apply list.Forall_forall. intros b Hb. apply Hlk; [apply list_elem_of_here|done].
  - apply IH; [done|]. intros a' b Ha' Hb.
    apply Hlk; [by apply list_elem_of_further|done].
Qed.

Lemma FOP_NoDup {A} (R : A -> A -> Prop) (l : list A) :
  NoDup l -> (forall a b, a ∈ l -> b ∈ l -> a <> b -> R a b) ->
  ForallOrdPairs R l.
Proof.
  induction 1 as [|a l Ha _ IH]; intros H; constructor.
  - apply list.Forall_forall. intros b Hb.
    apply H; [apply list_elem_of_here|by apply list_elem_of_further|].
    intros ->. done.
  - apply IH. intros b c Hb Hc.
    apply H; by apply list_elem_of_further.
Qed.

Lemma FOP_fmap {A B} (f : A -> B) (R1 : A -> A -> Prop)
    (R2 : B -> B -> Prop) (l : list A) :
  (forall a b, a ∈ l -> b ∈ l -> R1 a b -> R2 (f a) (f b)) ->
  ForallOrdPairs R1 l -> ForallOrdPairs R2 (f <$> l).
Proof.
  intros H HR. induction HR as [|a l Ha _ IH]; simpl; constructor.
  - apply Forall_fmap. apply list.Forall_forall. intros b Hb. simpl.
    apply H; [apply list_elem_of_here|by apply list_elem_of_further|].
    rewrite list.Forall_forall in Ha. by apply Ha.
  - apply IH. intros a' b Ha' Hb.
    apply H; by apply list_elem_of_further.
Qed.

Section Cover.
Variable lines : list jsstring.
Variables width height : Z.

Lemma cells_inj (mk : Z -> Z -> jsstring -> piece) :
  (forall y0 x0 c x y, covers (mk y0 x0 c) x y = true <-> x = x0 /\ y = y0) ->
  forall y1 x1 c1 y2 x2 c2,
    mk y1 x1 c1 = mk y2 x2 c2 -> y1 = y2 /\ x1 = x2.
Proof.
  intros Hmk y1 x1 c1 y2 x2 c2 E.
  assert (H : covers (mk y1 x1 c1) x1 y1 = true) by by apply Hmk.
  rewrite E in H. apply Hmk in H. lia.
Qed.

(** The pieces of a cell scan are pairwise distinct, and a piece covers
    exactly the cell it was appended for. *)
Lemma cells_NoDup (cls : jsstring -> bool)
    (mk : Z -> Z -> jsstring -> piece) :
  (forall y0 x0 c x y, covers (mk y0 x0 c) x y = true <-> x = x0 /\ y = y0) ->
  NoDup (cellsUpto width (fun y x =>
    if cls (cellAt lines x y) then [mk y x (cellAt lines x y)] else [])
    0 height).
Proof.
  intros Hmk. pose proof (cells_inj mk Hmk) as Hinj.
  unfold cellsUpto. change (seqZ 0 0 ≫= _) with (@nil piece).
  rewrite app_nil_r. apply NoDup_bind; [| |apply NoDup_seqZ].
  - intros y1 y2 p _ _ H1 H2.
    apply list_elem_of_bind in H1 as (x1 & H1 & _).
    apply list_elem_of_bind in H2 as (x2 & H2 & _).
    destruct (cls (cellAt lines x1 y1)); [|by apply elem_of_nil in H1].
    destruct (cls (cellAt lines x2 y2)); [|by apply elem_of_nil in H2].
    apply list_elem_of_singleton in H1, H2. subst p.
    by apply Hinj in H2 as [? ?].
  - intros y _. apply NoDup_bind; [| |apply NoDup_seqZ].
    + intros x1 x2 p _ _ H1 H2.
      destruct (cls (cellAt lines x1 y)); [|by apply elem_of_nil in H1].
      destruct (cls (cellAt lines x2 y)); [|by apply elem_of_nil in H2].
      apply list_elem_of_singleton in H1, H2. subst p.
      by apply Hinj in H2 as [? ?].
    + intros x _. destruct (cls _); [apply NoDup_singleton|apply NoDup_nil_2].
Qed.

Lemma cells_cover (cls : jsstring -> bool)
    (mk : Z -> Z -> jsstring -> piece) (p : piece) (x y : Z) :
  (forall y0 x0 c x y, covers (mk y0 x0 c) x y = true <-> x = x0 /\ y = y0) ->
  p ∈ cellsUpto width (fun y x =>
    if cls (cellAt lines x y) then [mk y x (cellAt lines x y)] else [])
    0 height ->
  covers p x y = true ->
  cls (cellAt lines x y) = true /\ p = mk y x (cellAt lines x y).
Proof.
  intros Hmk Hp Hc.
  apply (elem_of_cells_if width height
    (fun y x => cls (cellAt lines x y))
    (fun y x => mk y x (cellAt lines x y))) in Hp
    as (y0 & x0 & _ & _ & Hcls & ->).
  apply Hmk in Hc as [-> ->]. done.
Qed.

Lemma cells_exclusive (cls : jsstring -> bool)
    (mk : Z -> Z -> jsstring -> piece) :
  (forall y0 x0 c x y, covers (mk y0 x0 c) x y = true <-> x = x0 /\ y = y0) ->
  ForallOrdPairs (only_crossing lines) (cellsUpto width (fun y x =>
    if cls (cellAt lines x y) then [mk y x (cellAt lines x y)] else [])
    0 height).
Proof.
  intros Hmk. apply FOP_NoDup; [by apply cells_NoDup|].
  intros p q Hp Hq Hne x y Hcp Hcq. exfalso. apply Hne.
  destruct (cells_cover cls mk p x y Hmk Hp Hcp) as [_ ->].
  destruct (cells_cover cls mk q x y Hmk Hq Hcq) as [_ ->]. done.
Qed.

(** The lines of the horizontal runs. *)
Lemma hline_cover (runs : list run) (p : piece) (x y : Z) :
  Forall (run_ok (fun y x => cellAt lines x y) height width isSolidHLine)
    runs ->
  p ∈ hline <$> runs -> covers p x y = true ->
  isSolidHLine (cellAt lines x y) = true /\ isHorizontal p = true
  /\ exists a b, a <= x < b /\ a + 2 <= b
       /\ forall i, a <= i < b -> isSolidHLine (cellAt lines i y) = true.
Proof.
  intros Hok Hp Hc. apply list_elem_of_fmap in Hp as ([[a b] k] & -> & Hr).
  rewrite list.Forall_forall in Hok. apply Hok in Hr as (Ha & Hb & Hk & Hsolid).
  apply covers_hline in Hc as [-> Hx]. split; [by apply Hsolid|].
  split; [apply isHorizontal_hline; lia|]. exists a, b. repeat split; try lia.
  done.
Qed.

Lemma vline_cover (runs : list run) (p : piece) (x y : Z) :
  Forall (run_ok (fun x y => cellAt lines x y) width height isSolidVLine)
    runs ->
  p ∈ vline <$> runs -> covers p x y = true ->
  isSolidVLine (cellAt lines x y) = true /\ isVertical p = true
  /\ exists a b, a <= y < b /\ a + 2 <= b
       /\ forall i, a <= i < b -> isSolidVLine (cellAt lines x i) = true.
Proof.
  intros Hok Hp Hc. apply list_elem_of_fmap in Hp as ([[a b] k] & -> & Hr).
  rewrite list.Forall_forall in Hok. apply Hok in Hr as (Ha & Hb & Hk & Hsolid).
  apply covers_vline in Hc as [-> Hx]. split; [by apply Hsolid|].
  split; [apply isVertical_vline; lia|]. exists a, b. repeat split; try lia.
  done.
Qed.

Lemma hline_exclusive (runs : list run) :
  ForallOrdPairs run_lt runs ->
  ForallOrdPairs (only_crossing lines) (hline <$> runs).
Proof.
  apply FOP_fmap. intros [[a1 b1] k1] [[a2 b2] k2] _ _ Hlt x y H1 H2.
  apply covers_hline in H1, H2. unfold run_lt in Hlt. lia.
Qed.

Lemma vline_exclusive (runs : list run) :
  ForallOrdPairs run_lt runs ->
  ForallOrdPairs (only_crossing lines) (vline <$> runs).
Proof.
  apply FOP_fmap. intros [[a1 b1] k1] [[a2 b2] k2] _ _ Hlt x y H1 H2.
  apply covers_vline in H1, H2. unfold run_lt in Hlt. lia.
Qed.
End Cover.

Lemma FOP_filter_le1 {A} (R : A -> A -> Prop) (P : A -> bool) (l : list A) :
  ForallOrdPairs R l ->
  (forall a b, P a = true -> P b = true -> R a b -> False) ->
  (length (List.filter P l) <= 1)%nat.
Proof.
  intros HR Hex. induction HR as [|a l Ha _ IH]; simpl; [lia|].
  destruct (P a) eqn:Ea; [|done]. simpl.
  assert (E : List.filter P l = []); [|rewrite E; simpl; lia].
  clear IH. induction Ha as [|b l Hb _ IH]; simpl; [done|].
  destruct (P b) eqn:Eb; [|done]. exfalso. eauto.
Qed.

(** The pieces of the whole output, given what each group covers. *)
Lemma body_exclusive (lines : list jsstring) (first : piece)
    (hl vl ar pt tx : list piece) :
  let R := only_crossing lines in
  (forall x y, covers first x y = false) ->
  ForallOrdPairs R hl -> ForallOrdPairs R vl -> ForallOrdPairs R ar ->
  ForallOrdPairs R pt -> ForallOrdPairs R tx ->
  (forall p x y, p ∈ hl -> covers p x y = true ->
     isSolidHLine (cellAt lines x y) = true /\ isHorizontal p = true) ->
  (forall p x y, p ∈ vl -> covers p x y = true ->
     isSolidVLine (cellAt lines x y) = true /\ isVertical p = true) ->
  (forall p x y, p ∈ ar -> covers p x y = true ->
     isArrowHead (cellAt lines x y) = true) ->
  (forall p x y, p ∈ pt -> covers p x y = true ->
     isPoint (cellAt lines x y) = true) ->
  (forall p x y, p ∈ tx -> covers p x y = true ->
     isText (cellAt lines x y) = true) ->
  ForallOrdPairs R
    ([first] ++ hl ++ vl ++ ar ++ pt ++ [TextOpen] ++ tx
     ++ [TextClose; SvgClose]).
Proof.
  intros R Hfirst Fhl Fvl Far Fpt Ftx Hhl Hvl Har Hpt Htx.
  assert (Fend : ForallOrdPairs R [TextClose; SvgClose]).
  { constructor; [|repeat constructor].
    constructor; [|done]. intros ? ? Hc. done. }
  assert (Fopen : ForallOrdPairs R [TextOpen]) by repeat constructor.
  assert (Ffirst : ForallOrdPairs R [first]) by repeat constructor.
  repeat (apply FOP_app; [done| |]); try done;
    intros a b Ha Hb x y Hca Hcb;
    repeat match goal with
    | H : _ ∈ _ ++ _ |- _ => apply elem_of_app in H as [H|H]
    | H : _ ∈ _ :: _ |- _ => apply elem_of_cons in H as [->|H]
    | H : _ ∈ [] |- _ => by apply elem_of_nil in H
    end;
    try (by rewrite Hfirst in Hca); try done;
    repeat match goal with
    | H : ?p ∈ hl, Hc : covers ?p _ _ = true |- _ =>
        destruct (Hhl _ _ _ H Hc); clear H
    | H : ?p ∈ vl, Hc : covers ?p _ _ = true |- _ =>
        destruct (Hvl _ _ _ H Hc); clear H
    | H : ?p ∈ ar, Hc : covers ?p _ _ = true |- _ =>
        pose proof (Har _ _ _ H Hc); clear H
    | H : ?p ∈ pt, Hc : covers ?p _ _ = true |- _ =>
        pose proof (Hpt _ _ _ H Hc); clear H
    | H : ?p ∈ tx, Hc : covers ?p _ _ = true |- _ =>
        pose proof (Htx _ _ _ H Hc); clear H
    end;
    repeat match goal with
    | H : isSolidHLine ?c = true, H' : isSolidVLine ?c = true |- _ =>
        by (split; [|split]; [| |apply solid_both])
    | H : isSolidHLine ?c = true |- _ =>
        destruct (solidH_class _ H) as (? & ? & ?); congruence
    | H : isSolidVLine ?c = true |- _ =>
        destruct (solidV_class _ H) as (? & ? & ?); congruence
    | H : isArrowHead ?c = true |- _ =>
        destruct (arrow_class _ H) as (? & ?); congruence
    | H : isPoint ?c = true |- _ =>
        pose proof (point_class _ H); congruence
    end.
Qed.

(** C2, as amended: two emitted pieces cover a common cell only as a
    horizontal line crossing a vertical line at a [+]; a cell that is not a
    [+] is covered by at most one piece. *)
Theorem render_exclusive (s : jsstring) :
  exists pieces,
    render_pieces s = Ok pieces
    /\ ForallOrdPairs (only_crossing (gridLines s)) pieces
    /\ forall x y, cellAt (gridLines s) x y <> js "+" ->
         (length (List.filter (fun p => covers p x y) pieces) <= 1)%nat.
Proof.
  destruct (render_pieces_run s) as (hruns & vruns & Hrun & HH & HV).
  destruct HH as (HHok & _ & HHlt). destruct HV as (HVok & _ & HVlt).
  exists (assemble s hruns vruns). split; [done|].
  assert (HF : ForallOrdPairs (only_crossing (gridLines s))
                 (assemble s hruns vruns)).
  { unfold assemble. apply body_exclusive.
    - done.
    - by apply hline_exclusive.
    - by apply vline_exclusive.
    - apply cells_exclusive, covers_arrowAt.
    - apply cells_exclusive, covers_pointAt.
    - apply cells_exclusive, covers_textAt.
    - intros p x y Hp Hc.
      destruct (hline_cover _ _ _ _ _ _ _ HHok Hp Hc) as (? & ? & _). done.
    - intros p x y Hp Hc.
      destruct (vline_cover _ _ _ _ _ _ _ HVok Hp Hc) as (? & ? & _). done.
    - intros p x y Hp Hc.
      by destruct (cells_cover _ _ _ _ _ _ _ _ covers_arrowAt Hp Hc).
    - intros p x y Hp Hc.
      by destruct (cells_cover _ _ _ _ _ _ _ _ covers_pointAt Hp Hc).
    - intros p x y Hp Hc.
      by destruct (cells_cover _ _ _ _ _ _ _ _ covers_textAt Hp Hc). }
  split; [done|]. intros x y Hne.
  apply (FOP_filter_le1 _ _ _ HF). intros a b Ha Hb Hab.
  destruct (Hab x y Ha Hb) as (_ & _ & Hplus). done.
Qed.

(** C2, as stated, fails at a corner: the [+] of [corner_input] is covered
    by the horizontal and by the vertical line. *)
Lemma corner_covered_twice :
  exists pieces,
    render_pieces corner_input = Ok pieces
    /\ (length (List.filter (fun p => covers p 0 0) pieces) > 1)%nat.
Proof.
  exists [SvgOpen 24 48; Line 8 16 16 16; Line 8 16 8 32;
          TextOpen; TextClose; SvgClose].
  split; [vm_compute; reflexivity|]. vm_compute. lia.
Qed.

(** C3: a [-] with no line character to its left or right, or a [|] with
    none above or below, is covered by no piece of the output: no line, and
    no text either. *)
Theorem lone_line_vanishes (s : jsstring) (x y : Z) :
  (cellAt (gridLines s) x y = js "-"
   /\ isSolidHLine (cellAt (gridLines s) (x - 1) y) = false
   /\ isSolidHLine (cellAt (gridLines s) (x + 1) y) = false)
  \/ (cellAt (gridLines s) x y = js "|"
      /\ isSolidVLine (cellAt (gridLines s) x (y - 1)) = false
      /\ isSolidVLine (cellAt (gridLines s) x (y + 1)) = false) ->
  exists pieces,
    render_pieces s = Ok pieces
    /\ forall p, p ∈ pieces -> covers p x y = false.
Proof.
  intros Hlone.
  destruct (render_pieces_run s) as (hruns & vruns & Hrun & HH & HV).
  destruct HH as (HHok & _ & _). destruct HV as (HVok & _ & _).
  exists (assemble s hruns vruns). split; [done|]. intros p Hp.
  destruct (covers p x y) eqn:Hc; [exfalso|done].
  unfold assemble in Hp. apply elem_of_app in Hp as [Hp|Hp].
  { apply list_elem_of_singleton in Hp as ->. done. }
  apply elem_of_body in Hp as [Hp|[Hp|[Hp|[Hp|[->|[Hp|[->| ->]]]]]]];
    try done.
  - destruct (hline_cover _ _ _ _ _ _ _ HHok Hp Hc)
      as (Hs & _ & a & b & Hx & Hab & Hsolid).
    destruct Hlone as [(Hcell & Hl & Hr)|(Hcell & _ & _)].
    + destruct (decide (a < x)).
      * rewrite Hsolid in Hl by lia. done.
      * rewrite Hsolid in Hr by lia. done.
    + rewrite Hcell in Hs. done.
  - destruct (vline_cover _ _ _ _ _ _ _ HVok Hp Hc)
      as (Hs & _ & a & b & Hy & Hab & Hsolid).
    destruct Hlone as [(Hcell & _ & _)|(Hcell & Hu & Hd)].
    + rewrite Hcell in Hs. done.
    + destruct (decide (a < y)).
      * rewrite Hsolid in Hu by lia. done.
      * rewrite Hsolid in Hd by lia. done.
  - destruct (cells_cover _ _ _ _ _ _ _ _ covers_arrowAt Hp Hc) as [Hs _].
    destruct Hlone as [(Hcell & _)|(Hcell & _)]; rewrite Hcell in Hs; done.
  - destruct (cells_cover _ _ _ _ _ _ _ _ covers_pointAt Hp Hc) as [Hs _].
    destruct Hlone as [(Hcell & _)|(Hcell & _)]; rewrite Hcell in Hs; done.
  - destruct (cells_cover _ _ _ _ _ _ _ _ covers_textAt Hp Hc) as [Hs _].
    destruct Hlone as [(Hcell & _)|(Hcell & _)]; rewrite Hcell in Hs; done.
Qed.

Lemma lone_line_vanishes_witness :
  (cellAt (gridLines (js "a-b")) 1 0 = js "-"
   /\ isSolidHLine (cellAt (gridLines (js "a-b")) (1 - 1) 0) = false
   /\ isSolidHLine (cellAt (gridLines (js "a-b")) (1 + 1) 0) = false)
  /\ exists pieces,
       render_pieces (js "a-b") = Ok pieces
       /\ forall p, p ∈ pieces -> covers p 1 0 = false.
Proof.
  split.
  - vm_compute. repeat split; reflexivity.
  - apply (lone_line_vanishes (js "a-b") 1 0). left.
    vm_compute. repeat split; reflexivity.
Defined.

(** ** Well-formed XML holds legal characters only *)

Lemma xml_text_elem (name : jsstring) (attrs : attributes)
    (children : list xml) :
  xml_text (XElem name attrs children)
  = js "<" ++ name ++ attrs_text attrs ++ js ">" ++ xmls_text children
    ++ js "</" ++ name ++ js ">".
Proof.
  cbn [xml_text]. do 5 f_equal. unfold xmls_text.
  induction children as [|t ts IH]; [done|].
  rewrite fmap_cons, concat_cons, <- IH. done.
Qed.

Lemma xml_wf_elem (name : jsstring) (attrs : attributes)
    (children : list xml) :
  xml_wf (XElem name attrs children)
  = isName name && attrs_wf attrs && xmls_wf children.
Proof.
  cbn [xml_wf]. f_equal.
Qed.

Lemma nameChar_xmlChar (c : N) : nameChar c = true -> xmlChar c = true.
Proof.
  unfold nameChar, nameStartChar, xmlChar.
  rewrite !orb_true_iff, !andb_true_iff, !N.leb_le, !N.eqb_eq. lia.
Qed.

Lemma isName_xmlChar (name : jsstring) :
  isName name = true -> forallb xmlChar name = true.
Proof.
  destruct name as [|c r]; [done|]. simpl. intros H.
  apply andb_true_iff in H as [Hc Hr]. apply andb_true_iff. split.
  - apply nameChar_xmlChar. unfold nameChar. by rewrite Hc.
  - rewrite forallb_forall in *. intros d Hd. by apply nameChar_xmlChar, Hr.
Qed.

Lemma forallb_weaken {A} (f g : A -> bool) (l : list A) :
  (forall a, f a = true -> g a = true) ->
  forallb f l = true -> forallb g l = true.
Proof.
  intros H. rewrite !forallb_forall. intros Hf a Ha. by apply H, Hf.
Qed.

Lemma isEntity_xmlChar (name : jsstring) :
  isEntity name = true -> forallb xmlChar name = true.
Proof.
  unfold isEntity, str_eq. intros H.
  repeat (case_bool_decide; [by subst|]). done.
Qed.

Lemma attrs_xmlChar (attrs : attributes) :
  attrs_wf attrs = true -> forallb xmlChar (attrs_text attrs) = true.
Proof.
  unfold attrs_wf, attrs_text. intros H. apply andb_true_iff in H as [H _].
  induction attrs as [|[n v] attrs IH]; [done|].
  simpl in H. apply andb_true_iff in H as [Ha H].
  apply andb_true_iff in Ha as [Hn Hv].
  rewrite fmap_cons, concat_cons. cbn [fst snd].
  rewrite !forallb_app, IH by done.
  rewrite (isName_xmlChar _ Hn).
  rewrite (forallb_weaken attValueChar xmlChar v); [done| |done].
  unfold attValueChar. intros c Hc.
  by repeat (apply andb_true_iff in Hc as [Hc _]).
Qed.

Lemma xml_wf_xmlChar (t : xml) :
  xml_wf t = true -> forallb xmlChar (xml_text t) = true.
Proof.
  revert t. fix IH 1. intros [s|name|name attrs|name attrs children].
  - apply forallb_weaken. unfold charDataChar. intros c Hc.
    by repeat (apply andb_true_iff in Hc as [Hc _]).
  - simpl. intros H. rewrite forallb_app, (isEntity_xmlChar _ H). done.
  - simpl. intros H. apply andb_true_iff in H as [Hn Ha].
    rewrite !forallb_app, (isName_xmlChar _ Hn), (attrs_xmlChar _ Ha). done.
  - rewrite xml_text_elem, xml_wf_elem. intros H.
    apply andb_true_iff in H as [H Hc]. apply andb_true_iff in H as [Hn Ha].
    change (js "<" ++ ?r) with (60%N :: r). cbn [forallb].
    rewrite !forallb_app, (isName_xmlChar _ Hn), (attrs_xmlChar _ Ha).
    assert (Hch : forallb xmlChar (xmls_text children) = true).
    { clear Hn Ha. unfold xmls_text, xmls_wf in *.
      induction children as [|c ts IHts]; [done|].
      simpl in Hc. apply andb_true_iff in Hc as [Hc Hts].
      rewrite fmap_cons, concat_cons, forallb_app.
      rewrite (IH c Hc), (IHts Hts). done. }
    rewrite Hch. done.
Qed.

Lemma valid_svg_xmlChar (out : jsstring) :
  valid_svg out -> forallb xmlChar out = true.
Proof. intros (attrs & children & -> & Hwf & _). by apply xml_wf_xmlChar. Qed.

(** C1, as stated, fails on a control character: the output for
    [control_input] holds U+0001 in a text element, which no XML document
    may contain. *)
Lemma control_character_invalid :
  exists out, render control_input = Ok out /\ ~ valid_svg out.
Proof.
  eexists. split; [vm_compute; reflexivity|].
  intros H. apply valid_svg_xmlChar in H. vm_compute in H. done.
Qed.

(** ** The pieces are well-formed elements *)

Ltac flat := repeat (rewrite <- ?app_assoc; simpl).

Lemma line_text (x1 y1 x2 y2 : Z) :
  piece_text (Line x1 y1 x2 y2) = xml_text (line_xml x1 y1 x2 y2) ++ LF.
Proof.
  unfold piece_text, line_xml, xml_text, attrs_text, num_attr, lit_attr.
  generalize (numToString x1) (numToString y1) (numToString x2)
    (numToString y2). intros. flat. reflexivity.
Qed.

Lemma polygon_text (tipX tipY backX upY dnY angle cx cy : Z) :
  piece_text (Polygon tipX tipY backX upY dnY angle cx cy)
  = xml_text (polygon_xml tipX tipY backX upY dnY angle cx cy) ++ LF.
Proof.
  unfold piece_text, polygon_xml, xml_text, attrs_text, num_attr, lit_attr.
  generalize (numToString tipX) (numToString tipY) (numToString backX)
    (numToString upY) (numToString dnY) (numToString angle)
    (numToString cx) (numToString cy). intros. flat. reflexivity.
Qed.

Lemma circleFilled_text (cx cy : Z) :
  piece_text (CircleFilled cx cy) = xml_text (circle_xml cx cy true) ++ LF.
Proof.
  unfold piece_text, circle_xml, xml_text, attrs_text, num_attr, lit_attr.
  generalize (numToString cx) (numToString cy). intros. flat. reflexivity.
Qed.

Lemma circleHollow_text (cx cy : Z) :
  piece_text (CircleHollow cx cy) = xml_text (circle_xml cx cy false) ++ LF.
Proof.
  unfold piece_text, circle_xml, xml_text, attrs_text, num_attr, lit_attr.
  generalize (numToString cx) (numToString cy). intros. flat. reflexivity.
Qed.

Lemma unit_xml_text (c : N) : xml_text (unit_xml c) = escape_unit c.
Proof. unfold unit_xml, escape_unit. by repeat destruct (_ =? _)%N. Qed.

Lemma text_text (px py : Z) (c : N) :
  piece_text (Text px py (escape_unit c)) = xml_text (text_xml px py c) ++ LF.
Proof.
  unfold text_xml. rewrite xml_text_elem. unfold xmls_text.
  rewrite fmap_cons, concat_cons, unit_xml_text.
  unfold piece_text, attrs_text, num_attr.
  generalize (numToString px) (numToString py) (escape_unit c).
  intros. flat. reflexivity.
Qed.

(** Numbers print as digits, with a sign when negative. *)
Lemma uint_chars (d : Decimal.uint) :
  forallb numChar (js (NilEmpty.string_of_uint d)) = true.
Proof. induction d; simpl; done. Qed.

Lemma numToString_chars (z : Z) : forallb numChar (numToString z) = true.
Proof.
  unfold numToString. destruct (Z.to_int z) as [d|d]; simpl.
  - destruct d; try apply uint_chars. done.
  - destruct d; try apply uint_chars. done.
Qed.

Lemma numChar_attValue (c : N) : numChar c = true -> attValueChar c = true.
Proof.
  unfold numChar, attValueChar, xmlChar.
  rewrite !orb_true_iff, !andb_true_iff, !negb_true_iff, !orb_true_iff,
    !andb_true_iff, !N.leb_le, !N.eqb_eq, !N.eqb_neq. lia.
Qed.

Lemma numToString_attValue (z : Z) :
  forallb attValueChar (numToString z) = true.
Proof.
  apply (forallb_weaken numChar); [apply numChar_attValue|].
  apply numToString_chars.
Qed.

Lemma line_wf (x1 y1 x2 y2 : Z) : xml_wf (line_xml x1 y1 x2 y2) = true.
Proof.
  unfold line_xml, xml_wf, attrs_wf, num_attr, lit_attr. cbn [forallb fst snd].
  rewrite !numToString_attValue. reflexivity.
Qed.

Lemma polygon_wf (tipX tipY backX upY dnY angle cx cy : Z) :
  xml_wf (polygon_xml tipX tipY backX upY dnY angle cx cy) = true.
Proof.
  unfold polygon_xml, xml_wf, attrs_wf, num_attr, lit_attr.
  cbn [forallb fst snd]. rewrite !forallb_app, !numToString_attValue.
  reflexivity.
Qed.

Lemma circle_wf (cx cy : Z) (filled : bool) :
  xml_wf (circle_xml cx cy filled) = true.
Proof.
  unfold circle_xml, xml_wf, attrs_wf, num_attr, lit_attr.
  destruct filled; cbn [forallb fst snd app];
    rewrite !numToString_attValue; reflexivity.
Qed.

Lemma unit_xml_wf (c : N) : xmlChar c = true -> xml_wf (unit_xml c) = true.
Proof.
  intros Hc. unfold unit_xml.
  destruct (N.eqb_spec c 38); [done|]. destruct (N.eqb_spec c 60); [done|].
  destruct (N.eqb_spec c 62); [done|]. destruct (N.eqb_spec c 34); [done|].
  simpl. unfold charDataChar. rewrite Hc. simpl.
  rewrite andb_true_r, !andb_true_iff, !negb_true_iff, !N.eqb_neq. done.
Qed.

Lemma text_wf (px py : Z) (c : N) :
  xmlChar c = true -> xml_wf (text_xml px py c) = true.
Proof.
  intros Hc. unfold text_xml. rewrite xml_wf_elem.
  unfold xmls_wf, attrs_wf, num_attr. cbn [forallb fst snd].
  rewrite !numToString_attValue, (unit_xml_wf c Hc). reflexivity.
Qed.

(** ** Well-formed content *)

Lemma content_nil : xml_content [].
Proof. by exists []. Qed.

Lemma content_app (a b : jsstring) :
  xml_content a -> xml_content b -> xml_content (a ++ b).
Proof.
  intros (ta & -> & Ha) (tb & -> & Hb). exists (ta ++ tb).
  unfold xmls_text, xmls_wf in *.
  by rewrite fmap_app, concat_app, forallb_app, Ha, Hb.
Qed.

Lemma content_node (t : xml) : xml_wf t = true -> xml_content (xml_text t).
Proof.
  intros H. exists [t]. unfold xmls_text, xmls_wf. simpl.
  by rewrite app_nil_r, H.
Qed.

Lemma content_LF : xml_content LF.
Proof. apply (content_node (XText LF)). reflexivity. Qed.

Lemma content_flatten (l : list piece) :
  Forall (fun p => xml_content (piece_text p)) l -> xml_content (flatten l).
Proof.
  unfold flatten. induction 1 as [|p l Hp _ IH]; [apply content_nil|].
  rewrite fmap_cons, concat_cons. by apply content_app.
Qed.

Lemma content_shape (p : piece) :
  isShapePiece p = true -> xml_content (piece_text p).
Proof.
  destruct p; try done; intros _.
  - rewrite line_text. apply content_app; [|apply content_LF].
    apply content_node, line_wf.
  - rewrite polygon_text. apply content_app; [|apply content_LF].
    apply content_node, polygon_wf.
  - rewrite circleFilled_text. apply content_app; [|apply content_LF].
    apply content_node, circle_wf.
  - rewrite circleHollow_text. apply content_app; [|apply content_LF].
    apply content_node, circle_wf.
Qed.

Lemma content_text (px py : Z) (c : N) :
  xmlChar c = true -> xml_content (piece_text (Text px py (escape_unit c))).
Proof.
  intros Hc. rewrite text_text. apply content_app; [|apply content_LF].
  by apply content_node, text_wf.
Qed.

Lemma xmls_text_app (a b : list xml) :
  xmls_text (a ++ b) = xmls_text a ++ xmls_text b.
Proof. unfold xmls_text. by rewrite fmap_app, concat_app. Qed.

Lemma xmls_text_cons (t : xml) (ts : list xml) :
  xmls_text (t :: ts) = xml_text t ++ xmls_text ts.
Proof. done. Qed.

(** The header, well-formed contents and the closing tags make a document. *)
Lemma document (svgWidth svgHeight : Z) (shapes glyphs : jsstring) :
  xml_content shapes -> xml_content glyphs ->
  valid_svg (piece_text (SvgOpen svgWidth svgHeight) ++ shapes
             ++ piece_text TextOpen ++ glyphs ++ piece_text TextClose
             ++ piece_text SvgClose).
Proof.
  intros (sn & -> & Hs) (gn & -> & Hg).
  exists (svg_attrs svgWidth svgHeight),
    ([XText LF] ++ sn
     ++ [XElem (js "g") [lit_attr "class" "text"] ([XText LF] ++ gn);
         XText LF]).
  split; [|split].
  - rewrite xml_text_elem, !xmls_text_app, !xmls_text_cons.
    rewrite xml_text_elem, !xmls_text_app, !xmls_text_cons.
    change (xmls_text []) with (@nil N).
    unfold piece_text, svg_attrs, attrs_text, num_attr, lit_attr.
    generalize (numToString svgWidth) (numToString svgHeight)
      (xmls_text sn) (xmls_text gn).
    intros. cbn [xml_text]. flat. reflexivity.
  - rewrite xml_wf_elem. unfold xmls_wf in *.
    rewrite !forallb_app, Hs. cbn [forallb]. rewrite xml_wf_elem.
    unfold xmls_wf. cbn [forallb app]. rewrite Hg.
    unfold svg_attrs, attrs_wf, num_attr, lit_attr. cbn [forallb fst snd].
    rewrite !forallb_app, !numToString_attValue. reflexivity.
  - unfold svg_attrs. apply list_elem_of_here.
Qed.

(** ** The characters of the grid come from the input *)

Lemma split_lines_chars (P : N -> Prop) (s : jsstring) :
  Forall P s -> Forall (Forall P) (split_lines s).
Proof.
  induction 1 as [|c r Hc _ IH]; simpl; [by repeat constructor|].
  destruct (N.eqb c 10); [by constructor|].
  destruct (split_lines r) as [|l ls]; [by repeat constructor|].
  inversion IH; subst. constructor; [by constructor|done].
Qed.

Lemma gridLines_chars (P : N -> Prop) (s : jsstring) :
  Forall P s -> Forall (Forall P) (gridLines s).
Proof.
  intros H. unfold gridLines, dedent.
  destruct (_ || _); [by apply split_lines_chars|].
  rewrite split_lines_strip by apply split_lines_noLF.
  apply Forall_app. split; [|by repeat constructor].
  apply Forall_fmap. eapply List.Forall_impl; [|by apply split_lines_chars].
  intros line Hl. by apply Forall_drop.
Qed.

Lemma cellAt_unit (lines : list jsstring) (x y : Z) :
  cellAt lines x y = js " "
  \/ exists line c, line ∈ lines /\ c ∈ line /\ cellAt lines x y = [c].
Proof.
  unfold cellAt. destruct (arrget lines y) as [line|] eqn:E; [|by left].
  destruct (Z.ltb_spec x 0); [by left|]. rewrite Z.geb_leb.
  destruct (Z.leb_spec (strlen line) x); [by left|]. simpl. right.
  unfold arrget in E. destruct (y <? 0); [done|].
  destruct (lookup_lt_is_Some_2 line (Z.to_nat x)) as [c Hc];
    [unfold strlen in *; lia|].
  exists line, c. split; [by eapply list_elem_of_lookup_2|].
  split; [by eapply list_elem_of_lookup_2|].
  rewrite <- (Z2Nat.id x) by lia. by apply charAt_lookup.
Qed.

Lemma flatten_app (l k : list piece) : flatten (l ++ k) = flatten l ++ flatten k.
Proof. unfold flatten. by rewrite fmap_app, concat_app. Qed.

(** Appending a piece is the [svg += text] of the source. *)
Lemma flatten_snoc (svg : list piece) (p : piece) :
  flatten (svg ++ [p]) = flatten svg ++ piece_text p.
Proof.
  rewrite flatten_app. unfold flatten at 2. simpl. by rewrite app_nil_r.
Qed.

Lemma flatten_assemble (s : jsstring) (hruns vruns : list run) :
  flatten (assemble s hruns vruns)
  = piece_text (SvgOpen ((gridW s + 1) * SCALE)
                        ((gridH s + 1) * SCALE * ASPECT))
    ++ flatten ((hline <$> hruns) ++ (vline <$> vruns)
                ++ arrows (gridLines s) (gridW s) (gridH s)
                ++ points (gridLines s) (gridW s) (gridH s))
    ++ piece_text TextOpen
    ++ flatten (texts (gridLines s) (gridW s) (gridH s))
    ++ piece_text TextClose ++ piece_text SvgClose.
Proof.
  unfold assemble. rewrite !flatten_app.
  change (flatten [?p]) with (piece_text p ++ []).
  change (flatten [TextClose; SvgClose])
    with (piece_text TextClose ++ piece_text SvgClose ++ []).
  by rewrite <- !app_assoc, !app_nil_r.
Qed.

Lemma shapes_content (s : jsstring) (hruns vruns : list run) :
  xml_content (flatten ((hline <$> hruns) ++ (vline <$> vruns)
    ++ arrows (gridLines s) (gridW s) (gridH s)
    ++ points (gridLines s) (gridW s) (gridH s))).
Proof.
  apply content_flatten.
  apply Forall_app; split; [|apply Forall_app; split; [|apply Forall_app; split]].
  - apply Forall_fmap, list.Forall_forall. intros [[a b] k] _.
    by apply content_shape.
  - apply Forall_fmap, list.Forall_forall. intros [[a b] k] _.
    by apply content_shape.
  - apply list.Forall_forall. intros p Hp.
    apply elem_of_cells_if in Hp as (y & x & _ & _ & _ & ->).
    by apply content_shape.
  - apply list.Forall_forall. intros p Hp.
    apply elem_of_cells_if in Hp as (y & x & _ & _ & _ & ->).
    apply content_shape. unfold pointAt. by destruct (_ === _).
Qed.

Lemma texts_content (s : jsstring) :
  forallb xmlChar s = true ->
  xml_content (flatten (texts (gridLines s) (gridW s) (gridH s))).
Proof.
  intros Hs. apply content_flatten, list.Forall_forall. intros p Hp.
  apply elem_of_cells_if in Hp as (y & x & _ & _ & Htext & ->).
  destruct (cellAt_unit (gridLines s) x y) as [E|(line & c & Hl & Hc & E)];
    rewrite E in *; [done|].
  unfold textAt. rewrite escape_one. apply content_text.
  assert (HP : Forall (fun c => xmlChar c = true) s).
  { apply list.Forall_forall. intros d Hd. rewrite forallb_forall in Hs.
    apply Hs. by apply list_elem_of_In. }
  apply (gridLines_chars _ _) in HP. rewrite list.Forall_forall in HP.
  specialize (HP _ Hl). rewrite list.Forall_forall in HP. by apply HP.
Qed.

Lemma gridGet_outside (lines : list jsstring) (x y : Z) :
  x < 0 \/ y < 0 \/ arrlen lines <= y
  \/ (exists line, arrget lines y = Some line /\ strlen line <= x) ->
  gridGet lines x y = Ok (js " ").
Proof.
  intros H. rewrite gridGet_run. f_equal. unfold cellAt.
  destruct (arrget lines y) as [line|] eqn:E; [|done].
  apply arrget_Some in E as Hy.
  destruct (Z.ltb_spec x 0); [done|]. rewrite Z.geb_leb.
  destruct (Z.leb_spec (strlen line) x); [done|].
  destruct H as [?|[?|[?|(l & [= <-] & ?)]]]; lia.
Qed.

Lemma substring_saturates (line : jsstring) (start : Z) :
  strlen line <= start -> substring line start = [].
Proof. intros H. apply drop_ge. unfold strlen in H. lia. Qed.

(** ** The array of used cells *)

Lemma push_loop_bounded (k : nat) (lo : Z) (acc : mask) :
  arrlen acc < 2 ^ 32 ->
  foldM (fun (_ : Z) used => push used false) (seqZ lo (Z.of_nat k)) acc
  = if arrlen acc + Z.of_nat k <? 2 ^ 32
    then Ok (acc ++ replicate k (Some false)) else Throw.
Proof.
  revert lo acc. induction k as [|k IH]; intros lo acc Hacc.
  - simpl. rewrite app_nil_r, Z.add_0_r.
    by destruct (Z.ltb_spec (arrlen acc) (2 ^ 32)); [|lia].
  - rewrite seqZ_cons by lia. cbn [foldM].
    replace (Z.pred (Z.of_nat (S k))) with (Z.of_nat k) by lia.
    destruct (Z.ltb_spec (arrlen acc) (2 ^ 32 - 1)) as [Hlt|Hge].
    + replace (push acc false) with (Ok (acc ++ [Some false]))
        by (unfold push; by destruct (Z.ltb_spec (arrlen acc) (2 ^ 32 - 1));
            [|lia]).
      cbn [mbind outcome_bind].
      rewrite IH by (unfold arrlen in *; rewrite length_app; simpl; lia).
      unfold arrlen. rewrite length_app. simpl length.
      replace (Z.of_nat (length acc + 1) + Z.of_nat k)
        with (Z.of_nat (length acc) + Z.of_nat (S k)) by lia.
      destruct (_ <? _); [|done].
      by rewrite <- app_assoc.
    + replace (push acc false) with (@Throw mask)
        by (unfold push; by destruct (Z.ltb_spec (arrlen acc) (2 ^ 32 - 1));
            [lia|]).
      cbn [mbind outcome_bind].
      destruct (Z.ltb_spec (arrlen acc + Z.of_nat (S k)) (2 ^ 32)); [lia|done].
Qed.

(** Below 2^32 entries the array is filled, and is the mask [render_pieces]
    starts from; from 2^32 entries on the loop raises. *)
Lemma allocate_used_run (usedSize : Z) :
  usedSize < 2 ^ 32 ->
  allocate_used usedSize
  = Ok (for_range 0 usedSize (fun _ (used : mask) => used ++ [Some false]) []).
Proof.
  intros H. rewrite used_init. unfold allocate_used, for_rangeM.
  rewrite Z.sub_0_r. destruct (Z.le_gt_cases 0 usedSize) as [Hn|Hn].
  - rewrite <- (Z2Nat.id usedSize) at 1 by done.
    rewrite push_loop_bounded by done. change (arrlen []) with 0.
    destruct (Z.ltb_spec (0 + Z.of_nat (Z.to_nat usedSize)) (2 ^ 32));
      [done|lia].
  - rewrite seqZ_nil by lia. by replace (Z.to_nat usedSize) with 0%nat by lia.
Qed.

Lemma allocate_used_overflow (usedSize : Z) :
  2 ^ 32 <= usedSize -> allocate_used usedSize = Throw.
Proof.
  intros H. unfold allocate_used, for_rangeM. rewrite Z.sub_0_r.
  rewrite <- (Z2Nat.id usedSize) by lia.
  rewrite push_loop_bounded by done. change (arrlen []) with 0.
  destruct (Z.ltb_spec (0 + Z.of_nat (Z.to_nat usedSize)) (2 ^ 32));
    [lia|done].
Qed.

(** C1, as amended: for an input whose grid has fewer than 2^32 cells, the
    array [used] is filled within the bound the language sets on arrays,
    and [render] returns a string, raising nothing and exhausting no loop
    (a grid lookup outside the lines gives a blank, a substring from beyond
    the end is empty); the string is a well-formed SVG document whenever
    every code unit of the input is a legal XML character. *)
Theorem render_total (s : jsstring) :
  gridH s * gridW s < 2 ^ 32 ->
  allocate_used (gridH s * gridW s)
  = Ok (for_range 0 (gridH s * gridW s)
          (fun _ (used : mask) => used ++ [Some false]) [])
  /\ (exists out,
        render s = Ok out
        /\ (forallb xmlChar s = true -> valid_svg out))
  /\ (forall lines x y,
        x < 0 \/ y < 0 \/ arrlen lines <= y
        \/ (exists line, arrget lines y = Some line /\ strlen line <= x) ->
        gridGet lines x y = Ok (js " "))
  /\ (forall line start, strlen line <= start -> substring line start = []).
Proof.
  intros Hsize. split; [by apply allocate_used_run|].
  split; [|split; [apply gridGet_outside|apply substring_saturates]].
  destruct (render_pieces_run s) as (hruns & vruns & Hrun & _ & _).
  exists (flatten (assemble s hruns vruns)). split.
  - unfold render. by rewrite Hrun.
  - intros Hs. rewrite flatten_assemble.
    apply document; [apply shapes_content|by apply texts_content].
Qed.

Lemma render_total_witness :
  gridH (js "* -> o") * gridW (js "* -> o") < 2 ^ 32
  /\ forallb xmlChar (js "* -> o") = true
  /\ exists out, render (js "* -> o") = Ok out /\ valid_svg out.
Proof.
  assert (Hsize : gridH (js "* -> o") * gridW (js "* -> o") < 2 ^ 32)
    by (vm_compute; reflexivity).
  split; [exact Hsize|]. split; [reflexivity|].
  destruct (render_total (js "* -> o") Hsize)
    as (_ & (out & Hrun & Hvalid) & _).
  exists out. split; [exact Hrun|]. apply Hvalid. reflexivity.
Defined.

(** A diagram of blanks only: two rows of three columns, nothing drawn. *)
Example render_blank :
  render (js "   " ++ LF ++ js "  " ++ LF)
  = Ok (flatten [SvgOpen 32 48; TextOpen; TextClose; SvgClose]).
Proof. vm_compute. reflexivity. Qed.

(** ** The passes depend on the lines through the grid only *)

Lemma foldM_ext {A St} (f g : A -> St -> outcome St) (l : list A) (s : St) :
  (forall a s, f a s = g a s) -> foldM f l s = foldM g l s.
Proof.
  intros H. revert s. induction l as [|a l IH]; intros s; simpl; [done|].
  rewrite H. destruct (g a s); simpl; auto.
Qed.

Lemma for_rangeM_ext {St} (f g : Z -> St -> outcome St) (lo hi : Z) (s : St) :
  (forall i s, f i s = g i s) -> for_rangeM lo hi f s = for_rangeM lo hi g s.
Proof. intros H. by apply foldM_ext. Qed.

Lemma while_ext {St} (fuel : nat) (c1 c2 : St -> outcome bool)
    (b1 b2 : St -> outcome St) (s : St) :
  (forall s, c1 s = c2 s) -> (forall s, b1 s = b2 s) ->
  while fuel c1 b1 s = while fuel c2 b2 s.
Proof.
  intros Hc Hb. revert s. induction fuel as [|fuel IH]; intros s; simpl;
    rewrite Hc; destruct (c2 s) as [[|]| |]; simpl; try done.
  rewrite Hb. destruct (b2 s); simpl; auto.
Qed.

Lemma Ok_inj {A} (a b : A) : Ok a = Ok b -> a = b.
Proof. by intros [= ->]. Qed.

Lemma bind_ext {A B} (m : outcome A) (f g : A -> outcome B) :
  (forall a, f a = g a) -> (m ≫= f) = (m ≫= g).
Proof. intros H. destruct m; simpl; auto. Qed.

Lemma scanLines_ext (get1 get2 : Z -> Z -> outcome jsstring)
    (isSolid : jsstring -> bool) (index : Z -> Z -> Z)
    (mk : Z -> Z -> Z -> piece) (count extent : Z)
    (st : mask * list piece) :
  (forall k i, get1 k i = get2 k i) ->
  scanLines get1 isSolid index mk count extent st
  = scanLines get2 isSolid index mk count extent st.
Proof.
  intros H. unfold scanLines. apply for_rangeM_ext. intros k [used svg].
  f_equal. apply while_ext; [done|]. intros [[i u] v]. rewrite H.
  apply bind_ext. intros c. destruct (isSolid c); [|done].
  f_equal. apply while_ext; [|done]. intros [j w]. by rewrite H.
Qed.

Lemma scanCells_ext (get1 get2 : Z -> Z -> outcome jsstring)
    (isMark : jsstring -> bool) (index : Z -> Z -> Z)
    (emit : list piece -> Z -> Z -> jsstring -> list piece)
    (count extent : Z) (st : mask * list piece) :
  (forall k i, get1 k i = get2 k i) ->
  scanCells get1 isMark index emit count extent st
  = scanCells get2 isMark index emit count extent st.
Proof.
  intros H. unfold scanCells. apply for_rangeM_ext. intros k st'.
  apply for_rangeM_ext. intros i [u v]. by rewrite H.
Qed.

Lemma scanText_ext (get1 get2 : Z -> Z -> outcome jsstring)
    (index : Z -> Z -> Z) (keep : jsstring -> bool)
    (mk : Z -> Z -> jsstring -> piece) (count extent : Z)
    (used : mask) (svg : list piece) :
  (forall k i, get1 k i = get2 k i) ->
  scanText get1 index keep mk count extent used svg
  = scanText get2 index keep mk count extent used svg.
Proof.
  intros H. unfold scanText. apply for_rangeM_ext. intros k v.
  apply for_rangeM_ext. intros i w. by rewrite H.
Qed.

Lemma render_pieces_lines (s : jsstring) :
  render_pieces s = render_lines (gridLines s).
Proof. unfold render_pieces. by rewrite removeLeadingSpace_run. Qed.

(** Two line arrays with the same grid give the same pieces. *)
Lemma render_lines_ext (lines1 lines2 : list jsstring) :
  max_width lines1 = max_width lines2 ->
  gridHeight lines1 = gridHeight lines2 ->
  (forall x y, cellAt lines1 x y = cellAt lines2 x y) ->
  render_lines lines1 = render_lines lines2.
Proof.
  intros Hw Hh Hcell. unfold render_lines.
  rewrite !gridWidth_run, Hw, Hh. cbn [mbind outcome_bind].
  assert (Hget : forall x y, gridGet lines1 x y = gridGet lines2 x y).
  { intros x y. by rewrite !gridGet_run, Hcell. }
  rewrite !drawHorizontalLines_scan.
  rewrite (scanLines_ext (fun y x => gridGet lines1 x y)
             (fun y x => gridGet lines2 x y)) by done.
  apply bind_ext. intros [used1 svg1].
  rewrite !drawVerticalLines_scan.
  rewrite (scanLines_ext (fun x y => gridGet lines1 x y)
             (fun x y => gridGet lines2 x y)) by done.
  apply bind_ext. intros [used2 svg2].
  rewrite !drawArrowHeads_scan.
  rewrite (scanCells_ext (fun y x => gridGet lines1 x y)
             (fun y x => gridGet lines2 x y)) by done.
  apply bind_ext. intros [used3 svg3].
  rewrite !drawPoints_scan.
  rewrite (scanCells_ext (fun y x => gridGet lines1 x y)
             (fun y x => gridGet lines2 x y)) by done.
  apply bind_ext. intros [used4 svg4].
  rewrite !drawText_scan.
  rewrite (scanText_ext (fun y x => gridGet lines1 x y)
             (fun y x => gridGet lines2 x y)) by done.
  done.
Qed.

(** ** A trailing newline *)

Lemma split_lines_snoc_LF (s : jsstring) :
  split_lines (s ++ LF) = split_lines s ++ [[]].
Proof.
  induction s as [|c r IH]; [done|]. simpl.
  destruct (N.eqb c 10); [by rewrite IH|]. rewrite IH.
  destruct (split_lines_cons_inv r) as (l & ls & ->). done.
Qed.

Lemma split_lines_snoc (s : jsstring) (c : N) :
  c <> 10%N ->
  exists ls l, split_lines s = ls ++ [l]
               /\ split_lines (s ++ [c]) = ls ++ [l ++ [c]].
Proof.
  intros Hc. induction s as [|d r (ls & l & E1 & E2)]; simpl.
  - exists [], []. destruct (N.eqb_spec c 10); done.
  - rewrite E1, E2. destruct (N.eqb d 10).
    + by exists ([] :: ls), l.
    + destruct ls as [|l1 ls]; simpl.
      * by exists [], (d :: l).
      * by exists ((d :: l1) :: ls), l.
Qed.

(** The lines of a string that does not end in a newline: the last one is
    not empty. *)
Lemma split_lines_open (s : jsstring) (c : N) :
  c <> 10%N ->
  exists ls l, l <> [] /\ split_lines (s ++ [c]) = ls ++ [l].
Proof.
  intros Hc. destruct (split_lines_snoc s c Hc) as (ls & l & _ & E).
  exists ls, (l ++ [c]). split; [|done]. by destruct l.
Qed.

Lemma arrget_app_l {A} (l k : list A) (i : Z) :
  i < arrlen l -> arrget (l ++ k) i = arrget l i.
Proof.
  intros H. unfold arrget. destruct (Z.ltb_spec i 0); [done|].
  apply lookup_app_l. unfold arrlen in H. lia.
Qed.

Lemma arrget_last {A} (l : list A) (a : A) :
  arrget (l ++ [a]) (arrlen (l ++ [a]) - 1) = Some a.
Proof.
  unfold arrget, arrlen. rewrite length_app. simpl.
  destruct (Z.ltb_spec (Z.of_nat (length l + 1) - 1) 0); [lia|].
  replace (Z.to_nat (Z.of_nat (length l + 1) - 1)) with (length l) by lia.
  by apply list_lookup_middle.
Qed.

Lemma gridHeight_closed (lines : list jsstring) :
  gridHeight (lines ++ [[]]) = arrlen lines.
Proof.
  unfold gridHeight. rewrite arrget_last.
  rewrite bool_decide_eq_true_2 by done. unfold arrlen.
  rewrite length_app. simpl. rewrite Z.gtb_ltb.
  destruct (Z.ltb_spec 0 (Z.of_nat (length lines + 1))); simpl; lia.
Qed.

Lemma gridHeight_open (ls : list jsstring) (l : jsstring) :
  l <> [] -> gridHeight (ls ++ [l]) = arrlen (ls ++ [l]).
Proof.
  intros Hl. unfold gridHeight. rewrite arrget_last.
  rewrite bool_decide_eq_false_2 by congruence. by rewrite andb_false_r.
Qed.

Lemma max_width_app (l k : list jsstring) :
  max_width (l ++ k) = Z.max (max_width l) (max_width k).
Proof.
  induction l as [|a l IH]; simpl.
  - pose proof (max_width_nonneg k). lia.
  - rewrite IH. lia.
Qed.

Lemma max_width_closed (lines : list jsstring) :
  max_width (lines ++ [[]]) = max_width lines.
Proof.
  rewrite max_width_app. pose proof (max_width_nonneg lines).
  change (max_width [[]]) with 0. lia.
Qed.

Lemma cellAt_closed (lines : list jsstring) (x y : Z) :
  cellAt (lines ++ [[]]) x y = cellAt lines x y.
Proof.
  unfold cellAt. destruct (Z.ltb_spec y (arrlen lines)).
  - by rewrite arrget_app_l.
  - rewrite (arrget_None lines) by lia.
    destruct (arrget (lines ++ [[]]) y) as [line|] eqn:E; [|done].
    assert (line = []) as ->.
    { unfold arrget in E. destruct (y <? 0); [done|].
      apply lookup_app_Some in E as [E|[_ E]].
      - apply lookup_lt_Some in E. unfold arrlen in *. lia.
      - destruct (Z.to_nat y - length lines)%nat as [|n]; simpl in E;
          [by injection E|by destruct n]. }
    destruct (Z.ltb_spec x 0); [done|]. rewrite Z.geb_leb.
    destruct (Z.leb_spec (strlen []) x) as [|Hlt]; [done|].
    unfold strlen in Hlt. simpl in Hlt. lia.
Qed.

Lemma render_lines_closed (lines : list jsstring) :
  gridHeight lines = arrlen lines ->
  render_lines (lines ++ [[]]) = render_lines lines.
Proof.
  intros H. apply render_lines_ext.
  - apply max_width_closed.
  - by rewrite gridHeight_closed.
  - apply cellAt_closed.
Qed.

Lemma min_indent_closed (lines : list jsstring) :
  min_indent (lines ++ [[]]) = min_indent lines.
Proof. rewrite min_indent_app. simpl. by destruct (min_indent lines). Qed.

(** When the dedent step leaves the diagram as it is, the newline appended
    to a diagram that does not end in one changes nothing. *)
Lemma render_newline_same (s : jsstring) (c : N) :
  c <> 10%N ->
  (minimum_of (split_lines (s ++ [c])) =? 0)
  || (minimum_of (split_lines (s ++ [c])) =? 999999) = true ->
  render_pieces ((s ++ [c]) ++ LF) = render_pieces (s ++ [c]).
Proof.
  intros Hc Hm. rewrite !render_pieces_lines. unfold gridLines, dedent.
  rewrite split_lines_snoc_LF. unfold minimum_of in *.
  rewrite min_indent_closed, Hm, split_lines_snoc_LF.
  destruct (split_lines_open s c Hc) as (ls & l & Hl & ->).
  apply render_lines_closed. by apply gridHeight_open.
Qed.

(** ** A grid too large for the array of used cells *)

Lemma split_lines_newlines (k : nat) :
  split_lines (replicate k 10%N) = replicate (S k) [].
Proof. induction k as [|k IH]; [done|]. simpl. by rewrite IH. Qed.

Lemma wide_lines (m : nat) :
  split_lines (wide (S m))
  = (replicate (S m) 45%N :: replicate m []) ++ [[]].
Proof.
  unfold wide. change (replicate (S m) 10%N) with (LF ++ replicate m 10%N).
  rewrite split_lines_line by (apply Forall_replicate; done).
  rewrite split_lines_newlines, (replicate_S_end m (@nil N)). done.
Qed.

Lemma min_indent_empty_lines (m : nat) :
  min_indent (replicate m []) = None.
Proof. induction m as [|m IH]; [done|]. simpl. exact IH. Qed.

Lemma max_width_empty_lines (m : nat) : max_width (replicate m []) = 0.
Proof. induction m as [|m IH]; [done|]. simpl. rewrite IH. done. Qed.

Lemma wide_gridLines (m : nat) :
  gridLines (wide (S m))
  = (replicate (S m) 45%N :: replicate m []) ++ [[]].
Proof.
  unfold gridLines, dedent, minimum_of. rewrite wide_lines.
  rewrite min_indent_closed. cbn [min_indent].
  change (isBlank (replicate (S m) 45%N)) with false.
  change (indent (replicate (S m) 45%N)) with 0.
  rewrite min_indent_empty_lines. cbn [orb Z.eqb Z.min Z.compare].
  apply wide_lines.
Qed.

(** The grid of [wide n] has [n] columns and [n] rows. *)
Lemma wide_grid (n : nat) :
  (0 < n)%nat -> gridW (wide n) = Z.of_nat n /\ gridH (wide n) = Z.of_nat n.
Proof.
  destruct n as [|m]; [lia|]. intros _. unfold gridW, gridH.
  rewrite wide_gridLines. split.
  - rewrite max_width_closed. cbn [max_width foldr].
    fold (max_width (replicate m [])).
    rewrite max_width_empty_lines. unfold strlen.
    rewrite length_replicate. lia.
  - rewrite gridHeight_closed. unfold arrlen. simpl length.
    rewrite length_replicate. lia.
Qed.

Lemma forallb_replicate {A} (f : A -> bool) (n : nat) (a : A) :
  f a = true -> forallb f (replicate n a) = true.
Proof. intros H. induction n as [|n IH]; [done|]. simpl. by rewrite H. Qed.

(** The bound on the grid is needed: a diagram of 65536 dashes
    followed by 65536 newlines, all legal XML characters, has a grid of
    2^32 cells, and the array [used] cannot be filled for it. *)
Lemma wide_overflow :
  forallb xmlChar (wide (Z.to_nat 65536)) = true
  /\ gridH (wide (Z.to_nat 65536)) * gridW (wide (Z.to_nat 65536)) = 2 ^ 32
  /\ allocate_used
       (gridH (wide (Z.to_nat 65536)) * gridW (wide (Z.to_nat 65536)))
     = Throw.
Proof.
  destruct (wide_grid (Z.to_nat 65536)) as [Hw Hh]; [lia|].
  rewrite Hw, Hh, Z2Nat.id by lia. split; [|split; [done|]].
  - unfold wide. rewrite forallb_app. apply andb_true_iff. split.
    + by apply forallb_replicate.
    + by apply forallb_replicate.
  - apply allocate_used_overflow. lia.
Qed.

(** ** Numbers print injectively *)

Lemma js_inj (a b : string) : js a = js b -> a = b.
Proof.
  revert b. induction a as [|c a IH]; intros [|d b]; simpl; try done.
  intros [= Hc Hr]. f_equal; [|by apply IH].
  by rewrite <- (ascii_N_embedding c), Hc, ascii_N_embedding.
Qed.

Lemma to_int_proper (z : Z) :
  Z.to_int z <> Decimal.Pos Decimal.Nil
  /\ Z.to_int z <> Decimal.Neg Decimal.Nil.
Proof.
  destruct z as [|p|p]; simpl; split; try done;
    intros [= H]; by apply Unsigned.to_uint_nonnil in H.
Qed.

Lemma numToString_inj (a b : Z) : numToString a = numToString b -> a = b.
Proof.
  unfold numToString. intros H. apply js_inj in H.
  apply (f_equal NilZero.int_of_string) in H.
  destruct (to_int_proper a), (to_int_proper b).
  rewrite !NilZero.isi in H by done. injection H as H.
  by apply DecimalZ.to_int_inj.
Qed.

Lemma numToString_no_quote (z : Z) : 34%N ∉ numToString z.
Proof.
  intros H. pose proof (numToString_chars z) as Hc.
  rewrite forallb_forall in Hc. apply list_elem_of_In, Hc in H. done.
Qed.

Lemma app_until {A} (d : A) (a b x y : list A) :
  d ∉ a -> d ∉ b -> a ++ d :: x = b ++ d :: y -> a = b.
Proof.
  revert b. induction a as [|c a IH]; intros [|e b] Ha Hb E; simpl in E.
  - done.
  - injection E as -> _. exfalso. apply Hb, list_elem_of_here.
  - injection E as -> _. exfalso. apply Ha, list_elem_of_here.
  - injection E as -> E. f_equal. apply (IH b); [| |done].
    + intros H. by apply Ha, list_elem_of_further.
    + intros H. by apply Hb, list_elem_of_further.
Qed.

(** Two outputs with the same width and different heights differ. *)
Lemma header_height (w h1 h2 : Z) (r1 r2 : jsstring) :
  piece_text (SvgOpen w h1) ++ r1 = piece_text (SvgOpen w h2) ++ r2 ->
  h1 = h2.
Proof.
  unfold piece_text. intros E.
  repeat (rewrite <- ?app_assoc in E; apply app_inv_head in E).
  apply numToString_inj.
  eapply (app_until 34%N); [apply numToString_no_quote..|].
  unfold DQ in E. simpl in E. exact E.
Qed.

(** ** A trailing newline after the dedent step has stripped *)

Lemma dedent_strips (s : jsstring) (m : Z) :
  min_indent (split_lines s) = Some m -> 1 <= m < 999999 ->
  dedent s = strip_lines m (split_lines s).
Proof.
  intros Hm Hr. unfold dedent, minimum_of. rewrite Hm.
  replace (Z.min m 999999) with m by lia.
  destruct (Z.eqb_spec m 0); [lia|]. destruct (Z.eqb_spec m 999999); [lia|].
  done.
Qed.

Lemma gridLines_strips (s : jsstring) (m : Z) :
  min_indent (split_lines s) = Some m -> 1 <= m < 999999 ->
  gridLines s = (drop (Z.to_nat m) <$> split_lines s) ++ [[]].
Proof.
  intros Hm Hr. unfold gridLines. rewrite (dedent_strips s m Hm Hr).
  apply split_lines_strip, split_lines_noLF.
Qed.

Lemma gridLines_strips_LF (s : jsstring) (m : Z) :
  min_indent (split_lines s) = Some m -> 1 <= m < 999999 ->
  gridLines (s ++ LF) = gridLines s ++ [[]].
Proof.
  intros Hm Hr. rewrite (gridLines_strips s m Hm Hr).
  rewrite (gridLines_strips (s ++ LF) m); [| |done].
  - rewrite split_lines_snoc_LF, fmap_app. simpl. by rewrite drop_nil.
  - by rewrite split_lines_snoc_LF, min_indent_closed.
Qed.

Lemma cellAt_blank_row (lines : list jsstring) (x : Z) :
  cellAt (lines ++ [[]]) x (arrlen lines) = js " ".
Proof.
  rewrite cellAt_closed. unfold cellAt. by rewrite arrget_None by lia.
Qed.

(** With an indentation of at least one, and below the constant, the
    appended newline adds a blank row: the picture is 16 pixels taller. *)
Lemma render_newline_taller (s : jsstring) (m : Z) :
  min_indent (split_lines s) = Some m -> 1 <= m < 999999 ->
  gridH (s ++ LF) = gridH s + 1
  /\ gridW (s ++ LF) = gridW s
  /\ (forall x, cellAt (gridLines (s ++ LF)) x (gridH s) = js " ")
  /\ (exists r1 r2,
        render_pieces s
        = Ok (SvgOpen ((gridW s + 1) * 8) ((gridH s + 1) * 16) :: r1)
        /\ render_pieces (s ++ LF)
           = Ok (SvgOpen ((gridW s + 1) * 8) ((gridH s + 1) * 16 + 16) :: r2))
  /\ render (s ++ LF) <> render s.
Proof.
  intros Hm Hr.
  pose proof (gridLines_strips s m Hm Hr) as E1.
  pose proof (gridLines_strips_LF s m Hm Hr) as E2.
  assert (HH : gridH s = arrlen (drop (Z.to_nat m) <$> split_lines s)).
  { unfold gridH. rewrite E1. apply gridHeight_closed. }
  assert (HH2 : gridH (s ++ LF) = gridH s + 1).
  { unfold gridH at 1. rewrite E2, gridHeight_closed, E1, HH.
    unfold arrlen. rewrite length_app. simpl. lia. }
  assert (HW : gridW (s ++ LF) = gridW s).
  { unfold gridW. rewrite E2. apply max_width_closed. }
  destruct (render_pieces_run s) as (h1 & v1 & R1 & _).
  destruct (render_pieces_run (s ++ LF)) as (h2 & v2 & R2 & _).
  split; [done|]. split; [done|]. split; [|split].
  - intros x. rewrite E2, E1, HH, cellAt_closed. apply cellAt_blank_row.
  - unfold assemble in R1, R2. rewrite HW, HH2 in R2.
    replace ((gridH s + 1) * SCALE * ASPECT) with ((gridH s + 1) * 16)
      in R1 by (unfold SCALE, ASPECT; lia).
    replace ((gridH s + 1 + 1) * SCALE * ASPECT)
      with ((gridH s + 1) * 16 + 16) in R2 by (unfold SCALE, ASPECT; lia).
    change ((gridW s + 1) * SCALE) with ((gridW s + 1) * 8) in R1, R2.
    eauto.
  - unfold render. rewrite R1, R2. cbn [mbind outcome_bind].
    rewrite !flatten_assemble, HW, HH2. intros E. apply Ok_inj in E.
    apply header_height in E. unfold SCALE, ASPECT in E. lia.
Qed.

Lemma ends_open (s : jsstring) :
  s <> [] -> list.last s <> Some 10%N -> exists s' c, s = s' ++ [c] /\ c <> 10%N.
Proof.
  intros Hs Hl. destruct s as [|d r _] using rev_ind; [done|].
  exists r, d. split; [done|]. intros ->. by rewrite last_snoc in Hl.
Qed.

(** Below the constant of the dedent step, the newline appended to a
    diagram that does not end in one changes nothing when the least indent
    is zero, and adds a blank row when it is at least one. *)
Lemma render_newline_below_sentinel (s : jsstring) (m : Z) :
  list.last s <> Some 10%N -> min_indent (split_lines s) = Some m ->
  m < 999999 ->
  (m = 0 -> render (s ++ LF) = render s)
  /\ (1 <= m ->
      render (s ++ LF) <> render s
      /\ gridH (s ++ LF) = gridH s + 1
      /\ (forall x, cellAt (gridLines (s ++ LF)) x (gridH s) = js " ")
      /\ exists r1 r2,
           render_pieces s
           = Ok (SvgOpen ((gridW s + 1) * 8) ((gridH s + 1) * 16) :: r1)
           /\ render_pieces (s ++ LF)
              = Ok (SvgOpen ((gridW s + 1) * 8) ((gridH s + 1) * 16 + 16)
                    :: r2)).
Proof.
  intros Hl Hm Hlt. split.
  - intros ->. assert (Hs : s <> []) by (by intros ->).
    destruct (ends_open s Hs Hl) as (s' & c & -> & Hc).
    unfold render. rewrite render_newline_same; [done|done|].
    unfold minimum_of. by rewrite Hm.
  - intros Hge.
    destruct (render_newline_taller s m Hm ltac:(lia))
      as (H1 & H2 & H3 & H4 & H5). done.
Qed.

(** Indented by the constant or more, the diagram is left as it is by the
    dedent step, with and without the newline. *)
Lemma render_newline_indented (n : nat) :
  999999 <= Z.of_nat n ->
  render (indented n ++ LF) = render (indented n).
Proof.
  intros Hn. unfold render, indented.
  change (js "a") with [97%N].
  rewrite render_newline_same; [done|done|].
  change (replicate n 32%N ++ [97%N]) with (indented n). unfold minimum_of.
  rewrite indented_min_indent.
  replace (Z.min (Z.of_nat n) 999999) with 999999 by lia. done.
Qed.

Lemma indented_last (n : nat) : list.last (indented n) = Some 97%N.
Proof. unfold indented. change (js "a") with [97%N]. apply last_snoc. Qed.

(** C10, at a line indented by 999999 spaces: the least indent is at least
    one and the diagram does not end in a newline, yet the output with the
    newline appended is the same. *)
Theorem render_newline_sentinel :
  list.last sentinel_input <> Some 10%N
  /\ min_indent (split_lines sentinel_input) = Some 999999
  /\ render (sentinel_input ++ LF) = render sentinel_input.
Proof.
  unfold sentinel_input. split; [|split].
  - by rewrite indented_last.
  - rewrite indented_min_indent, Z2Nat.id; [reflexivity|discriminate].
  - apply render_newline_indented.
    rewrite Z2Nat.id; [apply Z.le_refl|discriminate].
Qed.

(* ================================================================= *)
(** * Further properties *)

(** ** Escaping *)

Lemma escape_units (str : jsstring) :
  escapeHTMLEntities str = concat (escape_unit <$> str).
Proof.
  unfold escapeHTMLEntities.
  rewrite (for_range_charAt str (fun c result =>
    if c === js "&" then result ++ js "&amp;"
    else if c === js "<" then result ++ js "&lt;"
    else if c === js ">" then result ++ js "&gt;"
    else if c === DQ then result ++ js "&quot;"
    else result ++ c) []).
  rewrite (foldl_ext_eq _ (fun result c => result ++ escape_unit c)).
  - apply (escape_foldl str []).
  - intros result c. apply escape_step.
Qed.

(** X1: escaping distributes over concatenation: a string can be escaped
    piece by piece. *)
Theorem escapeHTMLEntities_app (a b : jsstring) :
  escapeHTMLEntities (a ++ b)
  = escapeHTMLEntities a ++ escapeHTMLEntities b.
Proof. rewrite !escape_units. by rewrite fmap_app, concat_app. Qed.

Lemma escape_unit_cases (c : N) :
  (isPlain c = true /\ escape_unit c = [c])
  \/ (isPlain c = false
      /\ (c = 38%N /\ escape_unit c = js "&amp;"
          \/ c = 60%N /\ escape_unit c = js "&lt;"
          \/ c = 62%N /\ escape_unit c = js "&gt;"
          \/ c = 34%N /\ escape_unit c = js "&quot;")).
Proof.
  unfold isPlain, escape_unit.
  destruct (N.eqb_spec c 38) as [->|]; [right; split; [done|]; tauto|].
  destruct (N.eqb_spec c 60) as [->|]; [right; split; [done|]; tauto|].
  destruct (N.eqb_spec c 62) as [->|]; [right; split; [done|]; tauto|].
  destruct (N.eqb_spec c 34) as [->|]; [right; split; [done|]; tauto|].
  by left.
Qed.

(** X2: an escaped string holds no [<], no [>] and no double quote. *)
Theorem escapeHTMLEntities_no_markup (s : jsstring) :
  Forall (fun c => c <> 60 /\ c <> 62 /\ c <> 34)%N (escapeHTMLEntities s).
Proof.
  rewrite escape_units. apply Forall_concat, Forall_fmap, Forall_true.
  intros c. simpl.
  destruct (escape_unit_cases c) as [[Hp ->]|[_ H]].
  - constructor; [|constructor]. unfold isPlain in Hp.
    rewrite !andb_true_iff, !negb_true_iff, !N.eqb_neq in Hp. tauto.
  - destruct H as [[_ ->]|[[_ ->]|[[_ ->]|[_ ->]]]];
      repeat constructor; done.
Qed.

(** X3: the escaping of a string of legal XML characters is well-formed
    XML content: character data and references to predefined entities. *)
Theorem escapeHTMLEntities_content (s : jsstring) :
  forallb xmlChar s = true -> xml_content (escapeHTMLEntities s).
Proof.
  rewrite escape_units. induction s as [|c s IH]; intros H.
  - apply content_nil.
  - simpl in H. apply andb_true_iff in H as [Hc Hs].
    rewrite fmap_cons, concat_cons. apply content_app; [|by apply IH].
    rewrite <- unit_xml_text. apply content_node. by apply unit_xml_wf.
Qed.

Lemma escapeHTMLEntities_content_witness :
  forallb xmlChar (js "a<b & c") = true
  /\ xml_content (escapeHTMLEntities (js "a<b & c")).
Proof.
  split; [reflexivity|]. apply (escapeHTMLEntities_content (js "a<b & c")).
  reflexivity.
Defined.

(** X4: escaping loses nothing: two strings with the same escaping are
    the same string. *)
Theorem escapeHTMLEntities_inj (a b : jsstring) :
  escapeHTMLEntities a = escapeHTMLEntities b -> a = b.
Proof.
  rewrite !escape_units. revert b.
  induction a as [|c a IH]; intros [|d b] H; [done|..].
  - exfalso. rewrite fmap_cons, concat_cons in H.
    destruct (escape_unit_cases d) as [[_ E]|[_ [[_ E]|[[_ E]|[[_ E]|[_ E]]]]]];
      rewrite E in H; discriminate.
  - exfalso. rewrite fmap_cons, concat_cons in H.
    destruct (escape_unit_cases c) as [[_ E]|[_ [[_ E]|[[_ E]|[[_ E]|[_ E]]]]]];
      rewrite E in H; discriminate.
  - rewrite !fmap_cons, !concat_cons in H.
    destruct (escape_unit_cases c)
      as [[Pc Ec]|[Pc [[Hc Ec]|[[Hc Ec]|[[Hc Ec]|[Hc Ec]]]]]];
    destruct (escape_unit_cases d)
      as [[Pd Ed]|[Pd [[Hd Ed]|[[Hd Ed]|[[Hd Ed]|[Hd Ed]]]]]];
    rewrite Ec, Ed in H; simpl in H; subst;
    try discriminate;
    try (injection H as H; f_equal; by apply IH);
    try (injection H as -> H; f_equal; by apply IH);
    try (injection H as -> _; done);
    try (injection H as <- _; done).
Qed.

Lemma escapeHTMLEntities_inj_witness :
  escapeHTMLEntities (js "<a>") = escapeHTMLEntities (js "<a>")
  /\ js "<a>" = js "<a>".
Proof.
  split; [reflexivity|].
  apply (escapeHTMLEntities_inj (js "<a>") (js "<a>")). reflexivity.
Defined.

Lemma plain_escape (s : jsstring) :
  plain s = true -> escapeHTMLEntities s = s.
Proof.
  rewrite escape_units. induction s as [|c s IH]; intros H; [done|].
  simpl in H. apply andb_true_iff in H as [Hc Hs].
  rewrite fmap_cons, concat_cons, IH by done.
  destruct (escape_unit_cases c) as [[_ ->]|[E _]]; [done|congruence].
Qed.

Lemma escape_length (s : jsstring) :
  strlen s <= strlen (escapeHTMLEntities s) <= 6 * strlen s
  /\ (plain s = false -> strlen s < strlen (escapeHTMLEntities s)).
Proof.
  rewrite escape_units. unfold strlen.
  induction s as [|c s IH]; [simpl; split; [lia|done]|].
  rewrite fmap_cons, concat_cons, length_app. simpl plain.
  destruct IH as [IH1 IH2]. simpl length.
  destruct (escape_unit_cases c)
    as [[-> ->]|[-> [[_ ->]|[[_ ->]|[[_ ->]|[_ ->]]]]]]; simpl;
    (split; [lia|]); intros H; try specialize (IH2 H); lia.
Qed.

Lemma plain_escaped (s : jsstring) :
  plain (escapeHTMLEntities s) = plain s.
Proof.
  rewrite escape_units. unfold plain.
  induction s as [|c s IH]; [done|].
  rewrite fmap_cons, concat_cons, forallb_app, IH. simpl. f_equal.
  destruct (escape_unit_cases c)
    as [[E ->]|[-> [[_ ->]|[[_ ->]|[[_ ->]|[_ ->]]]]]]; [|done..].
  simpl. by rewrite andb_true_r.
Qed.

Lemma escape_fixed (s : jsstring) :
  escapeHTMLEntities s = s <-> plain s = true.
Proof.
  split; [|apply plain_escape].
  intros H. destruct (plain s) eqn:E; [done|].
  destruct (escape_length s) as [_ Hl]. specialize (Hl E).
  rewrite H in Hl. lia.
Qed.

(** X5: escaping leaves a string as it is exactly when the string holds
    none of the four characters; escaping twice differs from escaping once
    for every other string, and the result is between one and six times as
    long as the input. *)
Theorem escapeHTMLEntities_fixed (s : jsstring) :
  (escapeHTMLEntities s = s <-> plain s = true)
  /\ (escapeHTMLEntities (escapeHTMLEntities s) = escapeHTMLEntities s
      <-> plain s = true)
  /\ strlen s <= strlen (escapeHTMLEntities s) <= 6 * strlen s.
Proof.
  split; [apply escape_fixed|]. split; [|apply escape_length].
  rewrite escape_fixed. by rewrite plain_escaped.
Qed.

(** ** The dedent step and indentation *)

Lemma trimStart_drop (k : nat) (line : jsstring) :
  Z.of_nat k <= indent line -> trimStart (drop k line) = trimStart line.
Proof.
  revert line. induction k as [|k IH]; intros line H; [done|].
  destruct line as [|c r]; [done|]. simpl in *.
  destruct (isIndentUnit c) eqn:E; [|lia].
  rewrite (isIndentUnit_white _ E). apply IH. lia.
Qed.

Lemma trim_of_blank (line : jsstring) : isBlank line = true -> trim line = [].
Proof.
  intros H. rewrite <- trim_blank in H. unfold str_eq in H.
  by apply bool_decide_eq_true in H.
Qed.

Lemma min_indent_some (lines : list jsstring) (line : jsstring) :
  line ∈ lines -> isBlank line = false ->
  exists m, min_indent lines = Some m /\ m <= indent line.
Proof.
  induction lines as [|l rest IH]; intros Hin Hb.
  - by apply elem_of_nil in Hin.
  - simpl. apply elem_of_cons in Hin as [->|Hin].
    + rewrite Hb. destruct (min_indent rest); eexists; (split; [done|lia]).
    + destruct (IH Hin Hb) as (m & -> & Hle).
      destruct (isBlank l); eexists; (split; [done|lia]).
Qed.

Lemma min_indent_le (lines : list jsstring) (m : Z) (line : jsstring) :
  min_indent lines = Some m -> line ∈ lines -> isBlank line = false ->
  m <= indent line.
Proof.
  intros Hm Hin Hb. destruct (min_indent_some _ _ Hin Hb) as (m' & E & Hle).
  congruence.
Qed.

Lemma trim_strip (m : Z) (lines : list jsstring) (k : nat) :
  min_indent lines = Some m -> Z.of_nat k <= m ->
  trim <$> (drop k <$> lines) = trim <$> lines.
Proof.
  intros Hm Hk. rewrite <- list_fmap_compose. apply list_fmap_ext.
  intros i line Hl. simpl. apply list_elem_of_lookup_2 in Hl.
  destruct (isBlank line) eqn:E.
  - rewrite (trim_of_blank line E). apply trim_of_blank.
    by apply isBlank_drop.
  - pose proof (min_indent_le _ _ _ Hm Hl E).
    unfold trim. rewrite trimStart_drop by lia. done.
Qed.

Lemma strip_ends (m : Z) (lines : list jsstring) :
  lines <> [] -> list.last (strip_lines m lines) = Some 10%N.
Proof.
  intros H. unfold strip_lines.
  destruct (exists_last H) as (ls & l & ->).
  rewrite fmap_app, concat_app. simpl. rewrite app_nil_r.
  unfold LF. by rewrite !app_assoc, last_snoc.
Qed.

(** X6: the dedent step removes white space only, and neither joins nor
    drops a line: it returns its input, or a string that ends in a newline
    and whose lines, trimmed, are the trimmed lines of the input followed
    by one empty line. *)
Theorem removeLeadingSpace_keeps_text (s : jsstring) :
  exists r,
    removeLeadingSpace s = Ok r
    /\ (r = s
        \/ (trim <$> split_lines r = (trim <$> split_lines s) ++ [[]]
            /\ list.last r = Some 10%N)).
Proof.
  exists (dedent s). split; [apply removeLeadingSpace_run|].
  unfold dedent, minimum_of.
  destruct (min_indent (split_lines s)) as [m|] eqn:E; [|by left].
  destruct (_ || _); [by left|]. right.
  pose proof (min_indent_nonneg _ _ E). split.
  - rewrite split_lines_strip by apply split_lines_noLF.
    rewrite fmap_app. f_equal. apply (trim_strip m); [done|lia].
  - apply strip_ends. by destruct (split_lines_cons_inv s) as (l & ls & ->).
Qed.

(** X7: after the dedent step of a diagram indented by less than 999999,
    the least indentation of a non-blank line is 0. *)
Theorem removeLeadingSpace_flush (s : jsstring) (m : Z) :
  min_indent (split_lines s) = Some m -> m < 999999 ->
  exists r, removeLeadingSpace s = Ok r
            /\ min_indent (split_lines r) = Some 0.
Proof.
  intros Hm Hlt. exists (dedent s). split; [apply removeLeadingSpace_run|].
  pose proof (min_indent_nonneg _ _ Hm).
  destruct (Z.eq_dec m 0) as [->|Hne].
  - unfold dedent, minimum_of. rewrite Hm. done.
  - rewrite (dedent_strips s m) by (done || lia).
    rewrite split_lines_strip by apply split_lines_noLF.
    rewrite min_indent_closed, min_indent_drop
      by (intros ? Hm'; rewrite Hm in Hm'; injection Hm' as <-; lia).
    rewrite Hm. simpl. f_equal. lia.
Qed.

Lemma removeLeadingSpace_flush_witness :
  min_indent (split_lines (js "  a")) = Some 2 /\ 2 < 999999
  /\ exists r, removeLeadingSpace (js "  a") = Ok r
               /\ min_indent (split_lines r) = Some 0.
Proof.
  split; [reflexivity|]. split; [lia|].
  apply (removeLeadingSpace_flush (js "  a") 2); [reflexivity|lia].
Defined.

Lemma noLF_spaces (k : nat) : noLF (replicate k 32%N).
Proof. apply Forall_replicate. done. Qed.

Lemma split_lines_shift_from (k : nat) (pre s : jsstring) :
  noLF pre ->
  split_lines (pre ++ (c ← s; if (c =? 10)%N then 10%N :: replicate k 32%N
                              else [c]))
  = match split_lines s with
    | l :: ls => (pre ++ l) :: ((fun l => replicate k 32%N ++ l) <$> ls)
    | [] => []
    end.
Proof.
  set (g := fun c : N => if (c =? 10)%N then 10%N :: replicate k 32%N
                         else [c]).
  revert pre. induction s as [|c r IH]; intros pre Hpre.
  - simpl. rewrite app_nil_r. by apply split_lines_last.
  - rewrite bind_cons. cbn [split_lines].
    destruct (split_lines_cons_inv r) as (l & ls & E).
    destruct (N.eqb_spec c 10) as [->|Hc].
    + change (g 10%N) with (LF ++ replicate k 32%N).
      rewrite <- !app_assoc. rewrite (split_lines_line _ _ Hpre).
      rewrite (IH _ (noLF_spaces k)), E. by rewrite app_nil_r.
    + replace (g c) with [c]
        by (unfold g; by destruct (N.eqb_spec c 10)).
      rewrite app_assoc, IH, E.
      * by rewrite <- app_assoc.
      * apply Forall_app. split; [done|]. by repeat constructor.
Qed.

Lemma split_lines_shift (k : nat) (s : jsstring) :
  split_lines (shift k s)
  = (fun l => replicate k 32%N ++ l) <$> split_lines s.
Proof.
  unfold shift. rewrite split_lines_shift_from by apply noLF_spaces.
  by destruct (split_lines_cons_inv s) as (l & ls & ->).
Qed.

Lemma isBlank_spaces (k : nat) (l : jsstring) :
  isBlank (replicate k 32%N ++ l) = isBlank l.
Proof. induction k as [|k IH]; [done|]. simpl. exact IH. Qed.

Lemma indent_spaces (k : nat) (l : jsstring) :
  indent (replicate k 32%N ++ l) = Z.of_nat k + indent l.
Proof.
  induction k as [|k IH]; [simpl; lia|].
  cbn [replicate app indent]. change (isIndentUnit 32) with true.
  cbv iota. rewrite IH. lia.
Qed.

Lemma min_indent_shift (k : nat) (lines : list jsstring) :
  min_indent ((fun l => replicate k 32%N ++ l) <$> lines)
  = (fun m => Z.of_nat k + m) <$> min_indent lines.
Proof.
  induction lines as [|l rest IH]; [done|].
  rewrite fmap_cons. cbn [min_indent].
  rewrite isBlank_spaces, IH, indent_spaces.
  destruct (isBlank l); [done|].
  destruct (min_indent rest); simpl; f_equal; lia.
Qed.

Lemma strip_shift (k : nat) (m : Z) (lines : list jsstring) :
  0 <= m ->
  strip_lines (Z.of_nat k + m) ((fun l => replicate k 32%N ++ l) <$> lines)
  = strip_lines m lines.
Proof.
  intros Hm. unfold strip_lines. rewrite <- list_fmap_compose.
  f_equal. apply list_fmap_ext. intros _ l _. simpl. f_equal.
  replace (Z.to_nat (Z.of_nat k + m)) with (k + Z.to_nat m)%nat by lia.
  rewrite <- drop_drop.
  rewrite drop_app_length' by (by rewrite length_replicate). done.
Qed.

Lemma join_lines (s : jsstring) :
  strip_lines 0 (split_lines s) = s ++ LF.
Proof.
  unfold strip_lines. change (Z.to_nat 0) with 0%nat.
  induction s as [|c r IH]; [done|].
  cbn [split_lines]. destruct (N.eqb_spec c 10) as [->|Hc].
  - rewrite fmap_cons, concat_cons, IH. done.
  - destruct (split_lines_cons_inv r) as (l & ls & E). rewrite E in *.
    rewrite fmap_cons, concat_cons in *. rewrite !drop_0 in *.
    rewrite <- !app_comm_cons. by rewrite IH.
Qed.

Lemma dedent_shift_flush (k : nat) (s : jsstring) :
  min_indent (split_lines s) = Some 0 -> 0 < Z.of_nat k < 999999 ->
  dedent (shift k s) = s ++ LF.
Proof.
  intros Hm Hk. unfold dedent, minimum_of.
  rewrite split_lines_shift, min_indent_shift, Hm. simpl.
  replace (Z.min (Z.of_nat k + 0) 999999) with (Z.of_nat k + 0) by lia.
  destruct (Z.eqb_spec (Z.of_nat k + 0) 0); [lia|].
  destruct (Z.eqb_spec (Z.of_nat k + 0) 999999); [lia|]. simpl.
  rewrite strip_shift by lia. apply join_lines.
Qed.

Lemma dedent_closed (s : jsstring) :
  min_indent (split_lines s) = Some 0 -> dedent (s ++ LF) = s ++ LF.
Proof.
  intros Hm. unfold dedent, minimum_of.
  by rewrite split_lines_snoc_LF, min_indent_closed, Hm.
Qed.

(** X8: indenting every line of a flush diagram by [k] spaces and
    dedenting gives the diagram back, with a newline appended; the two
    render alike. *)
Theorem removeLeadingSpace_shift_flush (k : nat) (s : jsstring) :
  min_indent (split_lines s) = Some 0 -> 0 < Z.of_nat k < 999999 ->
  removeLeadingSpace (shift k s) = Ok (s ++ LF)
  /\ render (shift k s) = render (s ++ LF).
Proof.
  intros Hm Hk. split.
  - rewrite removeLeadingSpace_run. f_equal. by apply dedent_shift_flush.
  - unfold render. rewrite !render_pieces_lines. unfold gridLines.
    by rewrite dedent_shift_flush, dedent_closed.
Qed.

Lemma removeLeadingSpace_shift_flush_witness :
  min_indent (split_lines (js "a")) = Some 0 /\ 0 < Z.of_nat 2 < 999999
  /\ removeLeadingSpace (shift 2 (js "a")) = Ok (js "a" ++ LF)
  /\ render (shift 2 (js "a")) = render (js "a" ++ LF).
Proof.
  split; [reflexivity|]. split; [lia|].
  apply (removeLeadingSpace_shift_flush 2 (js "a")); [reflexivity|lia].
Defined.

Lemma dedent_shift (k : nat) (s : jsstring) (m : Z) :
  min_indent (split_lines s) = Some m -> 0 < m ->
  Z.of_nat k + m < 999999 -> dedent (shift k s) = dedent s.
Proof.
  intros Hm Hpos Hlt.
  rewrite (dedent_strips s m) by (done || lia).
  rewrite (dedent_strips (shift k s) (Z.of_nat k + m)).
  - rewrite split_lines_shift. apply strip_shift. lia.
  - by rewrite split_lines_shift, min_indent_shift, Hm.
  - lia.
Qed.

(** X9: indenting every line of an indented diagram by [k] more spaces
    changes neither the result of the dedent step nor the picture. *)
Theorem removeLeadingSpace_shift (k : nat) (s : jsstring) (m : Z) :
  min_indent (split_lines s) = Some m -> 0 < m ->
  Z.of_nat k + m < 999999 ->
  removeLeadingSpace (shift k s) = removeLeadingSpace s
  /\ render (shift k s) = render s.
Proof.
  intros Hm Hpos Hlt. split.
  - rewrite !removeLeadingSpace_run. f_equal. by apply (dedent_shift k s m).
  - unfold render. rewrite !render_pieces_lines. unfold gridLines.
    by rewrite (dedent_shift k s m).
Qed.

Lemma removeLeadingSpace_shift_witness :
  min_indent (split_lines (js " a")) = Some 1 /\ 0 < 1
  /\ Z.of_nat 3 + 1 < 999999
  /\ removeLeadingSpace (shift 3 (js " a")) = removeLeadingSpace (js " a")
  /\ render (shift 3 (js " a")) = render (js " a").
Proof.
  split; [reflexivity|]. split; [lia|]. split; [lia|].
  apply (removeLeadingSpace_shift 3 (js " a") 1); [reflexivity|lia|lia].
Defined.

(** X10: rendering the result of the dedent step gives the picture of the
    diagram itself. *)
Theorem render_dedented (s : jsstring) :
  exists r, removeLeadingSpace s = Ok r /\ render r = render s.
Proof.
  exists (dedent s). split; [apply removeLeadingSpace_run|].
  unfold render. rewrite !render_pieces_lines. unfold gridLines.
  by rewrite dedent_fixed.
Qed.

(** ** Maximal runs *)

Section Emitting.
Variable get : Z -> Z -> outcome jsstring.
Variable cell : Z -> Z -> jsstring.
Variable index : Z -> Z -> Z.
Variables count extent : Z.
Hypothesis get_cell : forall k i, get k i = Ok (cell k i).
Hypothesis count_nonneg : 0 <= count.
Hypothesis extent_nonneg : 0 <= extent.

Lemma Emitted_start (isSolid : jsstring -> bool) :
  Emitted cell count extent isSolid 0 0 [].
Proof.
  intros [[a b] k]. split; [by intros H%elem_of_nil|].
  intros [Hm Hb]. unfold maximal, run_before in *. lia.
Qed.

Lemma Emitted_next_line (isSolid : jsstring -> bool) (k : Z)
    (runs : list run) :
  Emitted cell count extent isSolid extent k runs ->
  Emitted cell count extent isSolid 0 (k + 1) runs.
Proof.
  intros H [[a b] k']. rewrite (H (a, b, k')).
  unfold maximal, run_before. split; intros [Hm Hb]; (split; [done|]); lia.
Qed.

Lemma Emitted_done (isSolid : jsstring -> bool) (runs : list run) :
  Emitted cell count extent isSolid 0 count runs ->
  forall r, r ∈ runs <-> maximal cell count extent isSolid r.
Proof.
  intros H [[a b] k]. rewrite (H (a, b, k)).
  unfold maximal, run_before. split; [tauto|]. intros Hm. split; [done|lia].
Qed.

Lemma Emitted_skip (isSolid : jsstring -> bool) (i k : Z) (runs : list run) :
  isSolid (cell k i) = false ->
  Emitted cell count extent isSolid i k runs ->
  Emitted cell count extent isSolid (i + 1) k runs.
Proof.
  intros Hc H [[a b] k']. rewrite (H (a, b, k')).
  unfold maximal, run_before. split; intros [Hm Hb]; (split; [done|]).
  - lia.
  - destruct Hb as [Hb|[-> Hb]]; [by left|]. right. split; [done|].
    destruct (decide (b = i + 1)) as [->|]; [|lia].
    destruct Hm as (_ & _ & Hab & Hs & _).
    rewrite (Hs i) in Hc by lia. done.
Qed.

Lemma Emitted_run (isSolid : jsstring -> bool) (i j k : Z)
    (runs : list run) :
  0 <= k < count -> 0 <= i < j -> j <= extent ->
  boundary cell extent isSolid i k ->
  (forall x, i <= x < j -> isSolid (cell k x) = true) ->
  (j = extent \/ isSolid (cell k j) = false) ->
  Emitted cell count extent isSolid i k runs ->
  Emitted cell count extent isSolid j k
    (if j - i >=? 2 then runs ++ [(i, j, k)] else runs).
Proof.
  intros Hk Hij Hj Hbd Hsolid Hend H [[a b] k'].
  assert (Hleft : i = 0 \/ isSolid (cell k (i - 1)) = false).
  { destruct Hbd as [Hb|[Hb|[Hb|Hb]]]; [by left|lia|by right|].
    rewrite Hsolid in Hb by lia. done. }
  assert (Hnew : maximal cell count extent isSolid (a, b, k') ->
                 k' = k -> i < b <= j -> a = i /\ b = j).
  { intros (_ & Ha & Hab & Hs & Hl & Hr) -> Hb.
    assert (a = i).
    { destruct (Z.lt_trichotomy a i) as [Hlt|[Heq|Hgt]]; [|done|].
      - destruct Hleft as [Hz|Hz]; [lia|].
        rewrite Hs in Hz by lia. done.
      - destruct Hl as [Hz|Hz]; [lia|].
        rewrite Hsolid in Hz by lia. done. }
    split; [done|].
    destruct (decide (b = j)) as [|Hne]; [done|].
    destruct Hr as [Hz|Hz]; [lia|].
    rewrite Hsolid in Hz by lia. done. }
  assert (Hold : (a, b, k') ∈ runs \/ ((a, b, k') = (i, j, k) /\ i + 2 <= j)
                 <-> maximal cell count extent isSolid (a, b, k')
                     /\ run_before j k (a, b, k')).
  { rewrite (H (a, b, k')). split.
    - intros [[Hm Hb]|[[= -> -> ->] Hlen]].
      + split; [done|]. unfold run_before in *. lia.
      + split; [|unfold run_before; lia].
        unfold maximal. repeat split; try done; lia.
    - intros [Hm Hb].
      destruct (decide (k' = k /\ i < b)) as [[-> Hib]|Hn].
      + right. unfold run_before in Hb. destruct (Hnew Hm eq_refl) as [-> ->];
          [lia|]. split; [done|]. unfold maximal in Hm. lia.
      + left. split; [done|]. unfold run_before in *. lia. }
  rewrite <- Hold. destruct (Z.geb_spec (j - i) 2).
  - rewrite elem_of_app, list_elem_of_singleton. split.
    + intros [Hin|Heq]; [by left|]. right. split; [done|lia].
    + intros [Hin|[Heq _]]; [by left|by right].
  - split; [by left|]. intros [Hin|[_ Hlen]]; [done|lia].
Qed.

(** A line pass emits one piece for every maximal run of two cells or
    more, and nothing else. *)
Lemma scanLines_emitted (isSolid : jsstring -> bool)
    (mk : Z -> Z -> Z -> piece) (used : mask) (svg : list piece) :
  exists st' runs,
    scanLines get isSolid index mk count extent (used, svg) = Ok st'
    /\ st'.2 = svg ++ (run_piece mk <$> runs)
    /\ forall r, r ∈ runs <-> maximal cell count extent isSolid r.
Proof.
  unfold scanLines.
  destruct (for_rangeM_post (fun k (st : mask * list piece) =>
      exists runs, st.2 = svg ++ (run_piece mk <$> runs)
                   /\ Emitted cell count extent isSolid 0 k runs)
    (fun st : mask * list piece =>
      exists runs, st.2 = svg ++ (run_piece mk <$> runs)
                   /\ forall r, r ∈ runs
                                <-> maximal cell count extent isSolid r)
    count
    (fun k '(used, svg) =>
      '(_, used, svg) ←
        while (Z.to_nat extent)
          (fun '(i, _, _) => Ok (i <? extent))
          (fun '(i, used, svg) =>
            c ← get k i;
            if isSolid c then
              let start := i in
              '(i, used) ←
                while (Z.to_nat extent)
                  (fun '(i, _) =>
                    if i <? extent then c ← get k i; Ok (isSolid c)
                    else Ok false)
                  (fun '(i, used) =>
                    Ok (i + 1, slotset used (index k i) true))
                  (i, used);
              if i - start >=? 2 then Ok (i, used, svg ++ [mk start i k])
              else Ok (i, used, svg)
            else Ok (i + 1, used, svg))
          (0, used, svg);
      Ok (used, svg)) count_nonneg) with (s := (used, svg))
    as (st' & Hrun & runs & Hsvg & HE).
  - (* one scan line *)
    intros k [used0 svg0] Hk (runs0 & Hsvg0 & HE0). simpl in *.
    apply (bind_post _ _ (fun s : Z * mask * list piece =>
      exists runs, s.2 = svg ++ (run_piece mk <$> runs)
                   /\ Emitted cell count extent isSolid extent k runs)).
    + apply (while_post (fun s : Z * mask * list piece =>
        0 <= s.1.1 <= extent
        /\ boundary cell extent isSolid s.1.1 k
        /\ exists runs, s.2 = svg ++ (run_piece mk <$> runs)
                        /\ Emitted cell count extent isSolid s.1.1 k runs)
        _ (fun s => Z.to_nat (extent - s.1.1))).
      * intros [[i u] v] (Hi & Hbd & runs & Hv & HR). simpl in *.
        eexists. split; [done|]. split.
        -- intros Hlt. apply Z.ltb_lt in Hlt. rewrite get_cell. simpl.
           destruct (isSolid (cell k i)) eqn:E.
           ++ apply (bind_post _ _ (fun s : Z * mask =>
                i < s.1 <= extent
                /\ (forall j, i <= j < s.1 -> isSolid (cell k j) = true)
                /\ (s.1 = extent \/ isSolid (cell k s.1) = false))).
              ** apply (while_post (fun s : Z * mask =>
                   i <= s.1 <= extent
                   /\ forall j, i <= j < s.1 -> isSolid (cell k j) = true)
                   _ (fun s => Z.to_nat (extent - s.1))).
                 --- intros [j w] (Hj & Hsolid). simpl in *.
                     rewrite get_cell. simpl.
                     exists ((j <? extent) && isSolid (cell k j)).
                     split; [by destruct (j <? extent)|]. split.
                     +++ intros Hc. apply andb_true_iff in Hc as [Hc1 Hc2].
                         apply Z.ltb_lt in Hc1.
                         eexists. split; [done|]. simpl.
                         split; [|lia]. split; [lia|].
                         intros j' Hj'.
                         destruct (decide (j' = j)) as [->|]; [done|].
                         apply Hsolid. lia.
                     +++ intros Hc. split; [|split; [done|]].
                         *** destruct (decide (j = i)) as [->|]; [|lia].
                             rewrite E in Hc.
                             destruct (Z.ltb_spec i extent); [done|lia].
                         *** destruct (Z.ltb_spec j extent); [|left; lia].
                             by right.
                 --- simpl. split; [lia|]. intros; lia.
                 --- simpl. lia.
              ** intros [j w] (Hj & Hsolid & Hend). simpl in *.
                 pose proof (Emitted_run isSolid i j k runs Hk
                   ltac:(lia) ltac:(lia) Hbd Hsolid Hend HR) as HR'.
                 assert (Hbd' : boundary cell extent isSolid j k).
                 { unfold boundary. destruct Hend; [right; by left|].
                   by repeat right. }
                 destruct (Z.geb_spec (j - i) 2);
                   eexists; (split; [done|]); simpl.
                 --- split; [|lia]. split; [lia|]. split; [done|].
                     exists (runs ++ [(i, j, k)]). split; [|done].
                     rewrite Hv, fmap_app, app_assoc. done.
                 --- split; [|lia]. split; [lia|]. split; [done|].
                     exists runs. done.
           ++ eexists. split; [done|]. simpl.
              split; [|lia]. split; [lia|]. split.
              ** unfold boundary. right. right. left.
                 by replace (i + 1 - 1) with i by lia.
              ** exists runs. split; [done|]. by apply Emitted_skip.
        -- intros Hge. apply Z.ltb_ge in Hge.
           assert (i = extent) by lia. subst i. eauto.
      * simpl. split; [lia|]. split; [by left|]. eauto.
      * simpl. lia.
    + intros [[i u] v] (runs & Hv & HR). simpl in *.
      eexists. split; [done|]. simpl.
      exists runs. split; [done|]. by apply Emitted_next_line.
  - intros [u v] (runs & Hv & HR). simpl in *.
    exists runs. split; [done|]. by apply Emitted_done.
  - simpl. exists []. split; [by rewrite app_nil_r|]. apply Emitted_start.
  - exists st', runs. done.
Qed.
End Emitting.

Lemma render_pieces_exact (s : jsstring) :
  exists hruns vruns,
    render_pieces s = Ok (assemble s hruns vruns)
    /\ (forall r, r ∈ hruns <-> HMax s r)
    /\ (forall r, r ∈ vruns <-> VMax s r).
Proof.
  unfold render_pieces. rewrite removeLeadingSpace_run. simpl.
  rewrite gridWidth_run. simpl.
  unfold HMax, VMax.
  fold (gridLines s). fold (gridW s). fold (gridH s).
  set (lines := gridLines s). set (w := gridW s). set (h := gridH s).
  assert (Hw : 0 <= w) by apply max_width_nonneg.
  assert (Hh : 0 <= h) by apply gridHeight_bounds.
  rewrite used_init.
  pose proof (Marked_init w h Hw Hh) as HM0.
  (* horizontal lines *)
  rewrite drawHorizontalLines_scan.
  destruct (scanLines_run (fun y x => gridGet lines x y)
    (fun y x => cellAt lines x y) (fun y x => y * w + x) h w
    (fun y x => gridGet_run lines x y) Hh Hw
    (index_rows_range w h) (index_rows_inj w h) isSolidHLine
    (fun a b y => Line ((a + 1) * SCALE) ((y + 1) * SCALE * ASPECT)
                       (b * SCALE) ((y + 1) * SCALE * ASPECT))
    _ _ [SvgOpen ((w + 1) * SCALE) ((h + 1) * SCALE * ASPECT)] HM0)
    as ([used1 svg1] & Hs1 & HM1 & _).
  destruct (scanLines_emitted (fun y x => gridGet lines x y)
    (fun y x => cellAt lines x y) (fun y x => y * w + x) h w
    (fun y x => gridGet_run lines x y) Hh Hw isSolidHLine
    (fun a b y => Line ((a + 1) * SCALE) ((y + 1) * SCALE * ASPECT)
                       (b * SCALE) ((y + 1) * SCALE * ASPECT))
    (replicate (Z.to_nat (h * w)) (Some false))
    [SvgOpen ((w + 1) * SCALE) ((h + 1) * SCALE * ASPECT)])
    as (st1 & hruns & Hs1' & Hsvg1 & HE1).
  rewrite Hs1 in Hs1'. apply Ok_inj in Hs1'. subst st1.
  rewrite Hs1. clear Hs1.
  cbn [fst snd] in HM1, Hsvg1. subst svg1. cbn [mbind outcome_bind].
  fold hline.
  (* vertical lines *)
  rewrite drawVerticalLines_scan.
  apply Marked_flip in HM1.
  destruct (scanLines_run (fun x y => gridGet lines x y)
    (fun x y => cellAt lines x y) (fun x y => y * w + x) w h
    (fun x y => gridGet_run lines x y) Hw Hh
    (index_cols_range w h) (index_cols_inj w h) isSolidVLine
    (fun a b x => Line ((x + 1) * SCALE) ((a + 1) * SCALE * ASPECT)
                       ((x + 1) * SCALE) (b * SCALE * ASPECT))
    _ _ ([SvgOpen ((w + 1) * SCALE) ((h + 1) * SCALE * ASPECT)]
         ++ (hline <$> hruns)) HM1)
    as ([used2 svg2] & Hs2 & HM2 & _).
  destruct (scanLines_emitted (fun x y => gridGet lines x y)
    (fun x y => cellAt lines x y) (fun x y => y * w + x) w h
    (fun x y => gridGet_run lines x y) Hw Hh isSolidVLine
    (fun a b x => Line ((x + 1) * SCALE) ((a + 1) * SCALE * ASPECT)
                       ((x + 1) * SCALE) (b * SCALE * ASPECT))
    used1
    ([SvgOpen ((w + 1) * SCALE) ((h + 1) * SCALE * ASPECT)]
     ++ (hline <$> hruns)))
    as (st2 & vruns & Hs2' & Hsvg2 & HE2).
  rewrite Hs2 in Hs2'. apply Ok_inj in Hs2'. subst st2.
  rewrite Hs2. clear Hs2.
  cbn [fst snd] in HM2, Hsvg2. subst svg2. cbn [mbind outcome_bind].
  fold vline.
  apply (Marked_flip w h (fun y x =>
    isSolidHLine (cellAt lines x y) || isSolidVLine (cellAt lines x y)))
    in HM2.
  (* arrow heads *)
  rewrite drawArrowHeads_scan.
  destruct (scanCells_run (fun y x => gridGet lines x y)
    (fun y x => cellAt lines x y) (fun y x => y * w + x) h w
    (fun y x => gridGet_run lines x y) Hh Hw
    (index_rows_range w h) (index_rows_inj w h) isArrowHead
    (fun svg y x c => svg ++ [arrowAt y x c]) arrowAt _ used2
    (([SvgOpen ((w + 1) * SCALE) ((h + 1) * SCALE * ASPECT)]
      ++ (hline <$> hruns)) ++ (vline <$> vruns))
    (fun _ _ _ _ => eq_refl) HM2) as (used3 & -> & HM3).
  cbn [mbind outcome_bind].
  (* points *)
  rewrite drawPoints_scan.
  match goal with |- context [scanCells _ _ _ ?emit _ _ (_, ?svg)] =>
    destruct (scanCells_run (fun y x => gridGet lines x y)
      (fun y x => cellAt lines x y) (fun y x => y * w + x) h w
      (fun y x => gridGet_run lines x y) Hh Hw
      (index_rows_range w h) (index_rows_inj w h) isPoint
      emit pointAt _ used3 svg pointAt_emit HM3) as (used4 & -> & HM4)
  end.
  cbn [mbind outcome_bind].
  (* text *)
  rewrite drawText_scan.
  rewrite (scanText_run (fun y x => gridGet lines x y)
    (fun y x => cellAt lines x y) (fun y x => y * w + x) h w
    (fun y x => gridGet_run lines x y) Hh Hw _ _ _ _ _ HM4).
  cbn [mbind outcome_bind].
  exists hruns, vruns. split; [|done].
  f_equal. unfold assemble. rewrite <- !app_assoc. done.
Qed.

(** ** The extent of the grid *)

Lemma max_width_attained (lines : list jsstring) :
  max_width lines = 0
  \/ exists line, line ∈ lines /\ strlen line = max_width lines.
Proof.
  induction lines as [|l rest IH]; [by left|]. simpl.
  destruct (Z.max_spec (strlen l) (max_width rest)) as [[Hlt ->]|[Hge ->]].
  - destruct IH as [IH|(line & Hin & E)]; [by left|].
    right. exists line. split; [by right|done].
  - right. exists l. split; [by left|done].
Qed.

(** X11: [gridWidth] returns the length of a longest line: no line is
    longer, and some line is that long unless the width is 0. *)
Theorem gridWidth_longest (lines : list jsstring) :
  exists w,
    gridWidth lines = Ok w
    /\ Forall (fun line => strlen line <= w) lines
    /\ (w = 0 \/ exists line, line ∈ lines /\ strlen line = w).
Proof.
  exists (max_width lines). split; [apply gridWidth_run|]. split.
  - apply list.Forall_forall. intros line. apply max_width_bound.
  - apply max_width_attained.
Qed.

Lemma arrlen_split_lines (s : jsstring) :
  arrlen (split_lines s) = newlines s + 1.
Proof.
  unfold arrlen, newlines. induction s as [|c r IH]; [done|].
  cbn [split_lines]. rewrite filter_cons.
  destruct (N.eqb_spec c 10) as [->|Hc].
  - rewrite decide_True by done. simpl length. lia.
  - rewrite decide_False by done.
    destruct (split_lines_cons_inv r) as (l & ls & E). rewrite E in *.
    simpl in *. lia.
Qed.

Lemma newlines_snoc (s : jsstring) (c : N) :
  newlines (s ++ [c]) = newlines s + (if (c =? 10)%N then 1 else 0).
Proof.
  unfold newlines. rewrite list.filter_app, length_app, filter_cons, filter_nil.
  destruct (N.eqb_spec c 10).
  - rewrite decide_True by done. simpl. lia.
  - rewrite decide_False by done. simpl. lia.
Qed.

(** X12: the grid of a string has one row for each newline, and one more
    when the string does not end in a newline (and is not empty). *)
Theorem gridHeight_rows (s : jsstring) :
  gridHeight (split_lines s)
  = newlines s + match list.last s with
                 | Some c => if (c =? 10)%N then 0 else 1
                 | None => 0
                 end.
Proof.
  destruct (decide (s = [])) as [->|Hne]; [done|].
  destruct (exists_last Hne) as (r & c & ->).
  rewrite last_snoc, newlines_snoc.
  destruct (N.eqb_spec c 10) as [->|Hc].
  - change [10%N] with LF. rewrite split_lines_snoc_LF, gridHeight_closed.
    rewrite arrlen_split_lines. lia.
  - destruct (split_lines_open r c Hc) as (ls & l & Hl & E).
    pose proof (arrlen_split_lines (r ++ [c])) as Hlen.
    rewrite newlines_snoc in Hlen. rewrite E in *.
    rewrite gridHeight_open by done.
    destruct (N.eqb_spec c 10); [done|]. lia.
Qed.

(** ** The elements of the output *)

Lemma cellAt_inside (lines : list jsstring) (x y : Z) :
  cellAt lines x y <> js " " ->
  0 <= x < max_width lines /\ 0 <= y < gridHeight lines.
Proof.
  unfold cellAt. destruct (arrget lines y) as [line|] eqn:E; [|done].
  destruct (Z.ltb_spec x 0); [done|]. rewrite Z.geb_leb.
  destruct (Z.leb_spec (strlen line) x); [done|]. intros _.
  apply arrget_Some in E as Hy. split.
  - assert (line ∈ lines).
    { unfold arrget in E. destruct (y <? 0); [done|].
      by eapply list_elem_of_lookup_2. }
    pose proof (max_width_bound lines line H1). lia.
  - split; [lia|]. unfold gridHeight.
    destruct ((arrlen lines >? 0)
              && bool_decide (arrget lines (arrlen lines - 1) = Some []))
      eqn:C; [|lia].
    apply andb_true_iff in C as [_ C]. apply bool_decide_eq_true in C.
    destruct (decide (y = arrlen lines - 1)) as [->|]; [|lia].
    rewrite E in C. injection C as ->. unfold strlen in *. simpl in *. lia.
Qed.

Lemma cellAt_outside (lines : list jsstring) (x y : Z) :
  x < 0 \/ max_width lines <= x \/ y < 0 \/ gridHeight lines <= y ->
  cellAt lines x y = js " ".
Proof.
  intros H. destruct (decide (cellAt lines x y = js " ")) as [|Hne]; [done|].
  apply cellAt_inside in Hne. lia.
Qed.

Lemma HMax_hrun (s : jsstring) (a b y : Z) :
  HMax s (a, b, y) <-> hrun (gridLines s) a b y.
Proof.
  unfold HMax, maximal, hrun, gridH, gridW. split.
  - intros (Hy & Ha & Hab & Hs & Hl & Hr). split; [lia|]. split; [done|].
    split.
    + destruct Hl as [->|Hl]; [|done]. by rewrite cellAt_outside by lia.
    + destruct Hr as [->|Hr]; [|done]. by rewrite cellAt_outside by lia.
  - intros (Hab & Hs & Hl & Hr).
    assert (Hin : forall x, a <= x < b ->
      0 <= x < max_width (gridLines s)
      /\ 0 <= y < gridHeight (gridLines s)).
    { intros x Hx. apply cellAt_inside. intros E.
      specialize (Hs x Hx). by rewrite E in Hs. }
    pose proof (Hin a ltac:(lia)). pose proof (Hin (b - 1) ltac:(lia)).
    split; [lia|]. split; [lia|]. split; [lia|]. split; [done|].
    split; by right.
Qed.

Lemma VMax_vrun (s : jsstring) (a b x : Z) :
  VMax s (a, b, x) <-> vrun (gridLines s) a b x.
Proof.
  unfold VMax, maximal, vrun, gridH, gridW. split.
  - intros (Hx & Ha & Hab & Hs & Hl & Hr). split; [lia|]. split; [done|].
    split.
    + destruct Hl as [->|Hl]; [|done]. by rewrite cellAt_outside by lia.
    + destruct Hr as [->|Hr]; [|done]. by rewrite cellAt_outside by lia.
  - intros (Hab & Hs & Hl & Hr).
    assert (Hin : forall y, a <= y < b ->
      0 <= x < max_width (gridLines s)
      /\ 0 <= y < gridHeight (gridLines s)).
    { intros y Hy. apply cellAt_inside. intros E.
      specialize (Hs y Hy). by rewrite E in Hs. }
    pose proof (Hin a ltac:(lia)). pose proof (Hin (b - 1) ltac:(lia)).
    split; [lia|]. split; [lia|]. split; [lia|]. split; [done|].
    split; by right.
Qed.

(** The pieces of the output, one kind at a time. *)
Lemma elem_of_assemble (s : jsstring) (hruns vruns : list run) (p : piece) :
  p ∈ assemble s hruns vruns
  <-> p = SvgOpen ((gridW s + 1) * SCALE) ((gridH s + 1) * SCALE * ASPECT)
      \/ (exists r, r ∈ hruns /\ p = hline r)
      \/ (exists r, r ∈ vruns /\ p = vline r)
      \/ (exists x y, isArrowHead (cellAt (gridLines s) x y) = true
                      /\ p = arrowAt y x (cellAt (gridLines s) x y))
      \/ (exists x y, isPoint (cellAt (gridLines s) x y) = true
                      /\ p = pointAt y x (cellAt (gridLines s) x y))
      \/ p = TextOpen
      \/ (exists x y, isText (cellAt (gridLines s) x y) = true
                      /\ p = textAt y x (cellAt (gridLines s) x y))
      \/ p = TextClose \/ p = SvgClose.
Proof.
  assert (Hcells : forall (cls : jsstring -> bool)
      (mk : Z -> Z -> jsstring -> piece),
    cls (js " ") = false ->
    p ∈ cellsUpto (gridW s) (fun y x =>
          if cls (cellAt (gridLines s) x y)
          then [mk y x (cellAt (gridLines s) x y)] else []) 0 (gridH s)
    <-> exists x y, cls (cellAt (gridLines s) x y) = true
                    /\ p = mk y x (cellAt (gridLines s) x y)).
  { intros cls mk Hcls.
    rewrite (elem_of_cells_if (gridW s) (gridH s)
      (fun y x => cls (cellAt (gridLines s) x y))
      (fun y x => mk y x (cellAt (gridLines s) x y))).
    split.
    - intros (y & x & _ & _ & Hc & ->). by exists x, y.
    - intros (x & y & Hc & ->). exists y, x.
      assert (Hne : cellAt (gridLines s) x y <> js " ").
      { intros E. rewrite E in Hc. congruence. }
      apply cellAt_inside in Hne. unfold gridW, gridH. tauto. }
  unfold assemble. rewrite elem_of_app, list_elem_of_singleton, elem_of_body.
  unfold arrows, points, texts.
  rewrite (Hcells isArrowHead arrowAt), (Hcells isPoint pointAt),
    (Hcells isText textAt) by done.
  rewrite !list_elem_of_fmap.
  split.
  - intros [H|[(r & -> & H)|[(r & -> & H)|H]]]; eauto 10; tauto.
  - intros [H|[(r & Hr & ->)|[(r & Hr & ->)|H]]]; eauto 10; tauto.
Qed.

Ltac other_piece :=
  match goal with
  | H : _ = hline ?r |- _ => destruct r as [[? ?] ?]; discriminate H
  | H : _ = vline ?r |- _ => destruct r as [[? ?] ?]; discriminate H
  | H : _ = arrowAt _ _ _ |- _ => discriminate H
  | H : _ = textAt _ _ _ |- _ => discriminate H
  | H : _ = pointAt _ _ ?c |- _ =>
      unfold pointAt in H; destruct (c === js "*"); discriminate H
  | H : _ = _ |- _ => discriminate H
  end.

(** X13: the horizontal lines of the output are those of the maximal runs
    of two or more [-] and [+] in a row of the grid, from the centre of the
    first cell of the run to the centre of its last cell. *)
Theorem render_horizontal_lines (s : jsstring) :
  exists pieces,
    render_pieces s = Ok pieces
    /\ forall x1 x2 cy,
         Line x1 cy x2 cy ∈ pieces
         <-> exists a b y, hrun (gridLines s) a b y
               /\ x1 = (a + 1) * 8 /\ x2 = b * 8 /\ cy = (y + 1) * 16.
Proof.
  destruct (render_pieces_exact s) as (hruns & vruns & Hrun & HE & VE).
  eexists. split; [exact Hrun|]. intros x1 x2 cy.
  rewrite elem_of_assemble. split.
  - intros [H|[(r & Hr & H)|[(r & Hr & H)|[(x & y & _ & H)|[(x & y & _ & H)
      |[H|[(x & y & _ & H)|[H|H]]]]]]]]; try other_piece.
    + destruct r as [[a b] y]. apply HE, HMax_hrun in Hr.
      injection H as -> -> ->. exists a, b, y.
      unfold SCALE, ASPECT. split; [done|]. lia.
    + destruct r as [[a b] x]. apply VE in Hr.
      destruct Hr as (_ & _ & Hab & _). injection H as _ H1 _ H2.
      unfold SCALE, ASPECT in *. lia.
  - intros (a & b & y & Hr & -> & -> & ->). right. left.
    exists (a, b, y). split; [by apply HE, HMax_hrun|].
    unfold hline, run_piece, SCALE, ASPECT. f_equal; lia.
Qed.

(** X14: the vertical lines of the output are those of the maximal runs
    of two or more [|] and [+] in a column of the grid. *)
Theorem render_vertical_lines (s : jsstring) :
  exists pieces,
    render_pieces s = Ok pieces
    /\ forall cx y1 y2,
         Line cx y1 cx y2 ∈ pieces
         <-> exists a b x, vrun (gridLines s) a b x
               /\ cx = (x + 1) * 8 /\ y1 = (a + 1) * 16 /\ y2 = b * 16.
Proof.
  destruct (render_pieces_exact s) as (hruns & vruns & Hrun & HE & VE).
  eexists. split; [exact Hrun|]. intros cx y1 y2.
  rewrite elem_of_assemble. split.
  - intros [H|[(r & Hr & H)|[(r & Hr & H)|[(x & y & _ & H)|[(x & y & _ & H)
      |[H|[(x & y & _ & H)|[H|H]]]]]]]]; try other_piece.
    + destruct r as [[a b] y]. apply HE in Hr.
      destruct Hr as (_ & _ & Hab & _). injection H as H1 _ H2 _.
      unfold SCALE, ASPECT in *. lia.
    + destruct r as [[a b] x]. apply VE, VMax_vrun in Hr.
      injection H as -> -> _ ->. exists a, b, x.
      unfold SCALE, ASPECT. split; [done|]. lia.
  - intros (a & b & x & Hr & -> & -> & ->). right. right. left.
    exists (a, b, x). split; [by apply VE, VMax_vrun|].
    unfold vline, run_piece, SCALE, ASPECT. f_equal; lia.
Qed.

Lemma isArrowHead_cases (c : jsstring) :
  isArrowHead c = true
  <-> c = js ">" \/ c = js "v" \/ c = js "V" \/ c = js "<" \/ c = js "^".
Proof.
  unfold isArrowHead, str_eq.
  rewrite !orb_true_iff, !bool_decide_eq_true. tauto.
Qed.

(** X15: the polygons of the output are the arrow heads of the grid, one
    for each cell holding [>], [v], [V], [<] or [^] (wherever it stands),
    rotated by 0, 90, 90, 180 or 270 degrees about the centre of the cell,
    the tip 8 pixels from the centre. *)
Theorem render_polygons (s : jsstring) :
  exists pieces,
    render_pieces s = Ok pieces
    /\ forall tipX tipY backX upY dnY angle cx cy,
         Polygon tipX tipY backX upY dnY angle cx cy ∈ pieces
         <-> exists x y,
               (cellAt (gridLines s) x y = js ">" /\ angle = 0
                \/ (cellAt (gridLines s) x y = js "v"
                    \/ cellAt (gridLines s) x y = js "V") /\ angle = 90
                \/ cellAt (gridLines s) x y = js "<" /\ angle = 180
                \/ cellAt (gridLines s) x y = js "^" /\ angle = 270)
               /\ cx = (x + 1) * 8 /\ cy = (y + 1) * 16
               /\ tipX = cx + 8 /\ tipY = cy /\ backX = cx - 4
               /\ upY = cy - 3 /\ dnY = cy + 3.
Proof.
  destruct (render_pieces_run s) as (hruns & vruns & Hrun & _ & _).
  eexists. split; [exact Hrun|]. intros tipX tipY backX upY dnY angle cx cy.
  rewrite elem_of_assemble. split.
  - intros [H|[(r & Hr & H)|[(r & Hr & H)|[(x & y & Hc & H)|[(x & y & _ & H)
      |[H|[(x & y & _ & H)|[H|H]]]]]]]]; try other_piece.
    injection H as -> -> -> -> -> -> -> ->. exists x, y.
    split; [|unfold SCALE, ASPECT; lia].
    apply isArrowHead_cases in Hc as [E|[E|[E|[E|E]]]]; rewrite E;
      vm_compute angleOf; tauto.
  - intros (x & y & Hc & -> & -> & -> & -> & -> & -> & ->).
    do 3 right. left. exists x, y.
    assert (isArrowHead (cellAt (gridLines s) x y) = true
            /\ angleOf (cellAt (gridLines s) x y) = angle) as [Hh Ha].
    { destruct Hc as [[-> ->]|[[[->| ->] ->]|[[-> ->]|[-> ->]]]]; done. }
    split; [done|]. unfold arrowAt, SCALE, ASPECT. rewrite Ha. f_equal; lia.
Qed.

(** X16: the filled circles of the output are the cells holding [*], the
    hollow ones the cells holding [o], each centred on its cell. *)
Theorem render_circles (s : jsstring) :
  exists pieces,
    render_pieces s = Ok pieces
    /\ (forall cx cy,
          CircleFilled cx cy ∈ pieces
          <-> exists x y, cellAt (gridLines s) x y = js "*"
                          /\ cx = (x + 1) * 8 /\ cy = (y + 1) * 16)
    /\ (forall cx cy,
          CircleHollow cx cy ∈ pieces
          <-> exists x y, cellAt (gridLines s) x y = js "o"
                          /\ cx = (x + 1) * 8 /\ cy = (y + 1) * 16).
Proof.
  destruct (render_pieces_run s) as (hruns & vruns & Hrun & _ & _).
  eexists. split; [exact Hrun|].
  assert (Hp : forall c, isPoint c = true <-> c = js "o" \/ c = js "*").
  { intros c. unfold isPoint, str_eq.
    by rewrite orb_true_iff, !bool_decide_eq_true. }
  split; intros cx cy; rewrite elem_of_assemble; split.
  - intros [H|[(r & Hr & H)|[(r & Hr & H)|[(x & y & _ & H)|[(x & y & Hc & H)
      |[H|[(x & y & _ & H)|[H|H]]]]]]]]; try other_piece.
    unfold pointAt, str_eq in H. case_bool_decide as E; [|done].
    injection H as -> ->. exists x, y. unfold SCALE, ASPECT.
    split; [done|lia].
  - intros (x & y & E & -> & ->). do 4 right. left. exists x, y.
    rewrite E. split; [done|]. unfold pointAt.
    replace (js "*" === js "*") with true by done.
    unfold SCALE, ASPECT. f_equal; lia.
  - intros [H|[(r & Hr & H)|[(r & Hr & H)|[(x & y & _ & H)|[(x & y & Hc & H)
      |[H|[(x & y & _ & H)|[H|H]]]]]]]]; try other_piece.
    unfold pointAt, str_eq in H. case_bool_decide as E; [done|].
    injection H as -> ->. exists x, y. unfold SCALE, ASPECT.
    apply Hp in Hc as [Hc|Hc]; [|done]. split; [done|lia].
  - intros (x & y & E & -> & ->). do 4 right. left. exists x, y.
    rewrite E. split; [done|]. unfold pointAt.
    replace (js "o" === js "*") with false by done.
    unfold SCALE, ASPECT. f_equal; lia.
Qed.

(** X17: the text elements of the output are the cells that hold neither
    a blank nor a vertex, line, arrow head or point character; each holds
    the escaped character of its cell, 4 pixels below the centre. *)
Theorem render_texts (s : jsstring) :
  exists pieces,
    render_pieces s = Ok pieces
    /\ forall px py escaped,
         Text px py escaped ∈ pieces
         <-> exists x y,
               cellAt (gridLines s) x y <> js " "
               /\ isVertex (cellAt (gridLines s) x y) = false
               /\ isSolidHLine (cellAt (gridLines s) x y) = false
               /\ isSolidVLine (cellAt (gridLines s) x y) = false
               /\ isArrowHead (cellAt (gridLines s) x y) = false
               /\ isPoint (cellAt (gridLines s) x y) = false
               /\ px = (x + 1) * 8 /\ py = 4 + (y + 1) * 16
               /\ escaped = escapeHTMLEntities (cellAt (gridLines s) x y).
Proof.
  destruct (render_pieces_run s) as (hruns & vruns & Hrun & _ & _).
  eexists. split; [exact Hrun|]. intros px py escaped.
  assert (Ht : forall c, isText c = true
    <-> c <> js " " /\ isVertex c = false /\ isSolidHLine c = false
        /\ isSolidVLine c = false /\ isArrowHead c = false
        /\ isPoint c = false).
  { intros c. unfold isText, isShape.
    rewrite !andb_true_iff, !negb_true_iff, !orb_false_iff.
    unfold str_eq at 1. rewrite bool_decide_eq_false. tauto. }
  rewrite elem_of_assemble. split.
  - intros [H|[(r & Hr & H)|[(r & Hr & H)|[(x & y & _ & H)|[(x & y & _ & H)
      |[H|[(x & y & Hc & H)|[H|H]]]]]]]]; try other_piece.
    injection H as -> -> ->. exists x, y. apply Ht in Hc.
    unfold SCALE, ASPECT. repeat (split; [tauto || lia|]). done.
  - intros (x & y & H1 & H2 & H3 & H4 & H5 & H6 & -> & -> & ->).
    do 6 right. left. exists x, y. split; [by apply Ht|].
    unfold textAt, SCALE, ASPECT. f_equal; lia.
Qed.

Lemma Forall_cells (P : piece -> Prop) (extent count : Z)
    (cls : Z -> Z -> bool) (mk : Z -> Z -> piece) :
  (forall k i, P (mk k i)) ->
  Forall P (cellsUpto extent (fun k i => if cls k i then [mk k i] else [])
              0 count).
Proof.
  intros H. apply list.Forall_forall. intros p Hp.
  apply elem_of_cells_if in Hp as (k & i & _ & _ & _ & ->). apply H.
Qed.

(** X18: the output lists the horizontal lines, then the vertical lines,
    the polygons and the circles, and last the text group, which holds the
    text elements and nothing else. *)
Theorem render_order (s : jsstring) :
  exists hl vl ps cs ts,
    render_pieces s
    = Ok ([SvgOpen ((gridW s + 1) * 8) ((gridH s + 1) * 16)]
          ++ hl ++ vl ++ ps ++ cs ++ [TextOpen] ++ ts
          ++ [TextClose; SvgClose])
    /\ Forall (fun p => isHorizontal p = true) hl
    /\ Forall (fun p => isVertical p = true) vl
    /\ Forall (fun p => isPolygon p = true) ps
    /\ Forall (fun p => isCircle p = true) cs
    /\ Forall (fun p => isTextPiece p = true) ts.
Proof.
  destruct (render_pieces_run s) as (hruns & vruns & Hrun & HR & VR).
  exists (hline <$> hruns), (vline <$> vruns),
    (arrows (gridLines s) (gridW s) (gridH s)),
    (points (gridLines s) (gridW s) (gridH s)),
    (texts (gridLines s) (gridW s) (gridH s)).
  split.
  { rewrite Hrun. unfold assemble.
    replace ((gridH s + 1) * SCALE * ASPECT) with ((gridH s + 1) * 16)
      by (unfold SCALE, ASPECT; lia).
    done. }
  destruct HR as (HR & _). destruct VR as (VR & _).
  split; [|split; [|split; [|split]]].
  - apply Forall_fmap. eapply List.Forall_impl; [|exact HR].
    intros [[a b] k] (_ & Hab & _). apply isHorizontal_hline. lia.
  - apply Forall_fmap. eapply List.Forall_impl; [|exact VR].
    intros [[a b] k] (_ & Hab & _). apply isVertical_vline. lia.
  - apply (Forall_cells _ _ _ (fun y x => isArrowHead (cellAt _ x y))
      (fun y x => arrowAt y x (cellAt (gridLines s) x y))). done.
  - apply (Forall_cells _ _ _ (fun y x => isPoint (cellAt _ x y))
      (fun y x => pointAt y x (cellAt (gridLines s) x y))).
    intros y x. unfold pointAt. by destruct (_ === _).
  - apply (Forall_cells _ _ _ (fun y x => isText (cellAt _ x y))
      (fun y x => textAt y x (cellAt (gridLines s) x y))). done.
Qed.

(** X19: every element lies inside the picture of the header: the end
    points of a line, the square of side 16 around the centre of an arrow
    head, the square around a circle of radius 6, the anchor of a text. *)
Theorem render_inside (s : jsstring) :
  exists W H rest,
    render_pieces s = Ok (SvgOpen W H :: rest)
    /\ Forall (inside W H) rest.
Proof.
  destruct (render_pieces_exact s) as (hruns & vruns & Hrun & HE & VE).
  eexists _, _, _. split; [exact Hrun|].
  apply list.Forall_forall. intros p Hp.
  assert (Hin : p ∈ assemble s hruns vruns) by (unfold assemble; by right).
  assert (Hcell : forall (cls : jsstring -> bool) x y,
    cls (js " ") = false -> cls (cellAt (gridLines s) x y) = true ->
    0 <= x < gridW s /\ 0 <= y < gridH s).
  { intros cls x y Hb Hc. apply cellAt_inside. intros E.
    rewrite E in Hc. congruence. }
  apply elem_of_assemble in Hin
    as [->|[(r & Hr & ->)|[(r & Hr & ->)|[(x & y & Hc & ->)|[(x & y & Hc & ->)
      |[->|[(x & y & Hc & ->)|[->| ->]]]]]]]]; try done.
  - destruct r as [[a b] k]. apply HE in Hr as (Hk & Ha & Hab & _).
    unfold hline, run_piece, inside, SCALE, ASPECT. lia.
  - destruct r as [[a b] k]. apply VE in Hr as (Hk & Ha & Hab & _).
    unfold vline, run_piece, inside, SCALE, ASPECT. lia.
  - apply (Hcell isArrowHead) in Hc; [|done].
    unfold arrowAt, inside, SCALE, ASPECT. lia.
  - apply (Hcell isPoint) in Hc; [|done].
    unfold pointAt. destruct (_ === _); unfold inside, SCALE, ASPECT; lia.
  - apply (Hcell isText) in Hc; [|done].
    unfold textAt, inside, SCALE, ASPECT. lia.
Qed.

(** ** Diagrams that draw nothing *)

Lemma cells_nil (extent count : Z) (cls : Z -> Z -> bool)
    (mk : Z -> Z -> piece) :
  (forall k i, cls k i = false) ->
  cellsUpto extent (fun k i => if cls k i then [mk k i] else []) 0 count = [].
Proof.
  intros H. apply elem_of_nil_inv. intros p Hp.
  apply elem_of_cells_if in Hp as (k & i & _ & _ & Hc & _).
  rewrite H in Hc. done.
Qed.

Lemma quiet_cell (s : jsstring) (x y : Z) :
  forallb isQuiet s = true ->
  isShape (cellAt (gridLines s) x y) = false
  /\ isText (cellAt (gridLines s) x y) = false.
Proof.
  intros H.
  assert (H0 : Forall (fun c => isQuiet c = true) s).
  { apply List.Forall_forall. by apply forallb_forall. }
  pose proof (gridLines_chars _ s H0) as Hq.
  pose proof (split_lines_noLF (dedent s)) as Hn. fold (gridLines s) in Hn.
  destruct (cellAt_unit (gridLines s) x y) as [->|(line & c & Hl & Hc & ->)].
  - done.
  - rewrite list.Forall_forall in Hq, Hn.
    specialize (Hq _ Hl). specialize (Hn _ Hl). unfold noLF in Hn.
    rewrite list.Forall_forall in Hq, Hn.
    specialize (Hq _ Hc). specialize (Hn _ Hc). simpl in Hq.
    unfold isQuiet in Hq.
    rewrite !orb_true_iff, !N.eqb_eq in Hq.
    destruct Hq as [[[[[->| ->]| ->]| ->]| ->]| ->]; done.
Qed.

(** X20: a diagram of blanks, newlines and the vertex characters other
    than [+] draws nothing: the output is the header and an empty text
    group. *)
Theorem render_quiet (s : jsstring) :
  forallb isQuiet s = true ->
  render_pieces s
  = Ok [SvgOpen ((gridW s + 1) * 8) ((gridH s + 1) * 16);
        TextOpen; TextClose; SvgClose].
Proof.
  intros H.
  destruct (render_pieces_exact s) as (hruns & vruns & Hrun & HE & VE).
  rewrite Hrun. f_equal.
  assert (Hs : forall x y, isSolidHLine (cellAt (gridLines s) x y) = false
                           /\ isSolidVLine (cellAt (gridLines s) x y) = false
                           /\ isArrowHead (cellAt (gridLines s) x y) = false
                           /\ isPoint (cellAt (gridLines s) x y) = false).
  { intros x y. destruct (quiet_cell s x y H) as [Hsh _].
    unfold isShape in Hsh. rewrite !orb_false_iff in Hsh. tauto. }
  assert (hruns = []) as ->.
  { apply elem_of_nil_inv. intros [[a b] k] Hr.
    apply HE in Hr as (_ & _ & Hab & Hsolid & _).
    destruct (Hs a k) as [E _]. rewrite Hsolid in E by lia. done. }
  assert (vruns = []) as ->.
  { apply elem_of_nil_inv. intros [[a b] k] Hr.
    apply VE in Hr as (_ & _ & Hab & Hsolid & _).
    destruct (Hs k a) as (_ & E & _). rewrite Hsolid in E by lia. done. }
  unfold assemble, arrows, points, texts.
  rewrite (cells_nil _ _ (fun y x => isArrowHead (cellAt (gridLines s) x y))
    (fun y x => arrowAt y x (cellAt (gridLines s) x y)))
    by (intros; apply Hs).
  rewrite (cells_nil _ _ (fun y x => isPoint (cellAt (gridLines s) x y))
    (fun y x => pointAt y x (cellAt (gridLines s) x y)))
    by (intros; apply Hs).
  rewrite (cells_nil _ _ (fun y x => isText (cellAt (gridLines s) x y))
    (fun y x => textAt y x (cellAt (gridLines s) x y)))
    by (intros; apply quiet_cell, H).
  simpl.
  replace ((gridH s + 1) * SCALE * ASPECT) with ((gridH s + 1) * 16)
    by (unfold SCALE, ASPECT; lia).
  done.
Qed.

Lemma render_quiet_witness :
  forallb isQuiet (js ".  '" ++ LF ++ js " ,") = true
  /\ render_pieces (js ".  '" ++ LF ++ js " ,")
     = Ok [SvgOpen ((gridW (js ".  '" ++ LF ++ js " ,") + 1) * 8)
             ((gridH (js ".  '" ++ LF ++ js " ,") + 1) * 16);
           TextOpen; TextClose; SvgClose].
Proof.
  split; [reflexivity|].
  apply (render_quiet (js ".  '" ++ LF ++ js " ,")). reflexivity.
Defined.

(** ** No element twice *)

Lemma FOP_irrefl_NoDup {A} (R : A -> A -> Prop) (l : list A) :
  ForallOrdPairs R l -> (forall a, a ∈ l -> ~ R a a) -> NoDup l.
Proof.
  induction 1 as [|a l Ha _ IH]; intros Hirr; constructor.
  - intros Hin. rewrite list.Forall_forall in Ha.
    apply (Hirr a); [apply list_elem_of_here|by apply Ha].
  - apply IH. intros b Hb. apply Hirr. by apply list_elem_of_further.
Qed.

Lemma Runs_NoDup (cell : Z -> Z -> jsstring) (count extent : Z)
    (isSolid : jsstring -> bool) (runs : list run) :
  Runs cell count extent isSolid 0 count runs -> NoDup runs.
Proof.
  intros (Hok & _ & Hlt). apply (FOP_irrefl_NoDup _ _ Hlt).
  intros [[a b] k] Hin. rewrite list.Forall_forall in Hok.
  apply Hok in Hin as (_ & Hab & _). unfold run_lt. lia.
Qed.

Lemma hline_inj : Inj (=) (=) hline.
Proof.
  intros [[a b] k] [[a' b'] k'] [= H1 H2 H3].
  unfold SCALE, ASPECT in *. repeat f_equal; lia.
Qed.

Lemma vline_inj : Inj (=) (=) vline.
Proof.
  intros [[a b] k] [[a' b'] k'] [= H1 H2 H3].
  unfold SCALE, ASPECT in *. repeat f_equal; lia.
Qed.

Lemma NoDup_groups (l k : list piece) (n m : Z) :
  n < m ->
  Forall (fun p => group p = n) l -> NoDup l ->
  NoDup k /\ Forall (fun p => m <= group p) k ->
  NoDup (l ++ k) /\ Forall (fun p => n <= group p) (l ++ k).
Proof.
  intros Hnm Hl Nl [Nk Hk]. split.
  - apply list.NoDup_app. split; [done|]. split; [|done].
    intros p Hp Hq. rewrite list.Forall_forall in Hl, Hk.
    specialize (Hl _ Hp). specialize (Hk _ Hq). lia.
  - apply Forall_app. split.
    + eapply List.Forall_impl; [|exact Hl]. intros p. simpl. lia.
    + eapply List.Forall_impl; [|exact Hk]. intros p. simpl. lia.
Qed.

Lemma group_cells (n : Z) (extent count : Z) (cls : Z -> Z -> bool)
    (mk : Z -> Z -> piece) :
  (forall k i, group (mk k i) = n) ->
  Forall (fun p => group p = n)
    (cellsUpto extent (fun k i => if cls k i then [mk k i] else []) 0 count).
Proof.
  intros H. apply list.Forall_forall. intros p Hp.
  apply elem_of_cells_if in Hp as (k & i & _ & _ & _ & ->). apply H.
Qed.

(** X21: no element of the output appears twice: with the elements listed
    one kind at a time, there are as many polygons as arrow heads in the
    grid, and so on. *)
Theorem render_no_duplicates (s : jsstring) :
  exists pieces, render_pieces s = Ok pieces /\ NoDup pieces.
Proof.
  destruct (render_pieces_run s) as (hruns & vruns & Hrun & HH & HV).
  exists (assemble s hruns vruns). split; [done|].
  assert (Ghl : Forall (fun p => group p = 1) (hline <$> hruns)).
  { apply Forall_fmap, Forall_true. intros [[a b] k]. simpl.
    by rewrite Z.eqb_refl. }
  assert (Gvl : Forall (fun p => group p = 2) (vline <$> vruns)).
  { destruct HV as (Hok & _). apply Forall_fmap.
    eapply List.Forall_impl; [|exact Hok].
    intros [[a b] k] (_ & Hab & _). simpl.
    destruct (Z.eqb_spec ((a + 1) * SCALE * ASPECT) (b * SCALE * ASPECT));
      [unfold SCALE, ASPECT in *; lia|done]. }
  assert (Gar : Forall (fun p => group p = 3)
                  (arrows (gridLines s) (gridW s) (gridH s))).
  { apply (group_cells 3 _ _ (fun y x => isArrowHead (cellAt _ x y))
      (fun y x => arrowAt y x (cellAt (gridLines s) x y))). done. }
  assert (Gpt : Forall (fun p => group p = 4)
                  (points (gridLines s) (gridW s) (gridH s))).
  { apply (group_cells 4 _ _ (fun y x => isPoint (cellAt _ x y))
      (fun y x => pointAt y x (cellAt (gridLines s) x y))).
    intros y x. unfold pointAt. by destruct (_ === _). }
  assert (Gtx : Forall (fun p => group p = 6)
                  (texts (gridLines s) (gridW s) (gridH s))).
  { apply (group_cells 6 _ _ (fun y x => isText (cellAt _ x y))
      (fun y x => textAt y x (cellAt (gridLines s) x y))). done. }
  assert (Nhl : NoDup (hline <$> hruns)).
  { apply (@NoDup_fmap_2 _ _ hline hline_inj). by eapply Runs_NoDup. }
  assert (Nvl : NoDup (vline <$> vruns)).
  { apply (@NoDup_fmap_2 _ _ vline vline_inj). by eapply Runs_NoDup. }
  pose proof (cells_NoDup (gridLines s) (gridW s) (gridH s) isArrowHead
                arrowAt covers_arrowAt) as Nar.
  pose proof (cells_NoDup (gridLines s) (gridW s) (gridH s) isPoint
                pointAt covers_pointAt) as Npt.
  pose proof (cells_NoDup (gridLines s) (gridW s) (gridH s) isText
                textAt covers_textAt) as Ntx.
  fold (arrows (gridLines s) (gridW s) (gridH s)) in Nar.
  fold (points (gridLines s) (gridW s) (gridH s)) in Npt.
  fold (texts (gridLines s) (gridW s) (gridH s)) in Ntx.
  assert (S7 : NoDup [TextClose; SvgClose]
               /\ Forall (fun p => 7 <= group p) [TextClose; SvgClose]).
  { split; [|repeat constructor; simpl; lia].
    constructor; [by intros ?%list_elem_of_singleton|].
    apply list.NoDup_singleton. }
  unfold assemble.
  apply (NoDup_groups [_] _ 0 1); [lia|by repeat constructor
                                  |apply list.NoDup_singleton|].
  apply (NoDup_groups _ _ 1 2); [lia|done|done|].
  apply (NoDup_groups _ _ 2 3); [lia|done|done|].
  apply (NoDup_groups _ _ 3 4); [lia|done|done|].
  apply (NoDup_groups _ _ 4 5); [lia|done|done|].
  apply (NoDup_groups [_] _ 5 6); [lia|by repeat constructor
                                  |apply list.NoDup_singleton|].
  apply (NoDup_groups _ _ 6 7); [lia|done|done|done].
Qed.

(** ** The characters of the output *)

Section Chars.
Variable P : N -> Prop.
Hypothesis ascii : forall c, (c < 128)%N -> P c.

Lemma lit_chars (l : jsstring) :
  forallb (fun c => c <? 128)%N l = true -> Forall P l.
Proof.
  intros H. apply List.Forall_forall. intros c Hc.
  apply ascii, N.ltb_lt. by apply (proj1 (forallb_forall _ _) H).
Qed.

Lemma num_chars (z : Z) : Forall P (numToString z).
Proof.
  apply lit_chars. apply (forallb_weaken numChar); [|apply numToString_chars].
  intros c. unfold numChar.
  rewrite orb_true_iff, andb_true_iff, !N.leb_le, N.eqb_eq, N.ltb_lt. lia.
Qed.

Lemma escape_chars (c : N) : P c -> Forall P (escapeHTMLEntities [c]).
Proof.
  intros Hc. rewrite escape_one.
  destruct (escape_unit_cases c)
    as [[_ ->]|[_ [[_ ->]|[[_ ->]|[[_ ->]|[_ ->]]]]]];
    [by repeat constructor|by apply lit_chars..].
Qed.

Lemma piece_chars (p : piece) :
  (forall px py escaped, p = Text px py escaped -> Forall P escaped) ->
  Forall P (piece_text p).
Proof.
  intros Htext.
  destruct p; cbn [piece_text];
    repeat (apply Forall_app; split);
    try apply num_chars; try (by apply lit_chars);
    by eapply Htext.
Qed.

Lemma cell_chars (s : jsstring) (x y : Z) :
  Forall P s -> Forall P (escapeHTMLEntities (cellAt (gridLines s) x y)).
Proof.
  intros Hs. pose proof (gridLines_chars P s Hs) as Hl.
  destruct (cellAt_unit (gridLines s) x y) as [->|(line & c & Hin & Hc & ->)].
  - by apply lit_chars.
  - apply escape_chars. rewrite list.Forall_forall in Hl.
    specialize (Hl _ Hin). rewrite list.Forall_forall in Hl. by apply Hl.
Qed.

End Chars.

(** X22: [render] adds ASCII characters only: a property that holds of
    every ASCII code unit and of every code unit of the diagram holds of
    every code unit of the output. *)
Theorem render_chars (P : N -> Prop) (s : jsstring) :
  (forall c, (c < 128)%N -> P c) -> Forall P s ->
  exists out, render s = Ok out /\ Forall P out.
Proof.
  intros Hascii Hs.
  destruct (render_pieces_run s) as (hruns & vruns & Hrun & _ & _).
  unfold render. rewrite Hrun. eexists. split; [done|].
  unfold flatten. apply Forall_concat, Forall_fmap, list.Forall_forall.
  intros p Hp. simpl. apply (piece_chars P Hascii).
  intros px py escaped ->.
  apply elem_of_assemble in Hp
    as [H|[(r & Hr & H)|[(r & Hr & H)|[(x & y & _ & H)|[(x & y & _ & H)
      |[H|[(x & y & Hc & H)|[H|H]]]]]]]]; try other_piece.
  injection H as _ _ ->. by apply cell_chars.
Qed.

Lemma render_chars_witness :
  (forall c, (c < 128)%N -> (c < 256)%N)
  /\ Forall (fun c => c < 256)%N (js "a-b")
  /\ exists out, render (js "a-b") = Ok out
                 /\ Forall (fun c => c < 256)%N out.
Proof.
  assert (H1 : forall c, (c < 128)%N -> (c < 256)%N) by (intros c Hc; lia).
  assert (H2 : Forall (fun c => c < 256)%N (js "a-b"))
    by (repeat constructor).
  split; [exact H1|]. split; [exact H2|].
  exact (render_chars (fun c => c < 256)%N (js "a-b") H1 H2).
Defined.

(** ** Strings in the memory of the wrapper *)

Import Wrapper.

Lemma inserts_splice {A} (i : nat) (k l : list A) :
  (i + length k <= length l)%nat ->
  list_inserts i k l = take i l ++ k ++ drop (i + length k) l.
Proof.
  intros H. rewrite <- (take_drop i l) at 1.
  assert (Hi : length (take i l) = i) by (rewrite length_take; lia).
  rewrite <- (Nat.add_0_r i) at 1. rewrite <- Hi at 1.
  rewrite list_inserts_app_r. f_equal.
  rewrite <- (take_drop (length k) (drop i l)) at 1.
  rewrite list_inserts_0_r.
  - by rewrite drop_drop.
  - rewrite length_take, length_drop. lia.
Qed.

Lemma length_le32 (v : Z) : length (le32 v) = 4%nat.
Proof. done. Qed.

Lemma of_le32_le32 (v : Z) : of_le32 (le32 v) = v `mod` 2 ^ 32.
Proof.
  unfold le32, of_le32. simpl.
  pose proof (Z.mod_pos_bound v (2 ^ 32) ltac:(lia)) as Hm.
  set (m := v `mod` 2 ^ 32) in *.
  rewrite !Z2N.id by (apply Z.mod_pos_bound; lia).
  change (256 ^ 0) with 1. change (256 ^ 1) with 256.
  change (256 ^ 2) with (256 * 256). change (256 ^ 3) with (256 * 256 * 256).
  rewrite Z.div_1_r. rewrite <- !Z.div_div by lia.
  pose proof (Z.div_mod m 256 ltac:(lia)).
  pose proof (Z.div_mod (m / 256) 256 ltac:(lia)).
  pose proof (Z.div_mod (m / 256 / 256) 256 ltac:(lia)).
  assert (0 <= m / 256 / 256 / 256 < 256).
  { split; [repeat apply Z.div_pos; lia|].
    repeat (apply Z.div_lt_upper_bound; [lia|]). lia. }
  rewrite (Z.mod_small (m / 256 / 256 / 256)) by lia. lia.
Qed.

Lemma bytes_of_small (str : jsstring) :
  (fun b => b `mod` 65536)%N <$> bytes_of str = bytes_of str.
Proof.
  unfold bytes_of. rewrite <- list_fmap_compose. apply list_fmap_ext.
  intros _ c _. simpl.
  pose proof (N.mod_upper_bound c 256 ltac:(done)).
  apply N.mod_small. lia.
Qed.

Lemma write_loop (str : jsstring) (o : Z) (rest pre : jsstring)
    (buf : list N) :
  str = pre ++ rest -> 0 <= o ->
  io_fold (fun i (_ : unit) =>
             setElement (View o (strlen str)) i (charCodeAt str i))
    (seqZ (strlen pre) (strlen rest)) tt (Some buf)
  = (Returns tt,
     Some (list_inserts (Z.to_nat o + length pre) (bytes_of rest) buf)).
Proof.
  intros Hstr Ho. revert pre buf Hstr.
  induction rest as [|c rest IH]; intros pre buf Hstr; [done|].
  change (strlen (c :: rest)) with (Z.of_nat (S (length rest))).
  rewrite seqZ_cons by lia.
  cbn [io_fold]. unfold mbind, io_bind.
  unfold setElement at 1, on_buffer. cbn [byteLength byteOffset].
  assert (Hlen : strlen str = strlen pre + strlen (c :: rest)).
  { rewrite Hstr. unfold strlen. rewrite length_app. lia. }
  unfold strlen in Hlen |- *. simpl length in *.
  destruct (Z.leb_spec 0 (Z.of_nat (length pre))); [|lia].
  destruct (Z.ltb_spec (Z.of_nat (length pre)) (Z.of_nat (length str)));
    [|lia].
  cbn [andb].
  assert (charCodeAt str (Z.of_nat (length pre)) = Some c) as ->.
  { unfold charCodeAt. rewrite arrget_lookup, Hstr.
    by rewrite list_lookup_middle. }
  cbn [from_option].
  replace (Z.succ (Z.of_nat (length pre)))
    with (Z.of_nat (length (pre ++ [c])))
    by (rewrite length_app; simpl; lia).
  replace (Z.pred (Z.of_nat (S (length rest))))
    with (Z.of_nat (length rest)) by lia.
  etrans; [apply (IH (pre ++ [c])
    (<[Z.to_nat (o + Z.of_nat (length pre)) := (c `mod` 256)%N]> buf));
    by rewrite <- app_assoc|].
  f_equal. f_equal. unfold bytes_of. rewrite fmap_cons. cbn [list_inserts].
  rewrite length_app. simpl length.
  replace (Z.to_nat o + (length pre + 1))%nat
    with (S (Z.to_nat o + length pre)) by lia.
  replace (Z.to_nat (o + Z.of_nat (length pre)))
    with (Z.to_nat o + length pre)%nat by lia.
  rewrite list_insert_inserts_lt by lia. done.
Qed.

Lemma read_loop (bytes : list N) (o : Z) (rest pre : list N)
    (acc : jsstring) (buf : list N) :
  bytes = pre ++ rest -> 0 <= o ->
  (forall j, (j < length bytes)%nat ->
     buf !! (Z.to_nat o + j)%nat = bytes !! j) ->
  io_fold (fun i result =>
             b ← getElement (View o (arrlen bytes)) i;
             mret (result ++ fromCharCode b))
    (seqZ (arrlen pre) (arrlen rest)) acc (Some buf)
  = (Returns (acc ++ ((fun b => b `mod` 65536)%N <$> rest)), Some buf).
Proof.
  intros Hb Ho Hbuf. revert pre acc Hb.
  induction rest as [|c rest IH]; intros pre acc Hb.
  { simpl. by rewrite app_nil_r. }
  change (arrlen (c :: rest)) with (Z.of_nat (S (length rest))).
  rewrite seqZ_cons by lia.
  cbn [io_fold]. unfold mbind at 1, io_bind at 1.
  unfold mbind at 1, io_bind at 1.
  unfold getElement at 1, on_buffer. cbn [byteLength byteOffset].
  assert (Hlen : arrlen bytes = arrlen pre + arrlen (c :: rest)).
  { rewrite Hb. unfold arrlen. rewrite length_app. lia. }
  unfold arrlen in Hlen |- *. simpl length in *.
  destruct (Z.leb_spec 0 (Z.of_nat (length pre))); [|lia].
  destruct (Z.ltb_spec (Z.of_nat (length pre)) (Z.of_nat (length bytes)));
    [|lia].
  cbn [andb].
  replace (Z.to_nat (o + Z.of_nat (length pre)))
    with (Z.to_nat o + length pre)%nat by lia.
  rewrite Hbuf by lia. rewrite Hb at 1. rewrite list_lookup_middle by done.
  unfold mret, io_ret. cbn [fromCharCode from_option].
  replace (Z.succ (Z.of_nat (length pre)))
    with (Z.of_nat (length (pre ++ [c])))
    by (rewrite length_app; simpl; lia).
  replace (Z.pred (Z.of_nat (S (length rest))))
    with (Z.of_nat (length rest)) by lia.
  etrans; [apply (IH (pre ++ [c]) (acc ++ [(c `mod` 65536)%N]));
           by rewrite <- app_assoc|].
  by rewrite fmap_cons, <- app_assoc.
Qed.

Lemma writeString_run (str : jsstring) (ptr : Z) (buf : list N) :
  0 <= ptr -> ptr + 4 + strlen str <= arrlen buf ->
  writeString str ptr (Some buf) = (Returns ptr, Some (stored str ptr buf)).
Proof.
  intros Hp Hfit. unfold writeString, mbind, io_bind.
  unfold newDataView, setUint32, newUint8Array, on_buffer.
  cbn [byteLength byteOffset].
  assert (0 <= strlen str) by (unfold strlen; lia).
  destruct (Z.ltb_spec ptr 0); [lia|]. rewrite Z.gtb_ltb.
  destruct (Z.ltb_spec (arrlen buf) (ptr + 4)); [lia|]. cbn [orb].
  destruct (Z.ltb_spec (ptr + 4) 0); [lia|].
  destruct (Z.ltb_spec (strlen str) 0); [lia|]. rewrite Z.gtb_ltb.
  unfold arrlen at 1. rewrite length_inserts. fold (arrlen buf).
  destruct (Z.ltb_spec (arrlen buf) (ptr + 4 + strlen str)); [lia|].
  cbn [orb]. unfold for_io. rewrite Z.sub_0_r.
  pose proof (write_loop str (ptr + 4) str [] 
    (list_inserts (Z.to_nat (0 + ptr)) (le32 (strlen str)) buf)
    eq_refl ltac:(lia)) as Hloop.
  change (strlen []) with 0 in Hloop. rewrite Hloop.
  unfold mret, io_ret. f_equal. f_equal. unfold stored.
  assert (Hb : length (bytes_of str) = length str)
    by (unfold bytes_of; by rewrite length_fmap).
  unfold arrlen, strlen in *. simpl length. rewrite Nat.add_0_r.
  replace (Z.to_nat (0 + ptr)) with (Z.to_nat ptr) by lia.
  replace (Z.to_nat (ptr + 4)) with (Z.to_nat ptr + 4)%nat by lia.
  replace (Z.to_nat (ptr + 4 + Z.of_nat (length str)))
    with (Z.to_nat ptr + 4 + length str)%nat by lia.
  rewrite (inserts_splice (Z.to_nat ptr) (le32 _) buf)
    by (rewrite length_le32; lia).
  rewrite length_le32.
  assert (Hl : length (take (Z.to_nat ptr) buf) = Z.to_nat ptr)
    by (rewrite length_take; lia).
  rewrite inserts_splice
    by (rewrite !length_app, Hl, length_le32, length_drop, Hb; lia).
  rewrite take_app_add' by done.
  rewrite (take_app_length' (le32 _)) by done.
  rewrite <- app_assoc. f_equal. f_equal. f_equal.
  rewrite Hb, <- Nat.add_assoc. rewrite drop_app_add' by done.
  rewrite drop_app_add' by done. rewrite drop_drop. f_equal. lia.
Qed.

Lemma of_le32_nonneg (bytes : list N) : 0 <= of_le32 bytes.
Proof. unfold of_le32. induction bytes as [|b r IH]; simpl; lia. Qed.

Lemma readString_run (ptr : Z) (buf : list N) :
  0 <= ptr -> ptr + 4 + length_at ptr buf <= arrlen buf ->
  readString ptr (Some buf) = (Returns (string_at ptr buf), Some buf).
Proof.
  intros Hp Hfit. pose proof (of_le32_nonneg (take 4 (drop (Z.to_nat ptr) buf)))
    as Hn. fold (length_at ptr buf) in Hn.
  unfold readString, mbind, io_bind.
  unfold newDataView, getUint32, newUint8Array, on_buffer.
  cbn [byteLength byteOffset].
  destruct (Z.ltb_spec ptr 0); [lia|]. rewrite Z.gtb_ltb.
  destruct (Z.ltb_spec (arrlen buf) (ptr + 4)); [lia|]. cbn [orb].
  replace (Z.to_nat (0 + ptr)) with (Z.to_nat ptr) by lia.
  fold (length_at ptr buf).
  destruct (Z.ltb_spec (ptr + 4) 0); [lia|].
  destruct (Z.ltb_spec (length_at ptr buf) 0); [lia|]. rewrite Z.gtb_ltb.
  destruct (Z.ltb_spec (arrlen buf) (ptr + 4 + length_at ptr buf)); [lia|].
  cbn [orb]. unfold for_io. rewrite Z.sub_0_r. unfold string_at.
  set (bytes := take (Z.to_nat (length_at ptr buf))
                  (drop (Z.to_nat (ptr + 4)) buf)).
  assert (Hlen : arrlen bytes = length_at ptr buf).
  { unfold arrlen, bytes. rewrite length_take, length_drop.
    unfold arrlen in Hfit. lia. }
  rewrite <- Hlen.
  apply (read_loop bytes (ptr + 4) bytes [] [] buf eq_refl); [lia|].
  intros j Hj. unfold bytes in *. rewrite length_take in Hj.
  rewrite lookup_take_lt by lia. by rewrite lookup_drop.
Qed.

Lemma region_eq {A} (a n : nat) (l l' : list A) :
  (forall j, (a <= j < a + n)%nat -> l' !! j = l !! j) ->
  take n (drop a l') = take n (drop a l).
Proof.
  intros H. apply list_eq. intros i. rewrite !lookup_take.
  destruct (decide (i < n)%nat); [|done]. rewrite !lookup_drop.
  apply H. lia.
Qed.

Lemma stored_length (str : jsstring) (ptr : Z) (buf : list N) :
  0 <= ptr -> ptr + 4 + strlen str <= arrlen buf ->
  length (stored str ptr buf) = length buf.
Proof.
  intros Hp Hfit. unfold stored, arrlen, strlen, bytes_of in *.
  rewrite !length_app, length_take, length_le32, length_fmap, length_drop.
  lia.
Qed.

Lemma stored_header (str : jsstring) (ptr : Z) (buf : list N) :
  0 <= ptr -> ptr + 4 + strlen str <= arrlen buf ->
  take 4 (drop (Z.to_nat ptr) (stored str ptr buf)) = le32 (strlen str).
Proof.
  intros Hp Hfit. unfold stored, arrlen, strlen in *.
  rewrite drop_app_length' by (rewrite length_take; lia).
  by rewrite take_app_length' by done.
Qed.

Lemma stored_bytes (str : jsstring) (ptr : Z) (buf : list N) :
  0 <= ptr -> ptr + 4 + strlen str <= arrlen buf ->
  take (length str) (drop (Z.to_nat (ptr + 4)) (stored str ptr buf))
  = bytes_of str.
Proof.
  intros Hp Hfit. unfold stored, arrlen, strlen in *.
  replace (Z.to_nat (ptr + 4)) with (Z.to_nat ptr + 4)%nat by lia.
  rewrite <- drop_drop.
  rewrite drop_app_length' by (rewrite length_take; lia).
  rewrite drop_app_length' by done.
  rewrite take_app_length'; [done|]. unfold bytes_of. by rewrite length_fmap.
Qed.

Lemma stored_frame (str : jsstring) (ptr : Z) (buf : list N) (j : nat) :
  0 <= ptr -> ptr + 4 + strlen str <= arrlen buf ->
  (j < Z.to_nat ptr \/ Z.to_nat (ptr + 4 + strlen str) <= j)%nat ->
  stored str ptr buf !! j = buf !! j.
Proof.
  intros Hp Hfit Hj. unfold stored, arrlen, strlen in *.
  assert (Hl : length (take (Z.to_nat ptr) buf) = Z.to_nat ptr)
    by (rewrite length_take; lia).
  assert (Hb : length (bytes_of str) = length str)
    by (unfold bytes_of; by rewrite length_fmap).
  destruct Hj as [Hj|Hj].
  - rewrite lookup_app_l by lia. by rewrite lookup_take_lt.
  - rewrite lookup_app_r by lia. rewrite lookup_app_r by (rewrite length_le32; lia).
    rewrite lookup_app_r by (rewrite length_le32; lia).
    rewrite lookup_drop. f_equal. rewrite Hl, Hb, length_le32. lia.
Qed.

(** X23: [writeString] of a string that fits stores the length in four
    bytes, least significant first, then one byte per code unit (modulo
    256); it returns the pointer and changes no other byte of the memory. *)
Theorem writeString_layout (str : jsstring) (ptr : Z) (buf : list N) :
  0 <= ptr -> ptr + 4 + strlen str <= arrlen buf ->
  exists buf',
    writeString str ptr (Some buf) = (Returns ptr, Some buf')
    /\ length buf' = length buf
    /\ take 4 (drop (Z.to_nat ptr) buf') = le32 (strlen str)
    /\ take (length str) (drop (Z.to_nat (ptr + 4)) buf')
       = (fun c => c `mod` 256)%N <$> str
    /\ forall j, (j < Z.to_nat ptr
                  \/ Z.to_nat (ptr + 4 + strlen str) <= j)%nat ->
         buf' !! j = buf !! j.
Proof.
  intros Hp Hfit. exists (stored str ptr buf).
  split; [by apply writeString_run|]. split; [by apply stored_length|].
  split; [by apply stored_header|]. split; [by apply stored_bytes|].
  intros j. by apply stored_frame.
Qed.

Lemma writeString_layout_witness :
  0 <= 2 /\ 2 + 4 + strlen (js "ab") <= arrlen (replicate 10 7%N)
  /\ exists buf',
       writeString (js "ab") 2 (Some (replicate 10 7%N))
       = (Returns 2, Some buf')
       /\ length buf' = length (replicate 10 7%N)
       /\ take 4 (drop (Z.to_nat 2) buf') = le32 (strlen (js "ab"))
       /\ take (length (js "ab")) (drop (Z.to_nat (2 + 4)) buf')
          = (fun c => c `mod` 256)%N <$> js "ab"
       /\ forall j, (j < Z.to_nat 2
                     \/ Z.to_nat (2 + 4 + strlen (js "ab")) <= j)%nat ->
            buf' !! j = replicate 10 7%N !! j.
Proof.
  split; [lia|]. split; [vm_compute; discriminate|].
  apply (writeString_layout (js "ab") 2 (replicate 10 7%N)).
  - lia.
  - vm_compute. discriminate.
Defined.

Lemma string_at_stored (str : jsstring) (ptr : Z) (buf : list N) :
  0 <= ptr -> ptr + 4 + strlen str <= arrlen buf -> strlen str < 2 ^ 32 ->
  length_at ptr (stored str ptr buf) = strlen str
  /\ string_at ptr (stored str ptr buf) = bytes_of str.
Proof.
  intros Hp Hfit Hlen.
  assert (Hl : length_at ptr (stored str ptr buf) = strlen str).
  { unfold length_at. rewrite stored_header by done.
    rewrite of_le32_le32. apply Z.mod_small. unfold strlen in *. lia. }
  split; [done|]. unfold string_at. rewrite Hl. unfold strlen at 1.
  rewrite Nat2Z.id, stored_bytes by done. apply bytes_of_small.
Qed.

(** X24: [readString] gives back what [writeString] stored: the string
    with every code unit taken modulo 256, hence the string itself when its
    code units are below 256. *)
Theorem readString_writeString (str : jsstring) (ptr : Z) (buf : list N) :
  0 <= ptr -> ptr + 4 + strlen str <= arrlen buf -> strlen str < 2 ^ 32 ->
  exists buf',
    writeString str ptr (Some buf) = (Returns ptr, Some buf')
    /\ readString ptr (Some buf')
       = (Returns ((fun c => c `mod` 256)%N <$> str), Some buf')
    /\ (Forall (fun c => c < 256)%N str ->
        readString ptr (Some buf') = (Returns str, Some buf')).
Proof.
  intros Hp Hfit Hlen. exists (stored str ptr buf).
  split; [by apply writeString_run|].
  destruct (string_at_stored str ptr buf Hp Hfit Hlen) as [Hl Hs].
  assert (Hread : readString ptr (Some (stored str ptr buf))
                  = (Returns (bytes_of str), Some (stored str ptr buf))).
  { rewrite readString_run, Hs; [done..|].
    rewrite Hl. unfold arrlen. rewrite stored_length by done.
    by fold (arrlen buf). }
  split; [done|]. intros Hsmall. rewrite Hread. do 2 f_equal.
  unfold bytes_of. rewrite <- (list_fmap_id str) at 2.
  apply Forall_fmap_ext_1. eapply List.Forall_impl; [|exact Hsmall].
  intros c Hc. simpl. by apply N.mod_small.
Qed.

Lemma readString_writeString_witness :
  0 <= 2 /\ 2 + 4 + strlen (js "ab") <= arrlen (replicate 10 7%N)
  /\ strlen (js "ab") < 2 ^ 32
  /\ exists buf',
       writeString (js "ab") 2 (Some (replicate 10 7%N))
       = (Returns 2, Some buf')
       /\ readString 2 (Some buf')
          = (Returns ((fun c => c `mod` 256)%N <$> js "ab"), Some buf')
       /\ (Forall (fun c => c < 256)%N (js "ab") ->
           readString 2 (Some buf') = (Returns (js "ab"), Some buf')).
Proof.
  split; [lia|]. split; [vm_compute; discriminate|].
  split; [reflexivity|].
  apply (readString_writeString (js "ab") 2 (replicate 10 7%N)).
  - lia.
  - vm_compute. discriminate.
  - reflexivity.
Defined.

(** X25: [writeString] of a string that does not fit raises a
    [RangeError]; when the four bytes of the length still fit they have
    been overwritten by then. *)
Theorem writeString_out_of_range (str : jsstring) (ptr : Z)
    (buf : list N) :
  ~ (0 <= ptr /\ ptr + 4 + strlen str <= arrlen buf) ->
  writeString str ptr (Some buf)
  = (RangeError,
     Some (if (0 <=? ptr) && (ptr + 4 <=? arrlen buf)
           then take (Z.to_nat ptr) buf ++ le32 (strlen str)
                ++ drop (Z.to_nat (ptr + 4)) buf
           else buf)).
Proof.
  intros Hout. unfold writeString, mbind, io_bind.
  unfold newDataView, setUint32, newUint8Array, on_buffer.
  cbn [byteLength byteOffset].
  assert (0 <= strlen str) by (unfold strlen; lia).
  rewrite !Z.gtb_ltb.
  destruct (Z.ltb_spec ptr 0); destruct (Z.leb_spec 0 ptr); try lia;
    [done|].
  destruct (Z.ltb_spec (arrlen buf) (ptr + 4));
    destruct (Z.leb_spec (ptr + 4) (arrlen buf)); try lia; [done|].
  cbn [orb andb].
  destruct (Z.ltb_spec (ptr + 4) 0); [lia|].
  destruct (Z.ltb_spec (strlen str) 0); [lia|].
  unfold arrlen at 1. rewrite length_inserts. fold (arrlen buf).
  rewrite Z.gtb_ltb.
  destruct (Z.ltb_spec (arrlen buf) (ptr + 4 + strlen str)); [|lia].
  cbn [orb]. do 2 f_equal.
  replace (Z.to_nat (0 + ptr)) with (Z.to_nat ptr) by lia.
  unfold arrlen in *.
  rewrite inserts_splice by (rewrite length_le32; lia).
  rewrite length_le32. do 3 f_equal. lia.
Qed.

Lemma writeString_out_of_range_witness :
  ~ (0 <= 2 /\ 2 + 4 + strlen (js "abc") <= arrlen (replicate 8 7%N))
  /\ writeString (js "abc") 2 (Some (replicate 8 7%N))
     = (RangeError,
        Some (if (0 <=? 2) && (2 + 4 <=? arrlen (replicate 8 7%N))
              then take (Z.to_nat 2) (replicate 8 7%N)
                   ++ le32 (strlen (js "abc"))
                   ++ drop (Z.to_nat (2 + 4)) (replicate 8 7%N)
              else replicate 8 7%N)).
Proof.
  assert (H : ~ (0 <= 2
                 /\ 2 + 4 + strlen (js "abc") <= arrlen (replicate 8 7%N))).
  { vm_compute. intros [_ H]. by apply H. }
  split; [exact H|].
  exact (writeString_out_of_range (js "abc") 2 (replicate 8 7%N) H).
Defined.

(** X26: [readString] never changes the memory; it raises a [RangeError]
    exactly when the pointer is negative or the length found at the
    pointer reaches beyond the buffer, and a [TypeError] while [memory] is
    [null]. *)
Theorem readString_bounds (ptr : Z) (buf : list N) :
  readString ptr None = (TypeError, None)
  /\ readString ptr (Some buf)
     = (if (0 <=? ptr) && (ptr + 4 + length_at ptr buf <=? arrlen buf)
        then Returns (string_at ptr buf)
        else RangeError,
        Some buf).
Proof.
  split; [done|].
  pose proof (of_le32_nonneg (take 4 (drop (Z.to_nat ptr) buf))) as Hn.
  fold (length_at ptr buf) in Hn.
  destruct (Z.leb_spec 0 ptr);
    [destruct (Z.leb_spec (ptr + 4 + length_at ptr buf) (arrlen buf))|];
    cbn [andb].
  - by apply readString_run.
  - unfold readString, mbind, io_bind.
    unfold newDataView, getUint32, newUint8Array, on_buffer.
    cbn [byteLength byteOffset]. rewrite !Z.gtb_ltb.
    destruct (Z.ltb_spec ptr 0); [lia|].
    destruct (Z.ltb_spec (arrlen buf) (ptr + 4)); [done|]. cbn [orb].
    replace (Z.to_nat (0 + ptr)) with (Z.to_nat ptr) by lia.
    fold (length_at ptr buf).
    destruct (Z.ltb_spec (ptr + 4) 0); [lia|].
    destruct (Z.ltb_spec (length_at ptr buf) 0); [lia|].
    rewrite ?Z.gtb_ltb.
    destruct (Z.ltb_spec (arrlen buf) (ptr + 4 + length_at ptr buf)); [|lia].
    done.
  - unfold readString, mbind, io_bind.
    unfold newDataView, getUint32, on_buffer. cbn [byteLength byteOffset].
    destruct (Z.ltb_spec ptr 0); [|lia]. done.
Qed.

(** X27: a string stored in memory is still read back after another
    string has been stored in a region that does not overlap it. *)
Theorem writeString_apart (s1 s2 : jsstring) (p1 p2 : Z) (buf : list N) :
  0 <= p1 -> p1 + 4 + strlen s1 <= arrlen buf -> strlen s1 < 2 ^ 32 ->
  0 <= p2 -> p2 + 4 + strlen s2 <= arrlen buf ->
  p1 + 4 + strlen s1 <= p2 \/ p2 + 4 + strlen s2 <= p1 ->
  exists buf1 buf2,
    writeString s1 p1 (Some buf) = (Returns p1, Some buf1)
    /\ writeString s2 p2 (Some buf1) = (Returns p2, Some buf2)
    /\ readString p1 (Some buf2)
       = (Returns ((fun c => c `mod` 256)%N <$> s1), Some buf2).
Proof.
  intros Hp1 Hfit1 Hlen1 Hp2 Hfit2 Hapart.
  exists (stored s1 p1 buf), (stored s2 p2 (stored s1 p1 buf)).
  assert (Hsize : arrlen (stored s1 p1 buf) = arrlen buf).
  { unfold arrlen. by rewrite stored_length. }
  split; [by apply writeString_run|].
  split; [apply writeString_run; [done|by rewrite Hsize]|].
  destruct (string_at_stored s1 p1 buf Hp1 Hfit1 Hlen1) as [Hl Hs].
  assert (0 <= strlen s1) by (unfold strlen; lia).
  assert (Hl2 : length_at p1 (stored s2 p2 (stored s1 p1 buf)) = strlen s1).
  { rewrite <- Hl. unfold length_at. f_equal. apply region_eq.
    intros j Hj. apply stored_frame; [done|by rewrite Hsize|]. lia. }
  rewrite readString_run; [|done|].
  - do 2 f_equal. fold (bytes_of s1). rewrite <- Hs. unfold string_at.
    rewrite Hl2, Hl. f_equal.
    apply region_eq. intros j Hj.
    apply stored_frame; [done|by rewrite Hsize|]. lia.
  - rewrite Hl2. unfold arrlen. rewrite stored_length by (by rewrite ?Hsize).
    rewrite stored_length by done. by fold (arrlen buf).
Qed.

Lemma writeString_apart_witness :
  0 <= 0 /\ 0 + 4 + strlen (js "a") <= arrlen (replicate 12 0%N)
  /\ strlen (js "a") < 2 ^ 32
  /\ 0 <= 6 /\ 6 + 4 + strlen (js "bc") <= arrlen (replicate 12 0%N)
  /\ (0 + 4 + strlen (js "a") <= 6 \/ 6 + 4 + strlen (js "bc") <= 0)
  /\ exists buf1 buf2,
       writeString (js "a") 0 (Some (replicate 12 0%N))
       = (Returns 0, Some buf1)
       /\ writeString (js "bc") 6 (Some buf1) = (Returns 6, Some buf2)
       /\ readString 0 (Some buf2)
          = (Returns ((fun c => c `mod` 256)%N <$> js "a"), Some buf2).
Proof.
  assert (H1 : 0 + 4 + strlen (js "a") <= arrlen (replicate 12 0%N))
    by (vm_compute; discriminate).
  assert (H2 : 6 + 4 + strlen (js "bc") <= arrlen (replicate 12 0%N))
    by (vm_compute; discriminate).
  assert (H3 : 0 + 4 + strlen (js "a") <= 6 \/ 6 + 4 + strlen (js "bc") <= 0)
    by (left; vm_compute; discriminate).
  split; [lia|]. split; [exact H1|]. split; [reflexivity|].
  split; [lia|]. split; [exact H2|]. split; [exact H3|].
  apply (writeString_apart (js "a") (js "bc") 0 6 (replicate 12 0%N));
    [lia|exact H1|reflexivity|lia|exact H2|exact H3].
Defined.
